(** * Writer's Dashboard

    A shallow embedding of [src/WritersDashboard.jsx]: the JavaScript
    built-ins the component calls ([parseInt], [JSON.stringify],
    [JSON.parse], [Math.round], truthiness and [||]), the persisted bundle
    [{projects, sessions, ideas, dailyGoal}], the state-store actions, the
    derived statistics, the focus timer and the cloud-load effect.

    Conventions.
    - A stored JavaScript number is [NaN] or an exact integer ([num]): the
      counts the component keeps are integers, and their rounding beyond
      2^53 and the sign of zero are outside the model.  The one quotient
      the component forms, words per hour, is computed in binary64
      ([double]).  A JSON literal that denotes a proper fraction is kept as
      an exact decimal ([JFrac]).
    - A JavaScript string is a Rocq [string]: a sequence of 8-bit code units
      (the UTF-8 bytes of the text).
    - An object is an association list in insertion order with unique keys.
    - [Math.random] and the clock are oracles passed to the functions that
      read them. *)

From Stdlib Require Import ZArith List String Ascii Bool Lia.
From Stdlib Require Import Permutation SpecFloat.
From Stdlib Require Import DecimalString DecimalN DecimalZ.
Import ListNotations.

Local Open Scope string_scope.
Local Open Scope Z_scope.

(* ------------------------------------------------------------------ *)
(** * JavaScript values and the built-ins the component uses *)
(* ------------------------------------------------------------------ *)

Module Js.

(** Numbers. *)
Inductive num : Type :=
| NaN : num
| Int (z : Z) : num.

(** [a + b] on numbers. *)
Definition add (a b : num) : num :=
  match a, b with
  | Int x, Int y => Int (x + y)
  | _, _ => NaN
  end.

(** [a <= b], [a > b], [a >= b], [a < b]: every comparison with NaN is
    false. *)
Definition leb (a b : num) : bool :=
  match a, b with
  | Int x, Int y => x <=? y
  | _, _ => false
  end.

Definition gtb (a b : num) : bool :=
  match a, b with
  | Int x, Int y => y <? x
  | _, _ => false
  end.

Definition isNaN (a : num) : bool :=
  match a with NaN => true | Int _ => false end.

(** [Math.min], [Math.max]: NaN if either argument is NaN. *)
Definition Math_min (a b : num) : num :=
  match a, b with
  | Int x, Int y => Int (Z.min x y)
  | _, _ => NaN
  end.

Definition Math_max (a b : num) : num :=
  match a, b with
  | Int x, Int y => Int (Z.max x y)
  | _, _ => NaN
  end.

(** Truthiness of a number: [0] and [NaN] are falsy. *)
Definition num_truthy (a : num) : bool :=
  match a with
  | NaN => false
  | Int z => negb (z =? 0)
  end.

(** [a || b] on numbers. *)
Definition num_or (a b : num) : num := if num_truthy a then a else b.

(** ** Binary64 *)

Definition prec : Z := 53.
Definition emax : Z := 1024.

Definition double : Set := spec_float.

(** The double nearest to an integer. *)
Definition of_int (z : Z) : double := binary_normalize prec emax z 0 false.

Definition of_num (n : num) : double :=
  match n with
  | NaN => S754_nan
  | Int z => of_int z
  end.

(** [x / y] and [x * y]. *)
Definition fdiv (x y : double) : double := SFdiv prec emax x y.
Definition fmul (x y : double) : double := SFmul prec emax x y.

Definition isFinite (x : double) : bool :=
  match x with
  | S754_zero _ | S754_finite _ _ _ => true
  | S754_infinity _ | S754_nan => false
  end.

(** [Math.round(x)]: the integer nearest to [x], the upper one of two
    equally near; [x] itself when it is integral or not finite. *)
Definition Math_round (x : double) : double :=
  match x with
  | S754_finite s m e =>
      if e <? 0
      then
        let v := if s then Z.neg m else Z.pos m in
        of_int ((2 * v + 2 ^ (- e)) / 2 ^ (- e + 1))
      else x
  | _ => x
  end.

(** [Math.floor(x)]. *)
Definition Math_floor (x : double) : double :=
  match x with
  | S754_finite s m e =>
      if e <? 0
      then
        let v := if s then Z.neg m else Z.pos m in
        of_int (v / 2 ^ (- e))
      else x
  | _ => x
  end.

(** [Math.min(x, y)] and [Math.max(x, y)]: NaN if either is NaN, and of
    the two zeros the negative one is the smaller. *)
Definition fmin (x y : double) : double :=
  match SFcompare x y with
  | Some Lt => x
  | Some Gt => y
  | Some Eq => match x with S754_zero false => y | _ => x end
  | None => S754_nan
  end.

Definition fmax (x y : double) : double :=
  match SFcompare x y with
  | Some Lt => y
  | Some Gt => x
  | Some Eq => match x with S754_zero true => y | _ => x end
  | None => S754_nan
  end.

(** [x <= y]. *)
Definition fleb (x y : double) : bool := SFleb x y.

(** Truthiness of a binary64 value, and [x || y]. *)
Definition double_truthy (x : double) : bool :=
  match x with
  | S754_nan | S754_zero _ => false
  | _ => true
  end.

Definition double_or (x y : double) : double :=
  if double_truthy x then x else y.

(** The number that a binary64 value is, when it is an integer: the form
    in which the component's fields hold it.  An infinity or a fraction
    has no such form and is rendered as NaN; the places that call this
    pass the result of [Math.round], which is a fraction never and an
    infinity only beyond 2^1023. *)
Definition to_num (x : double) : num :=
  match x with
  | S754_zero _ => Int 0
  | S754_finite s m e =>
      let v := if s then Z.neg m else Z.pos m in
      if 0 <=? e then Int (v * 2 ^ e)
      else if v mod 2 ^ (- e) =? 0 then Int (v / 2 ^ (- e))
      else NaN
  | _ => NaN
  end.

(** ** Values *)
#[local] Unset Elimination Schemes.
Inductive JsVal : Type :=
| JUndefined : JsVal
| JNull : JsVal
| JBool (b : bool) : JsVal
| JNum (n : num) : JsVal
| JFrac (m : Z) (k : positive) : JsVal   (* m / 10^k, not an integer *)
| JStr (s : string) : JsVal
| JArr (items : list JsVal) : JsVal
| JObj (fields : list (string * JsVal)) : JsVal.
#[local] Set Elimination Schemes.

(** The outcome of code that may throw. *)
Inductive Res (A : Type) : Type :=
| Ok (a : A) : Res A
| Throw (e : string) : Res A.
Arguments Ok {A} a.
Arguments Throw {A} e.

Definition truthy (v : JsVal) : bool :=
  match v with
  | JUndefined | JNull => false
  | JBool b => b
  | JNum n => num_truthy n
  | JFrac m _ => negb (m =? 0)
  | JStr s => negb (String.eqb s "")
  | JArr _ | JObj _ => true
  end.

(** [a || b]. *)
Definition or_else (a b : JsVal) : JsVal := if truthy a then a else b.

(** [typeof v === "object"]: objects, arrays and null. *)
Definition typeof_object (v : JsVal) : bool :=
  match v with
  | JNull | JArr _ | JObj _ => true
  | _ => false
  end.

Fixpoint lookup (k : string) (fs : list (string * JsVal)) : option JsVal :=
  match fs with
  | [] => None
  | (k', v) :: rest => if String.eqb k k' then Some v else lookup k rest
  end.

(** [o[k] = v]: an existing key keeps its position. *)
Fixpoint obj_set (k : string) (v : JsVal) (fs : list (string * JsVal))
  : list (string * JsVal) :=
  match fs with
  | [] => [(k, v)]
  | (k', v') :: rest =>
      if String.eqb k k' then (k, v) :: rest else (k', v') :: obj_set k v rest
  end.

(** [v.k] for the property names the component reads ([projects],
    [sessions], [ideas], [dailyGoal], [data], [code]): a TypeError on
    [undefined] and [null], the own property of an object, and [undefined]
    on every other value, none of which has a property of these names. *)
Definition get (v : JsVal) (k : string) : Res JsVal :=
  match v with
  | JUndefined | JNull => Throw "TypeError"
  | JObj fs => Ok (match lookup k fs with Some x => x | None => JUndefined end)
  | _ => Ok JUndefined
  end.

(** [v?.k]. *)
Definition get_opt (v : JsVal) (k : string) : JsVal :=
  match get v k with
  | Ok x => x
  | Throw _ => JUndefined
  end.

(** ** parseInt *)

Definition is_digit (c : ascii) : bool :=
  let n := nat_of_ascii c in (48 <=? n)%nat && (n <=? 57)%nat.

(** White space that [parseInt] skips (the 8-bit part of StrWhiteSpaceChar). *)
Definition is_str_ws (c : ascii) : bool :=
  let n := nat_of_ascii c in
  ((9 <=? n)%nat && (n <=? 13)%nat) || (n =? 32)%nat.

Fixpoint trim_start (s : string) : string :=
  match s with
  | String c r => if is_str_ws c then trim_start r else s
  | EmptyString => s
  end.

(** The longest prefix of decimal digits, and what follows it. *)
Fixpoint span_digits (s : string) : string * string :=
  match s with
  | String c r =>
      if is_digit c
      then let (d, t) := span_digits r in (String c d, t)
      else (EmptyString, s)
  | EmptyString => (EmptyString, EmptyString)
  end.

(** The value of a string of decimal digits. *)
Definition digits_value (d : string) : N :=
  match NilZero.uint_of_string d with
  | Some u => N.of_uint u
  | None => 0%N
  end.

Definition hex_digit (c : ascii) : option N :=
  let n := N_of_ascii c in
  if ((48 <=? n) && (n <=? 57))%N then Some (n - 48)%N
  else if ((97 <=? n) && (n <=? 102))%N then Some (n - 87)%N
  else if ((65 <=? n) && (n <=? 70))%N then Some (n - 55)%N
  else None.

(** Horner evaluation of the longest prefix of hexadecimal digits; [None]
    when there is no digit. *)
Fixpoint hex_prefix (acc : option N) (s : string) : option N :=
  match s with
  | String c r =>
      match hex_digit c with
      | Some d =>
          hex_prefix
            (Some (16 * (match acc with Some a => a | None => 0 end) + d)%N) r
      | None => acc
      end
  | EmptyString => acc
  end.

Definition dec_prefix (s : string) : option N :=
  let (d, _) := span_digits s in
  match d with
  | EmptyString => None
  | _ => Some (digits_value d)
  end.

Definition signed (neg : bool) (n : option N) : num :=
  match n with
  | None => NaN
  | Some m => Int (if neg then - Z.of_N m else Z.of_N m)
  end.

Definition strip_sign (s : string) : bool * string :=
  match s with
  | String "-" r => (true, r)
  | String "+" r => (false, r)
  | _ => (false, s)
  end.

(** [parseInt(s, 10)]. *)
Definition parseInt10 (input : string) : num :=
  let (neg, s) := strip_sign (trim_start input) in
  signed neg (dec_prefix s).

Definition strip_0x (s : string) : option string :=
  match s with
  | String "0" (String "x" r) | String "0" (String "X" r) => Some r
  | _ => None
  end.

(** [parseInt(s)]: radix 16 after a [0x] or [0X] prefix, else 10. *)
Definition parseInt (input : string) : num :=
  let (neg, s) := strip_sign (trim_start input) in
  match strip_0x s with
  | Some r => signed neg (hex_prefix None r)
  | None => signed neg (dec_prefix s)
  end.

(** [String(n)] for an integer. *)
Definition Z_to_string (z : Z) : string :=
  match z with
  | Z0 => "0"
  | Zpos p => NilZero.string_of_uint (Pos.to_uint p)
  | Zneg p => String "-" (NilZero.string_of_uint (Pos.to_uint p))
  end.

Definition num_to_string (n : num) : string :=
  match n with
  | NaN => "NaN"
  | Int z => Z_to_string z
  end.

(** [s || t] on strings: the empty string is falsy. *)
Definition str_or (s t : string) : string :=
  if String.eqb s "" then t else s.

(** ** trim and split

    [trim] removes WhiteSpace and LineTerminator characters from both
    ends.  In UTF-8 these are the single bytes 9 to 13 and 32, the pair
    C2 A0 (U+00A0) and the triples E1 9A 80 (U+1680), E2 80 80 to
    E2 80 8A (U+2000 to U+200A), E2 80 A8 and A9 (U+2028, U+2029),
    E2 80 AF (U+202F), E2 81 9F (U+205F), E3 80 80 (U+3000) and EF BB BF
    (U+FEFF). *)

Definition ws3 (a b c : ascii) : bool :=
  let x := nat_of_ascii a in
  let y := nat_of_ascii b in
  let z := nat_of_ascii c in
  ((x =? 225) && (y =? 154) && (z =? 128)
   || (x =? 226) && (y =? 128)
      && (((128 <=? z) && (z <=? 138)) || (z =? 168) || (z =? 169)
          || (z =? 175))
   || (x =? 226) && (y =? 129) && (z =? 159)
   || (x =? 227) && (y =? 128) && (z =? 128)
   || (x =? 239) && (y =? 187) && (z =? 191))%nat.

Definition ws2 (a b : ascii) : bool :=
  ((nat_of_ascii a =? 194) && (nat_of_ascii b =? 160))%nat.

(** What is left of [s] after the white-space character it starts with,
    if it starts with one. *)
Definition strip_ws (s : string) : option string :=
  match s with
  | String a r =>
      if is_str_ws a then Some r
      else
        match r with
        | String b r' =>
            if ws2 a b then Some r'
            else
              match r' with
              | String c r'' => if ws3 a b c then Some r'' else None
              | EmptyString => None
              end
        | EmptyString => None
        end
  | EmptyString => None
  end.

(** The same for a string read backwards. *)
Definition strip_ws_rev (s : string) : option string :=
  match s with
  | String a r =>
      if is_str_ws a then Some r
      else
        match r with
        | String b r' =>
            if ws2 b a then Some r'
            else
              match r' with
              | String c r'' => if ws3 c b a then Some r'' else None
              | EmptyString => None
              end
        | EmptyString => None
        end
  | EmptyString => None
  end.

Fixpoint strip_all (strip : string -> option string) (fuel : nat)
  (s : string) : string :=
  match fuel with
  | O => s
  | S f =>
      match strip s with
      | Some r => strip_all strip f r
      | None => s
      end
  end.

Fixpoint rev_string (s acc : string) : string :=
  match s with
  | EmptyString => acc
  | String c r => rev_string r (String c acc)
  end.

Definition trimStart (s : string) : string :=
  strip_all strip_ws (String.length s) s.

Definition trimEnd (s : string) : string :=
  rev_string
    (strip_all strip_ws_rev (String.length s) (rev_string s EmptyString))
    EmptyString.

(** [s.trim()]. *)
Definition trim (s : string) : string := trimEnd (trimStart s).

(** [s.split(",")]: the empty string gives one empty piece. *)
Fixpoint split_comma (s : string) : list string :=
  match s with
  | EmptyString => [EmptyString]
  | String c r =>
      match split_comma r with
      | p :: ps => if Ascii.eqb c "," then EmptyString :: p :: ps
                   else String c p :: ps
      | [] => [String c EmptyString]
      end
  end.

(** [s.padStart(n, c)] for a one-character filler. *)
Fixpoint filler (c : ascii) (n : nat) : string :=
  match n with
  | O => EmptyString
  | S m => String c (filler c m)
  end.

Definition padStart (n : nat) (c : ascii) (s : string) : string :=
  filler c (n - String.length s) ++ s.

(** [s.includes(t)]. *)
Definition includes (s t : string) : bool :=
  match index 0 t s with
  | Some _ => true
  | None => false
  end.

End Js.

(* ------------------------------------------------------------------ *)
(** * JSON.stringify(v, null, 2) and JSON.parse *)
(* ------------------------------------------------------------------ *)

Module JSON.
Import Js.

Definition nl : string := String (ascii_of_nat 10) EmptyString.
Definition gap : string := "  ".
Definition dquote : ascii := ascii_of_nat 34.
Definition backslash : ascii := ascii_of_nat 92.

(** ** Serialisation *)

Definition hex_char (n : N) : ascii :=
  ascii_of_N (if (n <? 10)%N then 48 + n else 87 + n)%N.

(** One code unit of a quoted string (QuoteJSONString). *)
Definition escape (c : ascii) : string :=
  let n := N_of_ascii c in
  if (n =? 8)%N then "\b"
  else if (n =? 9)%N then "\t"
  else if (n =? 10)%N then "\n"
  else if (n =? 12)%N then "\f"
  else if (n =? 13)%N then "\r"
  else if (n =? 34)%N then String backslash (String dquote EmptyString)
  else if (n =? 92)%N then String backslash (String backslash EmptyString)
  else if (n <? 32)%N then
    String backslash
      (String "u" (String "0" (String "0"
         (String (hex_char (n / 16))
            (String (hex_char (n mod 16)) EmptyString)))))
  else String c EmptyString.

Fixpoint escape_all (s : string) : string :=
  match s with
  | EmptyString => EmptyString
  | String c r => escape c ++ escape_all r
  end.

Definition quote (s : string) : string :=
  String dquote (escape_all s ++ String dquote EmptyString).

Fixpoint repeat_char (c : ascii) (n : nat) : string :=
  match n with
  | O => EmptyString
  | S m => String c (repeat_char c m)
  end.

(** The decimal expansion of [m / 10^k]. *)
Definition frac_to_string (m : Z) (k : positive) : string :=
  let ds := NilZero.string_of_uint (N.to_uint (Z.abs_N m)) in
  let len := String.length ds in
  let kn := Pos.to_nat k in
  let body :=
    if (kn <? len)%nat
    then substring 0 (len - kn) ds ++ "." ++ substring (len - kn) kn ds
    else "0." ++ repeat_char "0" (kn - len) ++ ds in
  if m <? 0 then String "-" body else body.

Definition num_to_json (n : num) : string :=
  match n with
  | NaN => "null"
  | Int z => Z_to_string z
  end.

Fixpoint join (sep : string) (parts : list string) : string :=
  match parts with
  | [] => EmptyString
  | [t] => t
  | t :: rest => t ++ sep ++ join sep rest
  end.

(** An array or object body: [open close] when empty, else one part per
    line at the deeper indentation. *)
Definition bracket (open close : string) (ind : string) (parts : list string)
  : string :=
  match parts with
  | [] => open ++ close
  | _ =>
      open ++ nl ++ (ind ++ gap)
        ++ join ("," ++ nl ++ (ind ++ gap)) parts
        ++ nl ++ ind ++ close
  end.

(** SerializeJSONProperty at indentation [ind]; [None] is [undefined]. *)
Fixpoint ser (ind : string) (v : JsVal) {struct v} : option string :=
  match v with
  | JUndefined => None
  | JNull => Some "null"
  | JBool true => Some "true"
  | JBool false => Some "false"
  | JNum n => Some (num_to_json n)
  | JFrac m k => Some (frac_to_string m k)
  | JStr s => Some (quote s)
  | JArr items =>
      let fix elems (l : list JsVal) : list string :=
        match l with
        | [] => []
        | x :: r =>
            match ser (ind ++ gap) x with
            | Some t => t
            | None => "null"
            end :: elems r
        end in
      Some (bracket "[" "]" ind (elems items))
  | JObj fields =>
      let fix members (l : list (string * JsVal)) : list string :=
        match l with
        | [] => []
        | (k, x) :: r =>
            match ser (ind ++ gap) x with
            | Some t => (quote k ++ ": " ++ t) :: members r
            | None => members r
            end
        end in
      Some (bracket "{" "}" ind (members fields))
  end.

(** [JSON.stringify(v, null, 2)]. *)
Definition stringify (v : JsVal) : option string := ser EmptyString v.

(** SerializeJSONProperty with the empty gap: no line breaks, and no space
    after a colon. *)
Fixpoint ser_compact (v : JsVal) {struct v} : option string :=
  match v with
  | JUndefined => None
  | JNull => Some "null"
  | JBool true => Some "true"
  | JBool false => Some "false"
  | JNum n => Some (num_to_json n)
  | JFrac m k => Some (frac_to_string m k)
  | JStr s => Some (quote s)
  | JArr items =>
      let fix elems (l : list JsVal) : list string :=
        match l with
        | [] => []
        | x :: r =>
            match ser_compact x with
            | Some t => t
            | None => "null"
            end :: elems r
        end in
      Some ("[" ++ join "," (elems items) ++ "]")
  | JObj fields =>
      let fix members (l : list (string * JsVal)) : list string :=
        match l with
        | [] => []
        | (k, x) :: r =>
            match ser_compact x with
            | Some t => (quote k ++ ":" ++ t) :: members r
            | None => members r
            end
        end in
      Some ("{" ++ join "," (members fields) ++ "}")
  end.

(** [JSON.stringify(v)]. *)
Definition stringify_compact (v : JsVal) : option string := ser_compact v.

(** ** Parsing *)

Definition is_json_ws (c : ascii) : bool :=
  let n := nat_of_ascii c in
  (n =? 9)%nat || (n =? 10)%nat || (n =? 13)%nat || (n =? 32)%nat.

Fixpoint skip_ws (s : string) : string :=
  match s with
  | String c r => if is_json_ws c then skip_ws r else s
  | EmptyString => s
  end.

Definition hex4 (a b c d : ascii) : option N :=
  match hex_digit a, hex_digit b, hex_digit c, hex_digit d with
  | Some x, Some y, Some z, Some w => Some (((x * 16 + y) * 16 + z) * 16 + w)%N
  | _, _, _, _ => None
  end.

(** The UTF-8 bytes of a code unit given by a [\uXXXX] escape (the two
    halves of a surrogate pair are encoded one by one). *)
Definition utf8 (n : N) : string :=
  if (n <? 128)%N then String (ascii_of_N n) EmptyString
  else if (n <? 2048)%N then
    String (ascii_of_N (192 + n / 64))
      (String (ascii_of_N (128 + n mod 64)) EmptyString)
  else
    String (ascii_of_N (224 + n / 4096))
      (String (ascii_of_N (128 + (n / 64) mod 64))
         (String (ascii_of_N (128 + n mod 64)) EmptyString)).

Definition prepend (p : string) (r : option (string * string))
  : option (string * string) :=
  match r with
  | Some (s, rest) => Some (p ++ s, rest)
  | None => None
  end.

(** The characters of a string literal after its opening quote. *)
Fixpoint parse_chars (s : string) : option (string * string) :=
  match s with
  | EmptyString => None
  | String c r =>
      if Ascii.eqb c dquote then Some (EmptyString, r)
      else if Ascii.eqb c backslash then
        match r with
        | String e r1 =>
            if Ascii.eqb e dquote
            then prepend (String dquote "") (parse_chars r1)
            else if Ascii.eqb e backslash
            then prepend (String backslash "") (parse_chars r1)
            else if Ascii.eqb e "/" then prepend "/" (parse_chars r1)
            else if Ascii.eqb e "b"
            then prepend (String (ascii_of_nat 8) "") (parse_chars r1)
            else if Ascii.eqb e "f"
            then prepend (String (ascii_of_nat 12) "") (parse_chars r1)
            else if Ascii.eqb e "n"
            then prepend (String (ascii_of_nat 10) "") (parse_chars r1)
            else if Ascii.eqb e "r"
            then prepend (String (ascii_of_nat 13) "") (parse_chars r1)
            else if Ascii.eqb e "t"
            then prepend (String (ascii_of_nat 9) "") (parse_chars r1)
            else if Ascii.eqb e "u" then
              match r1 with
              | String h1 (String h2 (String h3 (String h4 r2))) =>
                  match hex4 h1 h2 h3 h4 with
                  | Some n => prepend (utf8 n) (parse_chars r2)
                  | None => None
                  end
              | _ => None
              end
            else None
        | EmptyString => None
        end
      else if (N_of_ascii c <? 32)%N then None
      else prepend (String c "") (parse_chars r)
  end.

(** [d / 10^k] in lowest decimal terms. *)
Fixpoint normalise (neg : bool) (d : N) (k : nat) : JsVal :=
  match k with
  | O => JNum (Int (if neg then - Z.of_N d else Z.of_N d))
  | S k' =>
      if (d mod 10 =? 0)%N then normalise neg (d / 10)%N k'
      else JFrac (if neg then - Z.of_N d else Z.of_N d) (Pos.of_nat k)
  end.

(** The value of the literal [-? ip . fd e ex]. *)
Definition mk_number (neg : bool) (ip fd : string) (ex : Z) : JsVal :=
  let d := digits_value (ip ++ fd) in
  let sh := ex - Z.of_nat (String.length fd) in
  if 0 <=? sh
  then JNum (Int ((if neg then - Z.of_N d else Z.of_N d) * 10 ^ sh))
  else normalise neg d (Z.to_nat (- sh)).

(** The integer part of a number: [0], or digits not starting with [0]. *)
Definition span_int (s : string) : string * string :=
  match s with
  | String "0" r => ("0", r)
  | _ => span_digits s
  end.

Definition parse_exponent (s : string) : option (Z * string) :=
  match s with
  | String "e" r | String "E" r =>
      let (neg, r1) := strip_sign r in
      let (ed, r2) := span_digits r1 in
      match ed with
      | EmptyString => None
      | _ =>
          let e := Z.of_N (digits_value ed) in
          Some (if neg then - e else e, r2)
      end
  | _ => Some (0, s)
  end.

Definition strip_minus (s : string) : bool * string :=
  match s with
  | String "-" r => (true, r)
  | _ => (false, s)
  end.

(** The digits of a fraction, if there is one. *)
Definition parse_fraction (s : string) : option (string * string) :=
  match s with
  | String "." r =>
      let (fd, s3) := span_digits r in
      match fd with
      | EmptyString => None
      | _ => Some (fd, s3)
      end
  | _ => Some (EmptyString, s)
  end.

Definition parse_number (s : string) : option (JsVal * string) :=
  let (neg, s1) := strip_minus s in
  let (ip, s2) := span_int s1 in
  match ip with
  | EmptyString => None
  | _ =>
      match parse_fraction s2 with
      | Some (fd, s3) =>
          match parse_exponent s3 with
          | Some (ex, s4) => Some (mk_number neg ip fd ex, s4)
          | None => None
          end
      | None => None
      end
  end.

(** [Some r] when [s], after white space, is the bracket [c] followed by
    [r]. *)
Definition closes (c : ascii) (s : string) : option string :=
  match skip_ws s with
  | String c' r => if Ascii.eqb c' c then Some r else None
  | EmptyString => None
  end.

(** A JSON value, by recursive descent; [fuel] bounds the nesting and the
    number of elements. *)
Fixpoint parse_value (fuel : nat) (s : string) {struct fuel}
  : option (JsVal * string) :=
  match fuel with
  | O => None
  | S f =>
      match skip_ws s with
      | String "n" (String "u" (String "l" (String "l" r))) => Some (JNull, r)
      | String "t" (String "r" (String "u" (String "e" r))) =>
          Some (JBool true, r)
      | String "f" (String "a" (String "l" (String "s" (String "e" r)))) =>
          Some (JBool false, r)
      | String "[" r =>
          match closes "]" r with
          | Some r' => Some (JArr [], r')
          | None =>
              match parse_elems f r with
              | Some (vs, r') => Some (JArr vs, r')
              | None => None
              end
          end
      | String "{" r =>
          match closes "}" r with
          | Some r' => Some (JObj [], r')
          | None =>
              match parse_members f r with
              | Some (fs, r') => Some (JObj fs, r')
              | None => None
              end
          end
      | String c r =>
          if Ascii.eqb c dquote then
            match parse_chars r with
            | Some (str, r') => Some (JStr str, r')
            | None => None
            end
          else parse_number (String c r)
      | EmptyString => None
      end
  end

with parse_elems (fuel : nat) (s : string) {struct fuel}
  : option (list JsVal * string) :=
  match fuel with
  | O => None
  | S f =>
      match parse_value f s with
      | Some (v, r) =>
          match skip_ws r with
          | String "," r' =>
              match parse_elems f r' with
              | Some (vs, r'') => Some (v :: vs, r'')
              | None => None
              end
          | String "]" r' => Some ([v], r')
          | _ => None
          end
      | None => None
      end
  end

with parse_members (fuel : nat) (s : string) {struct fuel}
  : option (list (string * JsVal) * string) :=
  match fuel with
  | O => None
  | S f =>
      match skip_ws s with
      | String c r =>
          if Ascii.eqb c dquote then
            match parse_chars r with
            | Some (k, r1) =>
                match skip_ws r1 with
                | String ":" r2 =>
                    match parse_value f r2 with
                    | Some (v, r3) =>
                        match skip_ws r3 with
                        | String "," r4 =>
                            match parse_members f r4 with
                            | Some (fs, r5) => Some ((k, v) :: fs, r5)
                            | None => None
                            end
                        | String "}" r4 => Some ([(k, v)], r4)
                        | _ => None
                        end
                    | None => None
                    end
                | _ => None
                end
            | None => None
            end
          else None
      | EmptyString => None
      end
  end.

(** Objects built from parsed members: a repeated key keeps its first
    position and takes its last value. *)
Fixpoint build (v : JsVal) : JsVal :=
  match v with
  | JArr items => JArr (map build items)
  | JObj fields =>
      JObj (fold_left (fun acc kv => obj_set (fst kv) (build (snd kv)) acc)
                      fields [])
  | _ => v
  end.

(** [JSON.parse(text)]; [None] is a SyntaxError. *)
Definition parse (text : string) : option JsVal :=
  match parse_value (S (String.length text)) text with
  | Some (v, rest) =>
      match skip_ws rest with
      | EmptyString => Some (build v)
      | _ => None
      end
  | None => None
  end.

End JSON.

Import Js.

(* ------------------------------------------------------------------ *)
(** * Data model (the JSDoc typedefs) *)
(* ------------------------------------------------------------------ *)

Inductive Status : Type := Drafting | Editing | Complete.

Definition Status_str (s : Status) : string :=
  match s with
  | Drafting => "Drafting"
  | Editing => "Editing"
  | Complete => "Complete"
  end.

Module Project.
Record t : Type := mk {
  id : string;
  title : string;
  description : option string;
  targetWords : num;
  deadline : option string;
  status : Status;
  createdAt : string;
  archived : option bool
}.
End Project.

Module Session.
Record t : Type := mk {
  id : string;
  projectId : option string;
  date : string;
  minutes : num;
  words : num;
  notes : option string
}.
End Session.

Module Idea.
Record t : Type := mk {
  id : string;
  text : string;
  tags : list string;
  projectId : option string;
  createdAt : string;
  pinned : option bool
}.
End Idea.

(** The four top-level values of the component, well typed. *)
Record State : Type := mkState {
  projects : list Project.t;
  sessions : list Session.t;
  ideas : list Idea.t;
  dailyGoal : num
}.

(** The same four values as JavaScript holds them: whatever was loaded. *)
Record Bundle : Type := mkBundle {
  b_projects : JsVal;
  b_sessions : JsVal;
  b_ideas : JsVal;
  b_dailyGoal : JsVal
}.

(** ** The objects behind the records

    Keys are in the order the component creates them; an optional field
    that is absent (or [undefined]) has no key. *)

Definition opt_field {A} (k : string) (f : A -> JsVal) (o : option A)
  : list (string * JsVal) :=
  match o with
  | Some a => [(k, f a)]
  | None => []
  end.

Definition Project_js (p : Project.t) : JsVal :=
  JObj ([("title", JStr (Project.title p))]
        ++ opt_field "description" JStr (Project.description p)
        ++ [("targetWords", JNum (Project.targetWords p))]
        ++ opt_field "deadline" JStr (Project.deadline p)
        ++ [("id", JStr (Project.id p));
            ("createdAt", JStr (Project.createdAt p));
            ("status", JStr (Status_str (Project.status p)))]
        ++ opt_field "archived" JBool (Project.archived p)).

Definition Session_js (s : Session.t) : JsVal :=
  JObj (opt_field "projectId" JStr (Session.projectId s)
        ++ [("date", JStr (Session.date s));
            ("minutes", JNum (Session.minutes s));
            ("words", JNum (Session.words s))]
        ++ opt_field "notes" JStr (Session.notes s)
        ++ [("id", JStr (Session.id s))]).

Definition Idea_js (i : Idea.t) : JsVal :=
  JObj ([("text", JStr (Idea.text i));
         ("tags", JArr (map JStr (Idea.tags i)))]
        ++ opt_field "projectId" JStr (Idea.projectId i)
        ++ [("id", JStr (Idea.id i));
            ("createdAt", JStr (Idea.createdAt i))]
        ++ opt_field "pinned" JBool (Idea.pinned i)).

Definition State_js (st : State) : Bundle :=
  {| b_projects := JArr (map Project_js (projects st));
     b_sessions := JArr (map Session_js (sessions st));
     b_ideas := JArr (map Idea_js (ideas st));
     b_dailyGoal := JNum (dailyGoal st) |}.

(** [{projects, sessions, ideas, dailyGoal}]. *)
Definition Bundle_obj (b : Bundle) : JsVal :=
  JObj [("projects", b_projects b);
        ("sessions", b_sessions b);
        ("ideas", b_ideas b);
        ("dailyGoal", b_dailyGoal b)].

Definition bind {A B} (r : Res A) (k : A -> Res B) : Res B :=
  match r with
  | Ok a => k a
  | Throw e => Throw e
  end.

Notation "'let*' x ':=' r 'in' k" := (bind r (fun x => k))
  (at level 10, x name, r at level 100, k at level 200).

(** The four reads [d.projects || []], [d.sessions || []],
    [d.ideas || []], [d.dailyGoal || 500], in the order the three loaders
    evaluate them. *)
Definition read_bundle (d : JsVal) : Res Bundle :=
  let* p := get d "projects" in
  let* s := get d "sessions" in
  let* i := get d "ideas" in
  let* g := get d "dailyGoal" in
  Ok {| b_projects := or_else p (JArr []);
        b_sessions := or_else s (JArr []);
        b_ideas := or_else i (JArr []);
        b_dailyGoal := or_else g (JNum (Int 500)) |}.

(* ------------------------------------------------------------------ *)
(** * Persistence *)
(* ------------------------------------------------------------------ *)

(** [loadStore()] (lines 33-36); [slot] is
    [localStorage.getItem(STORE_KEY)], [None] when the key is absent. *)
Definition loadStore (slot : option string) : JsVal :=
  let text := str_or (match slot with Some t => t | None => "" end) "{}" in
  match JSON.parse text with
  | Some d => d
  | None => JObj []
  end.

(** [saveStore(data)] (line 37): the content of the slot afterwards.
    [setItem] stores the text of its argument, [undefined] included. *)
Definition saveStore (data : JsVal) : string :=
  match JSON.stringify_compact data with
  | Some text => text
  | None => "undefined"
  end.

(** The [initial] memo of the component (lines 62-70): it runs during the
    first render, outside any handler. *)
Definition initial (slot : option string) : Res Bundle :=
  read_bundle (loadStore slot).

(* ------------------------------------------------------------------ *)
(** * Helpers *)
(* ------------------------------------------------------------------ *)

(** [clamp(n, min, max)] (line 44). *)
Definition clamp (n lo hi : num) : num := Math_max lo (Math_min hi n).

(** [sum(arr, sel)] (line 45): [arr.reduce((a, b) => a + sel(b), 0)]. *)
Definition sum {A} (arr : list A) (sel : A -> num) : num :=
  fold_left (fun a b => add a (sel b)) arr (Int 0).

(* ------------------------------------------------------------------ *)
(** * Derived statistics *)
(* ------------------------------------------------------------------ *)

(** One bar of the "Last 14 Days" chart: [{date, words}]. *)
Module Bar.
Record t : Type := mk {
  date : string;
  words : num
}.
End Bar.

Section Stats.

(** [dayKey i] is [daysAgo(i).toISOString().slice(0, 10)]; [dayKey 0] is
    also [today]. *)
Variable dayKey : nat -> string.

(** [sessions.filter(x => x.date === d)]. *)
Definition on_day (d : string) (ss : list Session.t) : list Session.t :=
  filter (fun s => String.eqb (Session.date s) d) ss.

(** [todaysWords] (line 139). *)
Definition todaysWords (ss : list Session.t) : num :=
  sum (on_day (dayKey 0) ss) Session.words.

(** The loop [for (let i = 0; i < 365; i++)] of [streak] (line 141), with
    [n] iterations left, at index [i], having counted [s]. *)
Fixpoint streak_loop (ss : list Session.t) (n i : nat) (s : Z) : Z :=
  match n with
  | O => s
  | S n' =>
      let w := sum (on_day (dayKey i) ss) Session.words in
      if gtb w (Int 0) then streak_loop ss n' (S i) (s + 1) else s
  end.

Definition streak (ss : list Session.t) : Z := streak_loop ss 365 0 0.

(** [dayLabel i] is [fmtDate(daysAgo(i))], the day as the user's locale
    writes it. *)
Variable dayLabel : nat -> string.

(** The loop [for (let i = 13; i >= 0; i--)] of [wordsLast14] (line 146),
    with [n] iterations left, having pushed [arr]. *)
Fixpoint wordsLast14_loop (ss : list Session.t) (n : nat) (arr : list Bar.t)
  : list Bar.t :=
  match n with
  | O => arr
  | S i =>
      let w := sum (on_day (dayKey i) ss) Session.words in
      wordsLast14_loop ss i
        (arr ++ [{| Bar.date := dayLabel i; Bar.words := w |}])%list
  end.

Definition wordsLast14 (ss : list Session.t) : list Bar.t :=
  wordsLast14_loop ss 14 [].

End Stats.

(** [totalWords] (line 150). *)
Definition totalWords (ss : list Session.t) : num := sum ss Session.words.

(** [wph] (lines 151-153):
    [Math.round((totalWords / (sum(sessions, s => s.minutes) || 1)) * 60)]. *)
Definition wph (ss : list Session.t) : double :=
  let mins := num_or (sum ss Session.minutes) (Int 1) in
  Math_round (fmul (fdiv (of_num (totalWords ss)) (of_num mins)) (of_int 60)).

(** What the "Avg Words / Hour" card shows (line 265):
    [isFinite(wph) ? wph : 0]. *)
Definition wph_shown (ss : list Session.t) : double :=
  if isFinite (wph ss) then wph ss else of_int 0.

(** The percentage beside the daily goal, on the badge and on the
    progress bar (lines 260 and 262):
    [Math.min(100, Math.round((todaysWords / dailyGoal) * 100)) || 0]. *)
Definition goal_percent (todaysWords dailyGoal : num) : double :=
  double_or
    (fmin (of_int 100)
       (Math_round
          (fmul (fdiv (of_num todaysWords) (of_num dailyGoal))
                (of_int 100))))
    (of_int 0).

(** [pct] of a project card (line 498), for the [totalWords] it is
    given. *)
Definition ProjectCard_pct (p : Project.t) (totalWords : num) : double :=
  if num_truthy (Project.targetWords p)
  then fmin (of_int 100)
         (Math_round
            (fmul (fdiv (of_num totalWords)
                        (of_num (Project.targetWords p)))
                  (of_int 100)))
  else of_int 0.

(** The filter of a project card's sessions (line 375):
    [s => s.projectId === p.id]. *)
Definition of_project (p : Project.t) (s : Session.t) : bool :=
  match Session.projectId s with
  | Some pid => String.eqb pid (Project.id p)
  | None => false
  end.

(** [totalWords] of a project card (line 375):
    [sum(sessions.filter(s => s.projectId === p.id), s => s.words)]. *)
Definition card_totalWords (ss : list Session.t) (p : Project.t) : num :=
  sum (filter (of_project p) ss) Session.words.

(* ------------------------------------------------------------------ *)
(** * State store: the CRUD actions *)
(* ------------------------------------------------------------------ *)

(** The store with the notifications emitted so far ([toast(...)]). *)
Record World : Type := mkWorld {
  state : State;
  toasts : list string
}.

Definition toast (msg : string) (w : World) : World :=
  {| state := state w; toasts := (toasts w ++ [msg])%list |}.

Definition setProjects (f : list Project.t -> list Project.t) (w : World)
  : World :=
  {| state := {| projects := f (projects (state w));
                 sessions := sessions (state w);
                 ideas := ideas (state w);
                 dailyGoal := dailyGoal (state w) |};
     toasts := toasts w |}.

Definition setSessions (f : list Session.t -> list Session.t) (w : World)
  : World :=
  {| state := {| projects := projects (state w);
                 sessions := f (sessions (state w));
                 ideas := ideas (state w);
                 dailyGoal := dailyGoal (state w) |};
     toasts := toasts w |}.

Definition setIdeas (f : list Idea.t -> list Idea.t) (w : World) : World :=
  {| state := {| projects := projects (state w);
                 sessions := sessions (state w);
                 ideas := f (ideas (state w));
                 dailyGoal := dailyGoal (state w) |};
     toasts := toasts w |}.

Definition setDailyGoal (g : num) (w : World) : World :=
  {| state := {| projects := projects (state w);
                 sessions := sessions (state w);
                 ideas := ideas (state w);
                 dailyGoal := g |};
     toasts := toasts w |}.

(** The object [{...p, id: uid(), createdAt: now, status: "Drafting"}]: the
    three trailing keys replace whatever [p] carries under them. *)
Definition created (uid now : string) (p : Project.t) : Project.t :=
  {| Project.id := uid;
     Project.title := Project.title p;
     Project.description := Project.description p;
     Project.targetWords := Project.targetWords p;
     Project.deadline := Project.deadline p;
     Project.status := Drafting;
     Project.createdAt := now;
     Project.archived := Project.archived p |}.

(** [addProject(p)] (lines 158-161).  [uid] is the value of [uid()] and
    [now] that of [new Date().toISOString()]. *)
Definition addProject (uid now : string) (p : Project.t) (w : World) : World :=
  toast "Project created"
    (setProjects (fun prev => (prev ++ [created uid now p])%list) w).

(** A patch: the fields to overwrite. *)
Record ProjectPatch : Type := mkProjectPatch {
  patch_title : option string;
  patch_description : option string;
  patch_targetWords : option num;
  patch_deadline : option string;
  patch_status : option Status;
  patch_archived : option bool
}.

Definition over {A} (patch : option A) (old : A) : A :=
  match patch with
  | Some x => x
  | None => old
  end.

Definition over_opt {A} (patch : option A) (old : option A) : option A :=
  match patch with
  | Some x => Some x
  | None => old
  end.

(** [{...p, ...patch}]. *)
Definition apply_patch (patch : ProjectPatch) (p : Project.t) : Project.t :=
  {| Project.id := Project.id p;
     Project.title := over (patch_title patch) (Project.title p);
     Project.description :=
       over_opt (patch_description patch) (Project.description p);
     Project.targetWords :=
       over (patch_targetWords patch) (Project.targetWords p);
     Project.deadline := over_opt (patch_deadline patch) (Project.deadline p);
     Project.status := over (patch_status patch) (Project.status p);
     Project.createdAt := Project.createdAt p;
     Project.archived :=
       over_opt (patch_archived patch) (Project.archived p) |}.

(** [updateProject(id, patch)] (line 162). *)
Definition updateProject (id : string) (patch : ProjectPatch) (w : World)
  : World :=
  setProjects
    (map (fun p => if String.eqb (Project.id p) id
                   then apply_patch patch p else p))
    w.

(** [removeProject(id)] (line 163). *)
Definition removeProject (id : string) (w : World) : World :=
  toast "Project deleted"
    (setProjects (filter (fun p => negb (String.eqb (Project.id p) id))) w).

(** [updateProject(p.id, { archived: true })], the "Archive" button
    (line 519). *)
Definition archive (id : string) (w : World) : World :=
  updateProject id
    {| patch_title := None; patch_description := None;
       patch_targetWords := None; patch_deadline := None;
       patch_status := None; patch_archived := Some true |}
    w.

(** The object [{...s, id: uid()}]. *)
Definition with_id (uid : string) (s : Session.t) : Session.t :=
  {| Session.id := uid;
     Session.projectId := Session.projectId s;
     Session.date := Session.date s;
     Session.minutes := Session.minutes s;
     Session.words := Session.words s;
     Session.notes := Session.notes s |}.

(** [logSession(s)] (line 165). *)
Definition logSession (uid : string) (s : Session.t) (w : World) : World :=
  toast "Session logged"
    (setSessions (fun prev => (prev ++ [with_id uid s])%list) w).

(** [deleteSession(id)] (line 166). *)
Definition deleteSession (id : string) (w : World) : World :=
  setSessions (filter (fun s => negb (String.eqb (Session.id s) id))) w.

(** [addIdea(i)] (line 168): the new idea goes first. *)
Definition addIdea (uid now : string) (i : Idea.t) (w : World) : World :=
  setIdeas
    (fun prev =>
       {| Idea.id := uid;
          Idea.text := Idea.text i;
          Idea.tags := Idea.tags i;
          Idea.projectId := Idea.projectId i;
          Idea.createdAt := now;
          Idea.pinned := Idea.pinned i |} :: prev)
    w.

(** [updateIdea(id, { pinned })] (line 169), the only patch the component
    sends. *)
Definition updateIdea (id : string) (pinned : bool) (w : World) : World :=
  setIdeas
    (map (fun i => if String.eqb (Idea.id i) id
                   then {| Idea.id := Idea.id i;
                           Idea.text := Idea.text i;
                           Idea.tags := Idea.tags i;
                           Idea.projectId := Idea.projectId i;
                           Idea.createdAt := Idea.createdAt i;
                           Idea.pinned := Some pinned |}
                   else i))
    w.

(** [deleteIdea(id)] (line 170). *)
Definition deleteIdea (id : string) (w : World) : World :=
  setIdeas (filter (fun i => negb (String.eqb (Idea.id i) id))) w.

(** The "Project" cell of a row (line 423):
    [projects.find(p => p.id === s.projectId)?.title], [None] where the
    cell shows the dash. *)
Definition session_project (ps : list Project.t) (s : Session.t)
  : option string :=
  match Session.projectId s with
  | Some pid =>
      match find (fun p => String.eqb (Project.id p) pid) ps with
      | Some p =>
          if String.eqb (Project.title p) "" then None
          else Some (Project.title p)
      | None => None
      end
  | None => None
  end.

(** [!p.archived]. *)
Definition not_archived (p : Project.t) : bool :=
  negb (match Project.archived p with Some b => b | None => false end).

(** [projects.filter(p => !p.archived)] (lines 290, 371): the projects
    that the cards and the selectors show. *)
Definition active (ps : list Project.t) : list Project.t :=
  filter not_archived ps.

(** ** The actions as data

    Each call of a CRUD action, with what its [uid()] and its clock
    returned. *)
Inductive Action : Type :=
| AddProject (uid now : string) (p : Project.t)
| UpdateProject (id : string) (patch : ProjectPatch)
| RemoveProject (id : string)
| LogSession (uid : string) (s : Session.t)
| DeleteSession (id : string)
| AddIdea (uid now : string) (i : Idea.t)
| UpdateIdea (id : string) (pinned : bool)
| DeleteIdea (id : string).

Definition act (a : Action) (w : World) : World :=
  match a with
  | AddProject uid now p => addProject uid now p w
  | UpdateProject id patch => updateProject id patch w
  | RemoveProject id => removeProject id w
  | LogSession uid s => logSession uid s w
  | DeleteSession id => deleteSession id w
  | AddIdea uid now i => addIdea uid now i w
  | UpdateIdea id pinned => updateIdea id pinned w
  | DeleteIdea id => deleteIdea id w
  end.

(* ------------------------------------------------------------------ *)
(** * Ideas *)
(* ------------------------------------------------------------------ *)

Module IdeaCapture.

Record t : Type := mk {
  text : string;
  tags : string;
  projectId : string
}.

(** [tags.split(",").map(s => s.trim()).filter(Boolean)] (line 679). *)
Definition tagList (tags : string) : list string :=
  filter (fun t => negb (String.eqb t "")) (map trim (split_comma tags)).

(** The object [add] hands to [onAdd]: [{ text: t, tags: tagList,
    projectId: projectId || undefined }]; [id] and [createdAt] are set by
    [addIdea]. *)
Definition payload (t : string) (f : IdeaCapture.t) : Idea.t :=
  {| Idea.id := "";
     Idea.text := t;
     Idea.tags := tagList (tags f);
     Idea.projectId :=
       if String.eqb (projectId f) "" then None else Some (projectId f);
     Idea.createdAt := "";
     Idea.pinned := None |}.

(** [add()] (lines 677-682), with [onAdd] bound to [addIdea]. *)
Definition add (uid now : string) (f : t) (w : World) : t * World :=
  let t := trim (text f) in
  if String.eqb t "" then (f, w)
  else ({| text := ""; tags := ""; projectId := "" |},
        addIdea uid now (payload t f) w).

End IdeaCapture.

Module IdeaList.

(** [Array.from(new Set(l))]: the first occurrence of each value, in
    order; [seen] holds the values met so far. *)
Fixpoint distinct (seen l : list string) : list string :=
  match l with
  | [] => []
  | x :: r =>
      if existsb (String.eqb x) seen then distinct seen r
      else x :: distinct (x :: seen) r
  end.

(** The tags offered by the filter (line 701). *)
Definition tags (ideas : list Idea.t) : list string :=
  distinct [] (flat_map Idea.tags ideas).

Section Filter.

(** [String.prototype.toLowerCase], which follows the Unicode tables. *)
Variable toLowerCase : string -> string.

(** [filtered] (lines 702-705). *)
Definition filtered (query tagFilter : string) (ideas : list Idea.t)
  : list Idea.t :=
  filter
    (fun i =>
       (String.eqb query ""
        || includes (toLowerCase (Idea.text i)) (toLowerCase query))
       && (String.eqb tagFilter ""
           || existsb (String.eqb tagFilter) (Idea.tags i)))
    ideas.

End Filter.

(** [i.pinned] as a condition. *)
Definition is_pinned (i : Idea.t) : bool :=
  match Idea.pinned i with
  | Some b => b
  | None => false
  end.

(** The pin button of a row (line 728):
    [onUpdate(i.id, { pinned: !i.pinned })]. *)
Definition togglePin (i : Idea.t) (w : World) : World :=
  updateIdea (Idea.id i) (negb (is_pinned i)) w.

End IdeaList.

(* ------------------------------------------------------------------ *)
(** * Export and import *)
(* ------------------------------------------------------------------ *)

(** The content of the blob that [exportJSON] (lines 173-178) offers for
    download. *)
Definition exportJSON (b : Bundle) : string :=
  match JSON.stringify (Bundle_obj b) with
  | Some text => text
  | None => "undefined"
  end.

(** [reader.onload] of [importJSON] (lines 179-189), on the text of the
    file: the new four values and the notification.  A throw anywhere in
    the [try] block leaves the values as they were. *)
Definition importJSON (text : string) (b : Bundle) : Bundle * string :=
  match JSON.parse text with
  | Some d =>
      match read_bundle d with
      | Ok b' => (b', "Data imported")
      | Throw _ => (b, "Invalid file")
      end
  | None => (b, "Invalid file")
  end.

(* ------------------------------------------------------------------ *)
(** * Input boundaries *)
(* ------------------------------------------------------------------ *)

(** [onBlur] of the daily-goal input (lines 253-257): the new [dailyGoal]
    and the new [dailyGoalText]. *)
Definition dailyGoal_onBlur (dailyGoalText : string) : num * string :=
  let val := parseInt10 dailyGoalText in
  (if isNaN val then Int 0 else clamp val (Int 0) (Int 100000),
   if isNaN val then ""
   else num_to_string (clamp val (Int 0) (Int 100000))).

(** [parseInt(e.target.value || "0")]: [onChange] of the minutes, words and
    target-words inputs (lines 481, 555, 636, 642). *)
Definition number_onChange (value : string) : num :=
  parseInt (str_or value "0").

(** "Save" of [InlineEdit] on a project card: the value typed, parsed by
    [onChange], goes to [updateProject(p.id, {targetWords: val})]. *)
Definition InlineEdit_save (id value : string) (w : World) : World :=
  updateProject id
    {| patch_title := None; patch_description := None;
       patch_targetWords := Some (number_onChange value);
       patch_deadline := None; patch_status := None;
       patch_archived := None |}
    w.

(** The same [onBlur] on the store. *)
Definition dailyGoal_blur (dailyGoalText : string) (w : World) : World :=
  setDailyGoal (fst (dailyGoal_onBlur dailyGoalText)) w.

Module NewProjectDialog.

Record t : Type := mk {
  open : bool;
  title : string;
  description : string;
  targetWords : num;
  deadline : string
}.

Definition setTargetWords (value : string) (d : t) : t :=
  {| open := open d; title := title d; description := description d;
     targetWords := number_onChange value; deadline := deadline d |}.

(** The object [create] hands to [onCreate]:
    [{ title, description, targetWords, deadline }].  The record has to
    say something for [id], [status] and [createdAt]; [addProject] sets
    all three. *)
Definition payload (d : t) : Project.t :=
  {| Project.id := "";
     Project.title := title d;
     Project.description := Some (description d);
     Project.targetWords := targetWords d;
     Project.deadline := Some (deadline d);
     Project.status := Drafting;
     Project.createdAt := "";
     Project.archived := None |}.

(** [create()] (lines 459-463), with [onCreate] bound to [addProject]:
    [!title.trim()] holds when the title is nothing but white space. *)
Definition create (uid now : string) (d : t) (w : World) : t * World :=
  if String.eqb (trim_start (title d)) ""
  then (d, toast "Title is required" w)
  else
    ({| open := false; title := ""; description := "";
        targetWords := Int 5000; deadline := "" |},
     addProject uid now (payload d) w).

End NewProjectDialog.

Module EditProjectDialog.

Record t : Type := mk {
  open : bool;
  title : string;
  description : string;
  deadline : string
}.

(** The fields for a project [p] (lines 569-572): the initial values, set
    again by the effect whenever [p] changes. *)
Definition fields (p : Project.t) (open : bool) : t :=
  {| open := open;
     title := Project.title p;
     description :=
       str_or (match Project.description p with Some d => d | None => "" end)
              "";
     deadline :=
       str_or (match Project.deadline p with Some d => d | None => "" end)
              "" |}.

(** [{ title, description, deadline }]. *)
Definition patch (d : t) : ProjectPatch :=
  {| patch_title := Some (title d);
     patch_description := Some (description d);
     patch_targetWords := None;
     patch_deadline := Some (deadline d);
     patch_status := None;
     patch_archived := None |}.

(** [save()] (line 574), with [onUpdate] bound to
    [updateProject(p.id, patch)] as the project card does. *)
Definition save (id : string) (d : t) (w : World) : t * World :=
  ({| open := false; title := title d; description := description d;
      deadline := deadline d |},
   updateProject id (patch d) w).

(** The "Delete" button (line 592): [onDelete(); setOpen(false)]. *)
Definition delete (id : string) (d : t) (w : World) : t * World :=
  ({| open := false; title := title d; description := description d;
      deadline := deadline d |},
   removeProject id w).

End EditProjectDialog.

Module LogSessionDialog.

Record t : Type := mk {
  open : bool;
  projectId : string;
  date : string;
  minutes : num;
  words : num;
  notes : string
}.

Record Props : Type := mkProps {
  defaultProjectId : string;
  defaultMinutes : num;
  onCloseExternal : bool        (* is the callback given? *)
}.

Definition setMinutes (value : string) (d : t) : t :=
  {| open := open d; projectId := projectId d; date := date d;
     minutes := number_onChange value; words := words d;
     notes := notes d |}.

Definition setWords (value : string) (d : t) : t :=
  {| open := open d; projectId := projectId d; date := date d;
     minutes := minutes d; words := number_onChange value;
     notes := notes d |}.

(** The object [save] hands to [onSave]; [id] is not part of it and is
    set by [logSession]. *)
Definition payload (d : t) : Session.t :=
  {| Session.id := "";
     Session.projectId :=
       if String.eqb (projectId d) "" then None else Some (projectId d);
     Session.date := date d;
     Session.minutes := minutes d;
     Session.words := words d;
     Session.notes := Some (notes d) |}.

(** [save()] (lines 614-619), with [onSave] bound to [logSession]: the
    dialog, the store and whether [onCloseExternal] was called.  [uid] is
    what [uid()] would return and [today] is
    [new Date().toISOString().slice(0, 10)]. *)
Definition save (props : Props) (uid today : string) (d : t) (w : World)
  : t * World * bool :=
  if leb (minutes d) (Int 0) && leb (words d) (Int 0)
  then (d, toast "Add minutes or words" w, false)
  else
    ({| open := false;
        projectId := defaultProjectId props;
        date := today;
        minutes := defaultMinutes props;
        words := Int 0;
        notes := "" |},
     logSession uid (payload d) w,
     onCloseExternal props).

(** The first render: every [useState] takes its initial value (lines
    604-609).  [today] is [new Date().toISOString().slice(0, 10)] at that
    moment. *)
Definition mount (props : Props) (today : string) : t :=
  {| open := false;
     projectId := defaultProjectId props;
     date := today;
     minutes := defaultMinutes props;
     words := Int 0;
     notes := "" |}.

Definition setProjectId (id : string) (d : t) : t :=
  {| open := open d; projectId := id; date := date d;
     minutes := minutes d; words := words d; notes := notes d |}.

Definition setOpen (v : bool) (d : t) : t :=
  {| open := v; projectId := projectId d; date := date d;
     minutes := minutes d; words := words d; notes := notes d |}.

(** The two effects (lines 611-612) after a later render, in which the
    props went from [old] to [new] and [openExternally] from [ext] to
    [ext']: each runs only if its dependency changed. *)
Definition rerender (old new : Props) (ext ext' : bool) (d : t) : t :=
  let d1 :=
    if String.eqb (defaultProjectId old) (defaultProjectId new) then d
    else setProjectId (defaultProjectId new) d in
  if negb (Bool.eqb ext ext') && ext' then setOpen true d1 else d1.

End LogSessionDialog.

(** ** ProjectSelect

    The selector inside the log dialog and the idea box (lines 659-662)
    reads the projects from the local slot, not from the component:
    [loadStore().projects?.filter(p => !p.archived) || []].  No value that
    [JSON.parse] returns has a property [archived], [id] or [title] unless
    it is an object that holds the key, and none but an array has a method
    [filter]. *)

(** [items.filter(p => !p.archived)] on loaded values. *)
Fixpoint filter_not_archived (items : list JsVal) : Res (list JsVal) :=
  match items with
  | [] => Ok []
  | p :: rest =>
      let* a := get p "archived" in
      let* kept := filter_not_archived rest in
      Ok (if truthy a then kept else p :: kept)
  end.

(** The [value] and the label of each [SelectItem]: [p.id] and
    [p.title]. *)
Fixpoint select_items (ps : list JsVal) : Res (list (JsVal * JsVal)) :=
  match ps with
  | [] => Ok []
  | p :: rest =>
      let* id := get p "id" in
      let* title := get p "title" in
      let* items := select_items rest in
      Ok ((id, title) :: items)
  end.

Definition ProjectSelect (slot : option string)
  : Res (list (JsVal * JsVal)) :=
  let data := loadStore slot in
  let* ps := get data "projects" in
  match ps with
  | JUndefined | JNull => Ok []                (* [?.] gives up; [|| []] *)
  | JArr items =>
      let* projects := filter_not_archived items in
      select_items projects
  | _ => Throw "TypeError"                     (* [filter] is not a function *)
  end.

(* ------------------------------------------------------------------ *)
(** * Timer *)
(* ------------------------------------------------------------------ *)

Module Timer.

Record t : Type := mk {
  timerRunning : bool;
  timerSeconds : Z;
  customMins : Z;
  startSeconds : Z;            (* startSecondsRef.current *)
  autoOpenLog : bool;
  customMinsText : string
}.

Definition init : t :=
  {| timerRunning := false; timerSeconds := 25 * 60; customMins := 25;
     startSeconds := 25 * 60; autoOpenLog := false;
     customMinsText := "25" |}.

(** [resetTimer(mins)] (line 216). *)
Definition resetTimer (mins : Z) (tm : t) : t :=
  {| timerRunning := false;
     timerSeconds := mins * 60;
     customMins := customMins tm;
     startSeconds := mins * 60;
     autoOpenLog := autoOpenLog tm;
     customMinsText := customMinsText tm |}.

(** The interval callback [setTimerSeconds(s => s - 1)] (line 207),
    installed while the timer runs. *)
Definition tick (tm : t) : t :=
  if timerRunning tm
  then {| timerRunning := true;
          timerSeconds := timerSeconds tm - 1;
          customMins := customMins tm;
          startSeconds := startSeconds tm;
          autoOpenLog := autoOpenLog tm;
          customMinsText := customMinsText tm |}
  else tm.

(** The effect on [timerSeconds] (lines 212-214): expiry.  Its
    notification is left out. *)
Definition expire (tm : t) : t :=
  if timerSeconds tm <=? 0
  then {| timerRunning := false;
          timerSeconds := 0;
          customMins := customMins tm;
          startSeconds := startSeconds tm;
          autoOpenLog := true;
          customMinsText := customMinsText tm |}
  else tm.

Definition start (tm : t) : t :=
  {| timerRunning := true; timerSeconds := timerSeconds tm;
     customMins := customMins tm; startSeconds := startSeconds tm;
     autoOpenLog := autoOpenLog tm; customMinsText := customMinsText tm |}.

Definition pause (tm : t) : t :=
  {| timerRunning := false; timerSeconds := timerSeconds tm;
     customMins := customMins tm; startSeconds := startSeconds tm;
     autoOpenLog := autoOpenLog tm; customMinsText := customMinsText tm |}.

Definition setAutoOpenLog (v : bool) (tm : t) : t :=
  {| timerRunning := timerRunning tm; timerSeconds := timerSeconds tm;
     customMins := customMins tm; startSeconds := startSeconds tm;
     autoOpenLog := v; customMinsText := customMinsText tm |}.

(** The value [safe] of the "Set" button (lines 312-313):
    [isNaN(n) ? customMins : Math.max(1, n)]. *)
Definition safe_minutes (tm : t) : Z :=
  match parseInt10 (customMinsText tm) with
  | NaN => customMins tm
  | Int n => Z.max 1 n
  end.

(** The buttons that reset: each handler followed by the effects its
    state changes trigger. *)
Inductive ResetAction : Type :=
| Reset            (* resetTimer(25) *)
| Preset50         (* resetTimer(50) *)
| Preset15         (* resetTimer(15) *)
| SetCustom.       (* setCustomMins(safe); resetTimer(safe) *)

Definition reset_minutes (a : ResetAction) (tm : t) : Z :=
  match a with
  | Reset => 25
  | Preset50 => 50
  | Preset15 => 15
  | SetCustom => safe_minutes tm
  end.

Definition click (a : ResetAction) (tm : t) : t :=
  let mins := reset_minutes a tm in
  let tm1 :=
    match a with
    | SetCustom =>
        {| timerRunning := timerRunning tm; timerSeconds := timerSeconds tm;
           customMins := mins; startSeconds := startSeconds tm;
           autoOpenLog := autoOpenLog tm;
           customMinsText :=            (* the effect on [customMins] *)
             if mins =? customMins tm then customMinsText tm
             else Z_to_string mins |}
    | _ => tm
    end in
  expire (resetTimer mins tm1).

(** The prop [openExternally] of the timer's log dialog (line 333). *)
Definition openExternally (tm : t) : bool :=
  autoOpenLog tm && (timerSeconds tm =? 0).

(** One second with the interval installed, that is while the timer runs:
    the callback, then the effect on [timerSeconds]. *)
Definition second (tm : t) : t :=
  if timerRunning tm then expire (tick tm) else tm.

Definition setCustomMinsText (text : string) (tm : t) : t :=
  {| timerRunning := timerRunning tm; timerSeconds := timerSeconds tm;
     customMins := customMins tm; startSeconds := startSeconds tm;
     autoOpenLog := autoOpenLog tm; customMinsText := text |}.

(** What can happen to the timer. *)
Inductive Event : Type :=
| Start                          (* the "Start" button *)
| Pause                          (* the "Pause" button *)
| Second                         (* the interval fires *)
| Click (a : ResetAction)        (* "Reset", "50", "15", "Set" *)
| Check (v : bool)               (* the checkbox: setAutoOpenLog(Boolean(v)) *)
| TypeMins (text : string)       (* the custom-minutes input *)
| CloseLog.                      (* onCloseExternal of the log dialog *)

Definition step (e : Event) (tm : t) : t :=
  match e with
  | Start => start tm
  | Pause => pause tm
  | Second => second tm
  | Click a => click a tm
  | Check v => setAutoOpenLog v tm
  | TypeMins text => setCustomMinsText text tm
  | CloseLog => setAutoOpenLog false tm
  end.

Definition run (es : list Event) (tm : t) : t :=
  fold_left (fun acc e => step e acc) es tm.

(** The prop [defaultMinutes] of the timer's log dialog (line 331):
    [Math.max(1, Math.round((startSecondsRef.current - timerSeconds) / 60))]. *)
Definition elapsedMinutes (tm : t) : double :=
  fmax (of_int 1)
    (Math_round (fdiv (of_int (startSeconds tm - timerSeconds tm))
                      (of_int 60))).

Definition defaultMinutes (tm : t) : num := to_num (elapsedMinutes tm).

(** The two halves of the display (lines 218-219):
    [Math.floor(timerSeconds / 60).toString().padStart(2, "0")] and
    [Math.floor(timerSeconds % 60).toString().padStart(2, "0")].  On
    integers [%] is the remainder that takes the sign of the dividend,
    and it is exact. *)
Definition minutes (tm : t) : string :=
  padStart 2 "0"
    (num_to_string
       (to_num (Math_floor (fdiv (of_int (timerSeconds tm)) (of_int 60))))).

Definition seconds (tm : t) : string :=
  padStart 2 "0"
    (num_to_string
       (to_num (Math_floor (of_int (Z.rem (timerSeconds tm) 60))))).

End Timer.

(** ** The timer card with its log dialog (lines 328-335) *)

Module FocusCard.

Record t : Type := mk {
  timer : Timer.t;
  selectedProjectId : string;
  log : LogSessionDialog.t
}.

(** The props the card hands to its dialog at each render. *)
Definition props (tm : Timer.t) (selected : string)
  : LogSessionDialog.Props :=
  {| LogSessionDialog.defaultProjectId := selected;
     LogSessionDialog.defaultMinutes := Timer.defaultMinutes tm;
     LogSessionDialog.onCloseExternal := true |}.

(** The first render of the dashboard. *)
Definition mount (today : string) : t :=
  {| timer := Timer.init;
     selectedProjectId := "";
     log := LogSessionDialog.mount (props Timer.init "") today |}.

(** The render that follows a change of the timer or of the selected
    project, with the effects of the dialog. *)
Definition render (c : t) (tm : Timer.t) (selected : string)
  (d : LogSessionDialog.t) : t :=
  {| timer := tm;
     selectedProjectId := selected;
     log := LogSessionDialog.rerender
              (props (timer c) (selectedProjectId c)) (props tm selected)
              (Timer.openExternally (timer c)) (Timer.openExternally tm)
              d |}.

Inductive Event : Type :=
| OnTimer (e : Timer.Event)
| SelectProject (id : string)      (* the selector beside the timer *)
| EditMinutes (value : string)     (* the inputs of the dialog *)
| EditWords (value : string)
| EditNotes (value : string)
| EditDate (value : string)
| ChooseProject (id : string)
| OpenChange (v : bool)            (* the dialog opened or dismissed *)
| Save (uid today : string).

Definition step (e : Event) (cw : t * World) : t * World :=
  let (c, w) := cw in
  let d := log c in
  match e with
  | OnTimer e =>
      (render c (Timer.step e (timer c)) (selectedProjectId c) d, w)
  | SelectProject id => (render c (timer c) id d, w)
  | EditMinutes value =>
      (render c (timer c) (selectedProjectId c)
         (LogSessionDialog.setMinutes value d), w)
  | EditWords value =>
      (render c (timer c) (selectedProjectId c)
         (LogSessionDialog.setWords value d), w)
  | EditNotes value =>
      (render c (timer c) (selectedProjectId c)
         {| LogSessionDialog.open := LogSessionDialog.open d;
            LogSessionDialog.projectId := LogSessionDialog.projectId d;
            LogSessionDialog.date := LogSessionDialog.date d;
            LogSessionDialog.minutes := LogSessionDialog.minutes d;
            LogSessionDialog.words := LogSessionDialog.words d;
            LogSessionDialog.notes := value |}, w)
  | EditDate value =>
      (render c (timer c) (selectedProjectId c)
         {| LogSessionDialog.open := LogSessionDialog.open d;
            LogSessionDialog.projectId := LogSessionDialog.projectId d;
            LogSessionDialog.date := value;
            LogSessionDialog.minutes := LogSessionDialog.minutes d;
            LogSessionDialog.words := LogSessionDialog.words d;
            LogSessionDialog.notes := LogSessionDialog.notes d |}, w)
  | ChooseProject id =>
      (render c (timer c) (selectedProjectId c)
         (LogSessionDialog.setProjectId id d), w)
  | OpenChange v =>
      (* [setOpen(v); if (!v && onCloseExternal) onCloseExternal()] *)
      (render c
         (if v then timer c else Timer.step Timer.CloseLog (timer c))
         (selectedProjectId c) (LogSessionDialog.setOpen v d), w)
  | Save uid today =>
      let '(d', w', closed) :=
        LogSessionDialog.save (props (timer c) (selectedProjectId c))
          uid today d w in
      (render c
         (if closed then Timer.step Timer.CloseLog (timer c) else timer c)
         (selectedProjectId c) d', w')
  end.

Definition run (es : list Event) (cw : t * World) : t * World :=
  fold_left (fun acc e => step e acc) es cw.

End FocusCard.

(* ------------------------------------------------------------------ *)
(** * Cloud load on sign-in *)
(* ------------------------------------------------------------------ *)

Module Cloud.

(** What [.single()] resolves to: [data] is the row [{data: ...}] or
    [null]; [error] is absent or carries a code. *)
Record Response : Type := mkResponse {
  data : JsVal;
  error : option string
}.

Inductive RemoteOp : Type :=
| Select (user_id : string)
| Upsert (user_id : string) (payload : JsVal) (updated_at : string).

Record Outcome : Type := mkOutcome {
  local : Bundle;
  remote : list RemoteOp;
  console : list string
}.

Definition empty_bundle : Bundle :=
  {| b_projects := JArr []; b_sessions := JArr []; b_ideas := JArr [];
     b_dailyGoal := JNum (Int 500) |}.

(** The load effect (lines 79-110), run when [userId] changes.  [respond]
    is what the one [select] resolves to and [now] the time of the upsert.
    The effect is taken as one step: what the user does while the request
    is in flight is not modelled. *)
Definition load (userId : option string) (respond : Response)
  (now : string) (b : Bundle) : Outcome :=
  match userId with
  | None => {| local := b; remote := []; console := [] |}
  | Some u =>
      if String.eqb u ""
      then {| local := b; remote := []; console := [] |}
      else
        let failed :=
          match error respond with
          | Some code => negb (String.eqb code "PGRST116")
          | None => false
          end in
        if failed
        then {| local := b; remote := [Select u];
                console := ["cloud load error:"] |}
        else
          let cloud := get_opt (data respond) "data" in
          if truthy cloud && typeof_object cloud
          then
            match read_bundle cloud with
            | Ok b' => {| local := b'; remote := [Select u]; console := [] |}
            | Throw _ => {| local := b; remote := [Select u]; console := [] |}
            end
          else
            {| local := b;
               remote := [Select u; Upsert u (Bundle_obj empty_bundle) now];
               console := [] |}
  end.

(** The save effect (lines 116-134), run when one of the four values or
    [userId] changes: the request it sends and what it logs.  [failure]
    is the error of the upsert, if it has one. *)
Definition save (userId : option string) (now : string)
  (failure : option string) (b : Bundle) : list RemoteOp * list string :=
  match userId with
  | None => ([], [])
  | Some u =>
      if String.eqb u "" then ([], [])
      else
        ([Upsert u (Bundle_obj b) now],
         match failure with
         | Some _ => ["cloud save error:"]
         | None => []
         end)
  end.

End Cloud.

(* ------------------------------------------------------------------ *)
(** * Specification-side definitions *)
(* ------------------------------------------------------------------ *)

(** The words logged on day [d] as the specification says it: the sum of
    [words] over the sessions whose [date] is [d]. *)
Fixpoint words_on (d : string) (ss : list Session.t) : num :=
  match ss with
  | [] => Int 0
  | s :: rest =>
      if String.eqb (Session.date s) d
      then add (Session.words s) (words_on d rest)
      else words_on d rest
  end.

(** [w > 0] on numbers. *)
Definition positive_words (w : num) : Prop := gtb w (Int 0) = true.

(** Words per hour as the specification says it, for [w] total words and
    [m] total minutes: the minutes floored at 1, then
    [round(w / minutes * 60)]. *)
Definition spec_wph (w m : Z) : double :=
  Math_round (fmul (fdiv (of_int w) (of_int (Z.max 1 m))) (of_int 60)).

(** [minutes <= 0 && words <= 0] as a statement about integers. *)
Definition both_nonpositive (d : LogSessionDialog.t) : Prop :=
  exists m n : Z,
    LogSessionDialog.minutes d = Int m /\ LogSessionDialog.words d = Int n
    /\ m <= 0 /\ n <= 0.

(** A string that does not start with [x] or [X], the mark of a
    hexadecimal literal after a [0]. *)
Definition no_hex_mark (s : string) : Prop :=
  match s with
  | String c _ => c <> "x"%char /\ c <> "X"%char
  | EmptyString => True
  end.

(** What every reachable state of the timer satisfies: the seconds left
    are between 0 and the seconds the countdown started from, which are a
    whole number of minutes, at least one; so is the custom length. *)
Definition timer_ok (tm : Timer.t) : Prop :=
  0 <= Timer.timerSeconds tm <= Timer.startSeconds tm
  /\ 1 <= Timer.customMins tm
  /\ exists m, 1 <= m /\ Timer.startSeconds tm = m * 60.

(** The sessions that no project of [ps] counts on its card. *)
Definition unfiled (ps : list Project.t) (ss : list Session.t)
  : list Session.t :=
  filter (fun s => negb (existsb (fun p => of_project p s) ps)) ss.

(** The ids of each kind are distinct. *)
Definition distinct_ids (st : State) : Prop :=
  NoDup (map Project.id (projects st))
  /\ NoDup (map Session.id (sessions st))
  /\ NoDup (map Idea.id (ideas st)).

(** The id an action draws is carried by no stored record of its kind. *)
Definition draws_fresh (a : Action) (st : State) : Prop :=
  match a with
  | AddProject uid _ _ => ~ In uid (map Project.id (projects st))
  | LogSession uid _ => ~ In uid (map Session.id (sessions st))
  | AddIdea uid _ _ => ~ In uid (map Idea.id (ideas st))
  | _ => True
  end.

(** Every action of a sequence draws a fresh id when its turn comes. *)
Fixpoint all_fresh (acts : list Action) (w : World) : Prop :=
  match acts with
  | [] => True
  | a :: rest => draws_fresh a (state w) /\ all_fresh rest (act a w)
  end.

Definition act_all (acts : list Action) (w : World) : World :=
  fold_left (fun acc a => act a acc) acts w.

(** What the row of an idea shows. *)
Definition idea_row (i : Idea.t)
  : string * string * list string * option string * string * bool :=
  (Idea.id i, Idea.text i, Idea.tags i, Idea.projectId i, Idea.createdAt i,
   IdeaList.is_pinned i).

(** The idea as the store holds it after its pin was clicked. *)
Definition pin_clicked (i : Idea.t) : Idea.t :=
  {| Idea.id := Idea.id i; Idea.text := Idea.text i;
     Idea.tags := Idea.tags i; Idea.projectId := Idea.projectId i;
     Idea.createdAt := Idea.createdAt i;
     Idea.pinned := Some (negb (IdeaList.is_pinned i)) |}.

(** Two states of a log dialog that differ at most in being open. *)
Definition same_entry (d d' : LogSessionDialog.t) : Prop :=
  LogSessionDialog.projectId d' = LogSessionDialog.projectId d
  /\ LogSessionDialog.date d' = LogSessionDialog.date d
  /\ LogSessionDialog.minutes d' = LogSessionDialog.minutes d
  /\ LogSessionDialog.words d' = LogSessionDialog.words d
  /\ LogSessionDialog.notes d' = LogSessionDialog.notes d.

(** [f z] for the [n] integers from [z] on. *)
Fixpoint all_from (f : Z -> bool) (n : nat) (z : Z) : bool :=
  match n with
  | O => true
  | S m => f z && all_from f m (z + 1)
  end.

(** The two decimal digits of [k], for [k] below 100. *)
Definition two_digits (k : Z) : string :=
  String (ascii_of_N (Z.to_N (48 + k / 10)))
    (String (ascii_of_N (Z.to_N (48 + k mod 10))) EmptyString).

(** A timer that shows [t] seconds. *)
Definition showing (t : Z) : Timer.t :=
  {| Timer.timerRunning := false; Timer.timerSeconds := t;
     Timer.customMins := 25; Timer.startSeconds := 25 * 60;
     Timer.autoOpenLog := false; Timer.customMinsText := "25" |}.

Definition clock_ok (t : Z) : bool :=
  String.eqb (Timer.minutes (showing t)) (two_digits (t / 60))
  && String.eqb (Timer.seconds (showing t)) (two_digits (t mod 60)).

(** The elapsed seconds [e], rounded to the nearest minute (half a minute
    up) and raised to 1. *)
Definition nearest_minute (e : Z) : Z := Z.max 1 ((e + 30) / 60).

Definition elapsed_minutes_ok (e : Z) : bool :=
  match to_num (fmax (of_int 1)
                  (Math_round (fdiv (of_int e) (of_int 60)))) with
  | Int z => z =? nearest_minute e
  | NaN => false
  end.

(** A session whose word count is an integer that is not negative. *)
Definition counts_words (s : Session.t) : Prop :=
  exists n : Z, Session.words s = Int n /\ 0 <= n.

(** The bar of day [i] as the specification of the chart says it. *)
Definition bar_of (dayKey dayLabel : nat -> string) (ss : list Session.t)
  (i : nat) : Bar.t :=
  {| Bar.date := dayLabel i; Bar.words := words_on (dayKey i) ss |}.

(** A sequence of [logSession] calls, each with the id its [uid()] drew. *)
Definition log_all (calls : list (string * Session.t)) (w : World) : World :=
  fold_left (fun acc c => logSession (fst c) (snd c) acc) calls w.

(** [doc.k], [undefined] when the document has no such key. *)
Definition field (k : string) (fs : list (string * JsVal)) : JsVal :=
  match lookup k fs with
  | Some x => x
  | None => JUndefined
  end.

(** The four values taken from a document with fields [fs], each
    defaulted when missing or falsy. *)
Definition defaulted (fs : list (string * JsVal)) : Bundle :=
  {| b_projects := or_else (field "projects" fs) (JArr []);
     b_sessions := or_else (field "sessions" fs) (JArr []);
     b_ideas := or_else (field "ideas" fs) (JArr []);
     b_dailyGoal := or_else (field "dailyGoal" fs) (JNum (Int 500)) |}.

(** The number of [select]s among remote operations. *)
Definition reads (ops : list Cloud.RemoteOp) : nat :=
  List.length
    (filter (fun op => match op with Cloud.Select _ => true | _ => false end)
            ops).

Fixpoint keys_unique (ks : list string) : bool :=
  match ks with
  | [] => true
  | k :: rest => negb (existsb (String.eqb k) rest) && keys_unique rest
  end.

(** A value that [JSON.stringify] writes without loss: no [undefined], no
    NaN, only integers, and objects with unique keys. *)
Fixpoint representable (v : JsVal) : bool :=
  match v with
  | JUndefined => false
  | JNull | JBool _ | JStr _ => true
  | JNum NaN => false
  | JNum (Int _) => true
  | JFrac _ _ => false
  | JArr items => forallb representable items
  | JObj fields =>
      keys_unique (map fst fields)
      && forallb (fun kv => representable (snd kv)) fields
  end.

Definition is_int (n : num) : bool := negb (isNaN n).

(** What [JSON.stringify] keeps of a value: [undefined] and NaN are
    written as [null], and a member whose value is [undefined] is left
    out. *)
Fixpoint jsonify (v : JsVal) : JsVal :=
  match v with
  | JUndefined => JNull
  | JNum NaN => JNull
  | JArr items => JArr (map jsonify items)
  | JObj fields =>
      JObj ((fix members (l : list (string * JsVal))
               : list (string * JsVal) :=
               match l with
               | [] => []
               | (k, JUndefined) :: r => members r
               | (k, x) :: r => (k, jsonify x) :: members r
               end) fields)
  | _ => v
  end.

(** A value as JavaScript holds it, all of whose numbers are integers or
    NaN: the keys of each object are distinct. *)
Fixpoint well_formed (v : JsVal) : bool :=
  match v with
  | JFrac _ _ => false
  | JArr items => forallb well_formed items
  | JObj fields =>
      keys_unique (map fst fields)
      && forallb (fun kv => well_formed (snd kv)) fields
  | _ => true
  end.

Definition is_undefined (v : JsVal) : bool :=
  match v with
  | JUndefined => true
  | _ => false
  end.

(** The option that [ProjectSelect] shows for a project. *)
Definition select_item (p : Project.t) : JsVal * JsVal :=
  (JStr (Project.id p), JStr (Project.title p)).

(** The state as the next start finds it: a daily goal of 0 is falsy. *)
Definition reloaded (st : State) : State :=
  {| projects := projects st;
     sessions := sessions st;
     ideas := ideas st;
     dailyGoal := num_or (dailyGoal st) (Int 500) |}.

Definition State_representable (st : State) : bool :=
  forallb (fun p => is_int (Project.targetWords p)) (projects st)
  && forallb (fun s => is_int (Session.minutes s) && is_int (Session.words s))
             (sessions st)
  && is_int (dailyGoal st).

(* ------------------------------------------------------------------ *)
(** * Auxiliary definitions for the JSON proofs *)
(* ------------------------------------------------------------------ *)

(** One level of [JSON.parse_value], on the text after its white space,
    with the parsers of the elements and of the members as parameters. *)
Definition value_step
    (elems : string -> option (list JsVal * string))
    (members : string -> option (list (string * JsVal) * string))
    (t : string) : option (JsVal * string) :=
  match t with
  | String "n" (String "u" (String "l" (String "l" r))) => Some (JNull, r)
  | String "t" (String "r" (String "u" (String "e" r))) =>
      Some (JBool true, r)
  | String "f" (String "a" (String "l" (String "s" (String "e" r)))) =>
      Some (JBool false, r)
  | String "[" r =>
      match JSON.closes "]" r with
      | Some r' => Some (JArr [], r')
      | None =>
          match elems r with
          | Some (vs, r') => Some (JArr vs, r')
          | None => None
          end
      end
  | String "{" r =>
      match JSON.closes "}" r with
      | Some r' => Some (JObj [], r')
      | None =>
          match members r with
          | Some (fs, r') => Some (JObj fs, r')
          | None => None
          end
      end
  | String c r =>
      if Ascii.eqb c JSON.dquote then
        match JSON.parse_chars r with
        | Some (str, r') => Some (JStr str, r')
        | None => None
        end
      else JSON.parse_number (String c r)
  | EmptyString => None
  end.

(** What a successful parse uses of its text and of its fuel. *)
Definition bounded {T} (p : nat -> string -> option (T * string))
           (f : nat) : Prop :=
  forall s x r, p f s = Some (x, r) ->
    (String.length r < String.length s)%nat
    /\ forall g, (String.length s - String.length r <= g)%nat ->
                 p g s = Some (x, r).

(** A string that does not continue a number. *)
Definition no_digit_ahead (s : string) : Prop :=
  match s with
  | String c _ => is_digit c = false
  | EmptyString => True
  end.

(** A string that does not continue a number: no digit, no fraction and
    no exponent comes first. *)
Definition ends_number (s : string) : Prop :=
  no_digit_ahead s
  /\ JSON.parse_fraction s = Some (EmptyString, s)
  /\ JSON.parse_exponent s = Some (0, s).

(** What follows a value in compact text: nothing, a comma or a closing
    bracket. *)
Definition closed (s : string) : Prop :=
  s = EmptyString
  \/ exists c r, s = String c r
                 /\ (c = ","%char \/ c = "]"%char \/ c = "}"%char).

(** The first character of a value's text: not white space and not a
    closing bracket. *)
Definition opens_value (c : ascii) : Prop :=
  JSON.is_json_ws c = false /\ c <> "]"%char /\ c <> "}"%char.

Fixpoint all_ws (s : string) : bool :=
  match s with
  | EmptyString => true
  | String c r => JSON.is_json_ws c && all_ws r
  end.

(** What follows a value in serialised text: nothing, a comma or a line
    break. *)
Definition delimited (s : string) : Prop :=
  s = EmptyString
  \/ (exists r, s = String "," r)
  \/ (exists r, s = String (ascii_of_nat 10) r).

(** The text of a value at indentation [ind]. *)
Definition text (ind : string) (v : JsVal) : string :=
  match JSON.ser ind v with
  | Some t => t
  | None => "null"
  end.

(** The text of one member of an object. *)
Definition member_text (ind : string) (kv : string * JsVal) : string :=
  JSON.quote (fst kv) ++ ": " ++ text ind (snd kv).

(** The parts of a bracket body, separated by [sep] and followed by
    [closing]. *)
Fixpoint joined (sep closing : string) (parts : list string) : string :=
  match parts with
  | [] => closing
  | [t] => t ++ closing
  | t :: rest => t ++ sep ++ joined sep closing rest
  end.

(** The number of nodes of a value, list cells included. *)
Fixpoint size (v : JsVal) : nat :=
  match v with
  | JArr items =>
      S ((fix sizes (l : list JsVal) : nat :=
            match l with
            | [] => O
            | x :: r => S (size x + sizes r)
            end) items)
  | JObj fields =>
      S ((fix sizes (l : list (string * JsVal)) : nat :=
            match l with
            | [] => O
            | kv :: r => S (size (snd kv) + sizes r)
            end) fields)
  | _ => 1%nat
  end.

Definition sizes (l : list JsVal) : nat :=
  fold_right (fun x n => S (size x + n)) O l.

Definition field_sizes (l : list (string * JsVal)) : nat :=
  fold_right (fun kv n => S (size (snd kv) + n)) O l.

(** The characters of the parts, one more for each. *)
Definition lengths (parts : list string) : nat :=
  fold_right (fun t n => S (String.length t + n)) O parts.

(** The texts of the members of an object, those whose value is
    [undefined] left out. *)
Fixpoint member_texts (ind : string) (l : list (string * JsVal))
  : list string :=
  match l with
  | [] => []
  | (k, x) :: r =>
      match JSON.ser ind x with
      | Some t => (JSON.quote k ++ ": " ++ t) :: member_texts ind r
      | None => member_texts ind r
      end
  end.

(** The members that [jsonify] keeps. *)
Fixpoint kept_members (l : list (string * JsVal)) : list (string * JsVal) :=
  match l with
  | [] => []
  | (k, JUndefined) :: r => kept_members r
  | (k, x) :: r => (k, jsonify x) :: kept_members r
  end.

(** The compact text of a value and of a member. *)
Definition text_compact (v : JsVal) : string :=
  match JSON.ser_compact v with
  | Some t => t
  | None => "null"
  end.

Definition member_compact (kv : string * JsVal) : string :=
  JSON.quote (fst kv) ++ ":" ++ text_compact (snd kv).

(** The compact text of [v], before anything that may follow a value,
    parses back to [v] with fuel for its size. *)
Definition reads_back_compact (v : JsVal) : Prop :=
  forall (rest : string) (fuel : nat),
    closed rest -> (size v <= fuel)%nat ->
    JSON.parse_value fuel (text_compact v ++ rest) = Some (v, rest).

(** The text of [v], at any indentation and before any delimiter, parses
    back to [v] with fuel for its size. *)
Definition reads_back (v : JsVal) : Prop :=
  forall (ind rest : string) (fuel : nat),
    all_ws ind = true -> delimited rest -> (size v <= fuel)%nat ->
    JSON.parse_value fuel (text ind v ++ rest) = Some (v, rest).

(* ------------------------------------------------------------------ *)
(** * Example inputs *)
(* ------------------------------------------------------------------ *)

(** A session with only the fields the statistics read. *)
Definition session_of (date : string) (minutes words : Z) : Session.t :=
  {| Session.id := "";
     Session.projectId := None;
     Session.date := date;
     Session.minutes := Int minutes;
     Session.words := Int words;
     Session.notes := None |}.

(** The store before anything was added. *)
Definition empty_world : World :=
  {| state := {| projects := []; sessions := []; ideas := [];
                 dailyGoal := Int 500 |};
     toasts := [] |}.

(** The "Quick Log" dialog: no default project, 25 default minutes, no
    [onCloseExternal]. *)
Definition quick_props : LogSessionDialog.Props :=
  {| LogSessionDialog.defaultProjectId := "";
     LogSessionDialog.defaultMinutes := Int 25;
     LogSessionDialog.onCloseExternal := false |}.

Definition fresh_dialog (today : string) : LogSessionDialog.t :=
  {| LogSessionDialog.open := true;
     LogSessionDialog.projectId := "";
     LogSessionDialog.date := today;
     LogSessionDialog.minutes := Int 25;
     LogSessionDialog.words := Int 0;
     LogSessionDialog.notes := "" |}.

(** A running timer with one second left. *)
Definition last_second : Timer.t :=
  {| Timer.timerRunning := true; Timer.timerSeconds := 1;
     Timer.customMins := 10; Timer.startSeconds := 600;
     Timer.autoOpenLog := false; Timer.customMinsText := "10" |}.

(** [{title: "Novel", targetWords: 5000}]: the keys [addProject] sets are
    placeholders here. *)
Definition novel : Project.t :=
  {| Project.id := ""; Project.title := "Novel";
     Project.description := None; Project.targetWords := Int 5000;
     Project.deadline := None; Project.status := Editing;
     Project.createdAt := ""; Project.archived := None |}.

(** Two projects, two sessions filed under them and one under none. *)
Definition two_projects : list Project.t :=
  [created "p1" "2024-03-01T09:00:00.000Z" novel;
   created "p2" "2024-03-01T09:05:00.000Z" novel].

Definition filed (pid : string) (words : Z) : Session.t :=
  {| Session.id := "";
     Session.projectId := Some pid;
     Session.date := "2024-03-02";
     Session.minutes := Int 30;
     Session.words := Int words;
     Session.notes := None |}.

Definition three_sessions : list Session.t :=
  [filed "p1" 400; filed "p2" 250; session_of "2024-03-02" 30 100].

Definition archived_novel : Project.t :=
  {| Project.id := ""; Project.title := "Novel";
     Project.description := None; Project.targetWords := Int 5000;
     Project.deadline := None; Project.status := Editing;
     Project.createdAt := ""; Project.archived := Some true |}.

(** A clock for the examples: today is 2024-03-02. *)
Definition example_dayKey (i : nat) : string :=
  match i with
  | 0%nat => "2024-03-02"
  | 1%nat => "2024-03-01"
  | 2%nat => "2024-02-29"
  | _ => "earlier"
  end.

Definition example_calls : list (string * Session.t) :=
  [("k1", session_of "2024-03-02" 30 400);
   ("k2", session_of "2024-03-01" 45 250);
   ("k3", session_of "2024-03-02" 20 150)].

(** Example states for the export and import statements. *)
Definition example_state : State :=
  {| projects :=
       [{| Project.id := "p1"; Project.title := "Novel";
           Project.description := Some "C:\drafts\novel";
           Project.targetWords := Int 5000; Project.deadline := None;
           Project.status := Drafting;
           Project.createdAt := "2024-03-01T09:00:00.000Z";
           Project.archived := Some false |}];
     sessions :=
       [{| Session.id := "s1"; Session.projectId := Some "p1";
           Session.date := "2024-03-02"; Session.minutes := Int 25;
           Session.words := Int 400; Session.notes := Some "" |};
        {| Session.id := "s2"; Session.projectId := None;
           Session.date := "2024-03-02"; Session.minutes := Int (-5);
           Session.words := Int 100; Session.notes := None |}];
     ideas :=
       [{| Idea.id := "i1"; Idea.text := "a twist";
           Idea.tags := ["plot"; "plot"];
           Idea.projectId := None;
           Idea.createdAt := "2024-03-02T08:00:00.000Z";
           Idea.pinned := None |}];
     dailyGoal := Int 700 |}.

(** The daily goal cleared: what [onBlur] stores for an empty input. *)
Definition zero_goal_state : State :=
  {| projects := []; sessions := []; ideas := []; dailyGoal := Int 0 |}.

(** A session whose words field is NaN. *)
Definition nan_state : State :=
  {| projects := [];
     sessions :=
       [{| Session.id := "s1"; Session.projectId := None;
           Session.date := "2024-03-02"; Session.minutes := Int 25;
           Session.words := NaN; Session.notes := None |}];
     ideas := [];
     dailyGoal := Int 500 |}.
(* ------------------------------------------------------------------ *)
(** * Facts about strings and numbers *)
(* ------------------------------------------------------------------ *)

Lemma append_assoc (a b c : string) : (a ++ b) ++ c = a ++ (b ++ c).
Proof.
  induction a as [|x a IH]; simpl; [reflexivity|now rewrite IH].
Qed.

Lemma append_nil_r (a : string) : a ++ "" = a.
Proof.
  induction a as [|x a IH]; simpl; [reflexivity|now rewrite IH].
Qed.

Lemma length_append (a b : string) :
  String.length (a ++ b) = (String.length a + String.length b)%nat.
Proof.
  induction a as [|x a IH]; simpl; [reflexivity|now rewrite IH].
Qed.

Lemma span_digits_stop (s : string) :
  no_digit_ahead s -> span_digits s = (EmptyString, s).
Proof.
  destruct s as [|c r]; simpl; [reflexivity|].
  now intros ->.
Qed.

Lemma span_digits_uint (d : Decimal.uint) (rest : string) :
  span_digits (NilEmpty.string_of_uint d ++ rest)
  = (NilEmpty.string_of_uint d ++ fst (span_digits rest),
     snd (span_digits rest)).
Proof.
  induction d; simpl;
    try (rewrite IHd; reflexivity).
  now destruct (span_digits rest).
Qed.

Lemma NilZero_NilEmpty (d : Decimal.uint) :
  d <> Decimal.Nil ->
  NilZero.string_of_uint d = NilEmpty.string_of_uint d.
Proof.
  destruct d; simpl; congruence.
Qed.

(** The decimal digits of a positive number: at least one, the first not
    [0]. *)
Lemma pos_digits_head (p : positive) :
  exists c r,
    NilZero.string_of_uint (Pos.to_uint p) = String c r
    /\ is_digit c = true /\ c <> "0"%char.
Proof.
  pose proof (DecimalPos.Unsigned.to_uint_nonzero p) as Hnz.
  pose proof (DecimalPos.Unsigned.to_of (Pos.to_uint p)) as Hn.
  rewrite DecimalPos.Unsigned.of_to in Hn. simpl in Hn.
  assert (Hh : Decimal.nzhead (Pos.to_uint p) = Pos.to_uint p).
  { unfold Decimal.unorm in Hn.
    destruct (Decimal.nzhead (Pos.to_uint p)) eqn:E; try congruence. }
  pose proof (DecimalFacts.nzhead_nonzero (Pos.to_uint p)) as Hd.
  rewrite Hh in Hd.
  destruct (Pos.to_uint p) as [|u|u|u|u|u|u|u|u|u|u] eqn:E;
    try (eexists; eexists; simpl;
         split; [reflexivity | split; [reflexivity | discriminate]]).
  exfalso. now apply (Hd u).
Qed.

Lemma span_digits_pos (p : positive) (rest : string) :
  no_digit_ahead rest ->
  span_digits (NilZero.string_of_uint (Pos.to_uint p) ++ rest)
  = (NilZero.string_of_uint (Pos.to_uint p), rest).
Proof.
  intros H.
  rewrite NilZero_NilEmpty by apply DecimalPos.Unsigned.to_uint_nonnil.
  rewrite span_digits_uint, span_digits_stop by exact H.
  simpl. now rewrite append_nil_r.
Qed.

Lemma digits_value_pos (p : positive) :
  digits_value (NilZero.string_of_uint (Pos.to_uint p)) = Npos p.
Proof.
  unfold digits_value.
  rewrite NilZero.usu by apply DecimalPos.Unsigned.to_uint_nonnil.
  apply DecimalPos.Unsigned.of_to.
Qed.

Lemma dec_prefix_pos (p : positive) (rest : string) :
  no_digit_ahead rest ->
  dec_prefix (NilZero.string_of_uint (Pos.to_uint p) ++ rest) = Some (Npos p).
Proof.
  intros H. unfold dec_prefix. rewrite span_digits_pos by exact H.
  pose proof (digits_value_pos p) as Hv.
  destruct (pos_digits_head p) as (c & r & E & _ & _).
  rewrite E in *. cbv iota beta. now rewrite Hv.
Qed.

Lemma digit_start (c : ascii) (r : string) :
  is_digit c = true ->
  trim_start (String c r) = String c r
  /\ strip_sign (String c r) = (false, String c r).
Proof.
  unfold is_digit. intros H.
  destruct c as [[|] [|] [|] [|] [|] [|] [|] [|]]; try discriminate;
    split; reflexivity.
Qed.

Lemma strip_0x_no_zero (c : ascii) (r : string) :
  c <> "0"%char -> strip_0x (String c r) = None.
Proof.
  intros H.
  destruct c as [[|] [|] [|] [|] [|] [|] [|] [|]]; try reflexivity.
  now elim H.
Qed.

(** [parseInt] reads back every integer from its decimal text. *)
Lemma parseInt_Z_to_string (z : Z) : parseInt (Z_to_string z) = Int z.
Proof.
  destruct z as [|p|p]; [reflexivity| |];
    unfold parseInt, Z_to_string;
    destruct (pos_digits_head p) as (c & r & E & Hc & Hz);
    pose proof (dec_prefix_pos p "" I) as Hp; rewrite append_nil_r in Hp;
    rewrite E in *;
    destruct (digit_start c r Hc) as [Ht Hs].
  - rewrite Ht, Hs. cbv iota beta.
    rewrite strip_0x_no_zero, Hp by exact Hz. reflexivity.
  - change (trim_start (String "-" (String c r)))
      with (String "-" (String c r)).
    change (strip_sign (String "-" (String c r))) with (true, String c r).
    cbv iota beta.
    rewrite strip_0x_no_zero, Hp by exact Hz. reflexivity.
Qed.

(* ------------------------------------------------------------------ *)
(** * Derived statistics *)
(* ------------------------------------------------------------------ *)

Lemma add_comm (a b : num) : add a b = add b a.
Proof. destruct a, b; simpl; try reflexivity. f_equal. lia. Qed.

Lemma add_assoc (a b c : num) : add a (add b c) = add (add a b) c.
Proof. destruct a, b, c; simpl; try reflexivity. f_equal. lia. Qed.

Lemma add_0_l (a : num) : add (Int 0) a = a.
Proof. destruct a; reflexivity. Qed.

Lemma add_0_r (a : num) : add a (Int 0) = a.
Proof. rewrite add_comm. apply add_0_l. Qed.

Section SumFacts.
Context {A : Type} (sel : A -> num).

Lemma fold_add_acc (l : list A) (a : num) :
  fold_left (fun x b => add x (sel b)) l a = add a (sum l sel).
Proof.
  unfold sum. revert a.
  induction l as [|b l IH]; intros a; cbn [fold_left].
  - now rewrite add_0_r.
  - rewrite IH, (IH (add (Int 0) (sel b))), add_0_l. symmetry.
    apply add_assoc.
Qed.

Lemma sum_cons (b : A) (l : list A) :
  sum (b :: l) sel = add (sel b) (sum l sel).
Proof.
  unfold sum at 1. cbn [fold_left]. now rewrite fold_add_acc, add_0_l.
Qed.

Lemma sum_app (l1 l2 : list A) :
  sum (l1 ++ l2) sel = add (sum l1 sel) (sum l2 sel).
Proof.
  induction l1 as [|b l1 IH]; cbn [app].
  - change (sum [] sel) with (Int 0). now rewrite add_0_l.
  - now rewrite !sum_cons, IH, add_assoc.
Qed.

Lemma sum_perm (l1 l2 : list A) :
  Permutation l1 l2 -> sum l1 sel = sum l2 sel.
Proof.
  induction 1 as [|x l l' _ IH|x y l|l l' l'' _ IH1 _ IH2].
  - reflexivity.
  - now rewrite !sum_cons, IH.
  - rewrite !sum_cons, !add_assoc. f_equal. apply add_comm.
  - now rewrite IH1.
Qed.
End SumFacts.

Lemma sum_on_day (d : string) (ss : list Session.t) :
  sum (on_day d ss) Session.words = words_on d ss.
Proof.
  induction ss as [|s ss IH]; simpl; [reflexivity|].
  destruct (String.eqb (Session.date s) d); [|exact IH].
  now rewrite sum_cons, IH.
Qed.

Lemma on_day_app (d : string) (l1 l2 : list Session.t) :
  on_day d (l1 ++ l2) = (on_day d l1 ++ on_day d l2)%list.
Proof. apply filter_app. Qed.

Lemma words_on_app (d : string) (l1 l2 : list Session.t) :
  words_on d (l1 ++ l2) = add (words_on d l1) (words_on d l2).
Proof.
  now rewrite <- !sum_on_day, on_day_app, sum_app.
Qed.

Lemma words_on_perm (d : string) (l1 l2 : list Session.t) :
  Permutation l1 l2 -> words_on d l1 = words_on d l2.
Proof.
  intros H. rewrite <- !sum_on_day. apply sum_perm.
  unfold on_day.
  induction H; simpl;
    repeat match goal with
           | |- context [String.eqb ?a ?b] => destruct (String.eqb a b)
           end;
    eauto using Permutation.
Qed.

Lemma logSession_sessions (uid : string) (s : Session.t) (w : World) :
  sessions (state (logSession uid s w))
  = (sessions (state w) ++ [with_id uid s])%list.
Proof. reflexivity. Qed.

Lemma log_all_sessions (calls : list (string * Session.t)) (w : World) :
  sessions (state (log_all calls w))
  = (sessions (state w)
       ++ map (fun c => with_id (fst c) (snd c)) calls)%list.
Proof.
  unfold log_all. revert w.
  induction calls as [|c calls IH]; intros w; simpl.
  - now rewrite app_nil_r.
  - rewrite IH, logSession_sessions, <- app_assoc. now destruct c.
Qed.

Lemma words_on_stored (d : string) (calls : list (string * Session.t)) :
  words_on d (map (fun c => with_id (fst c) (snd c)) calls)
  = words_on d (map snd calls).
Proof.
  induction calls as [|c calls IH]; simpl; [reflexivity|].
  now rewrite IH.
Qed.


Lemma streak_loop_spec (dayKey : nat -> string) (ss : list Session.t)
  (n i : nat) (s : Z) :
  exists j : nat,
    streak_loop dayKey ss n i s = s + Z.of_nat j
    /\ (j <= n)%nat
    /\ (forall t, (t < j)%nat ->
                  positive_words (words_on (dayKey (i + t)%nat) ss))
    /\ ((j < n)%nat -> ~ positive_words (words_on (dayKey (i + j)%nat) ss)).
Proof.
  revert i s.
  induction n as [|n IH]; intros i s.
  - exists 0%nat. simpl. repeat split; try lia.
  - cbn [streak_loop]. rewrite sum_on_day.
    destruct (gtb (words_on (dayKey i) ss) (Int 0)) eqn:E.
    + destruct (IH (S i) (s + 1)) as (j & Hv & Hle & Hpos & Hstop).
      exists (S j). repeat split.
      * rewrite Hv. lia.
      * lia.
      * intros [|t] Ht.
        -- now rewrite Nat.add_0_r.
        -- replace (i + S t)%nat with (S i + t)%nat by lia.
           apply Hpos. lia.
      * intros Hlt. replace (i + S j)%nat with (S i + j)%nat by lia.
        apply Hstop. lia.
    + exists 0%nat. repeat split; try lia.
      intros _. rewrite Nat.add_0_r. unfold positive_words. now rewrite E.
Qed.


Lemma num_or_minutes (n : num) :
  num_or n (Int 1)
  = Int (match n with Int m => if m =? 0 then 1 else m | NaN => 1 end).
Proof.
  destruct n as [|m]; [reflexivity|].
  unfold num_or, num_truthy. now destruct (m =? 0).
Qed.

(** C7, as stated, fails when the logged minutes sum to a negative number:
    the code divides by the negative sum, the claim by 1. *)
Lemma wph_negative_minutes :
  let ss := [session_of "2024-03-02" (-10) 100] in
  totalWords ss = Int 100
  /\ sum ss Session.minutes = Int (-10)
  /\ wph_shown ss = of_int (-600)
  /\ spec_wph 100 (-10) = of_int 6000
  /\ wph_shown ss <> spec_wph 100 (-10).
Proof.
  repeat split; try (vm_compute; reflexivity).
  vm_compute. discriminate.
Qed.

(** C7, amended.  Words per hour is [Math.round((totalWords / M) * 60)] in
    binary64, where [M] is the sum of all minutes, replaced by 1 when that
    sum is 0 (or NaN) and used as it is otherwise; for a sum that is not
    negative [M] is the sum floored at 1, and the result is the one the
    specification describes.  A result that is not finite is shown as 0.
    Sessions totalling 1000 words and 100 minutes give 600. *)
Theorem wph_shown_spec (ss : list Session.t) :
  (totalWords ss = NaN -> wph_shown ss = of_int 0)
  /\ (forall w : Z,
        totalWords ss = Int w ->
        let M := match sum ss Session.minutes with
                 | Int m => if m =? 0 then 1 else m
                 | NaN => 1
                 end in
        let r := Math_round (fmul (fdiv (of_int w) (of_int M)) (of_int 60)) in
        wph ss = r
        /\ wph_shown ss = (if isFinite r then r else of_int 0)
        /\ M <> 0
        /\ (forall m, sum ss Session.minutes = Int m -> 0 <= m ->
                      M = Z.max 1 m /\ wph ss = spec_wph w m)
        /\ (w = 1000 -> sum ss Session.minutes = Int 100 ->
            wph_shown ss = of_int 600)).
Proof.
  unfold wph_shown, wph. rewrite num_or_minutes.
  split.
  - intros ->. reflexivity.
  - intros w ->. cbv zeta. cbn [of_num].
    set (M := match sum ss Session.minutes with
              | Int m => if m =? 0 then 1 else m
              | NaN => 1
              end).
    assert (HM : forall m, sum ss Session.minutes = Int m -> 0 <= m ->
                           M = Z.max 1 m).
    { intros m Hm Hpos. subst M. rewrite Hm.
      destruct (Z.eqb_spec m 0); lia. }
    split; [reflexivity|]. split; [reflexivity|]. split; [|split].
    + subst M. destruct (sum ss Session.minutes) as [|m]; [lia|].
      destruct (Z.eqb_spec m 0); lia.
    + intros m Hm Hpos. split; [now apply HM|].
      unfold spec_wph. now rewrite (HM m Hm Hpos).
    + intros -> Hs. subst M. rewrite Hs. vm_compute. reflexivity.
Qed.

(** The amended statement at work: 1000 words in 100 minutes. *)
Example wph_600 :
  wph_shown [session_of "2024-03-01" 40 400; session_of "2024-03-02" 60 600]
  = of_int 600.
Proof. vm_compute. reflexivity. Qed.

(** The quotient is rounded before it is multiplied: 49 words in 24
    minutes are 122.5 words per hour, and the card shows 122. *)
Example wph_rounds_the_quotient :
  wph_shown [session_of "2024-03-02" 24 49] = of_int 122.
Proof. vm_compute. reflexivity. Qed.

(* ------------------------------------------------------------------ *)
(** * Logging a session *)
(* ------------------------------------------------------------------ *)

Lemma both_nonpositive_iff (d : LogSessionDialog.t) :
  both_nonpositive d
  <-> leb (LogSessionDialog.minutes d) (Int 0)
      && leb (LogSessionDialog.words d) (Int 0) = true.
Proof.
  unfold both_nonpositive, leb. split.
  - intros (m & n & -> & -> & Hm & Hn).
    apply andb_true_iff. split; apply Z.leb_le; assumption.
  - intros H. apply andb_true_iff in H. destruct H as [Hm Hn].
    destruct (LogSessionDialog.minutes d) as [|m]; [discriminate|].
    destruct (LogSessionDialog.words d) as [|n]; [discriminate|].
    exists m, n. repeat split; apply Z.leb_le; assumption.
Qed.

Lemma app_one_neq {A} (l : list A) (x : A) : (l ++ [x])%list <> l.
Proof.
  intros H. apply (f_equal (@List.length A)) in H.
  rewrite length_app in H. simpl in H. lia.
Qed.

(** C2, as stated, fails: [logSession] itself checks nothing and stores a
    session whose minutes and words are both 0. *)
Lemma logSession_no_validation :
  let s := session_of "2024-03-02" 0 0 in
  leb (Session.minutes s) (Int 0) && leb (Session.words s) (Int 0) = true
  /\ sessions (state (logSession "k3x9" s empty_world))
     = [with_id "k3x9" s]
  /\ sessions (state (logSession "k3x9" s empty_world))
     <> sessions (state empty_world).
Proof.
  repeat split. discriminate.
Qed.

(** C2, amended.  The check is made by [save] of the log dialog, the only
    caller of [logSession]: [save] shows "Add minutes or words" and leaves
    the store and the dialog as they were exactly when minutes and words
    are both at most 0; otherwise it calls [logSession], which always
    appends the session, with the id drawn by [uid()], at the end of the
    list. *)
Theorem save_validates (props : LogSessionDialog.Props) (uid today : string)
  (d : LogSessionDialog.t) (w : World) :
  let r := LogSessionDialog.save props uid today d w in
  let d' := fst (fst r) in
  let w' := snd (fst r) in
  (both_nonpositive d <-> sessions (state w') = sessions (state w))
  /\ (both_nonpositive d ->
      d' = d /\ w' = toast "Add minutes or words" w /\ snd r = false)
  /\ (~ both_nonpositive d ->
      w' = logSession uid (LogSessionDialog.payload d) w
      /\ sessions (state w')
         = (sessions (state w)
              ++ [with_id uid (LogSessionDialog.payload d)])%list)
  /\ (forall s : Session.t,
        sessions (state (logSession uid s w))
        = (sessions (state w) ++ [with_id uid s])%list).
Proof.
  cbv zeta. unfold LogSessionDialog.save.
  pose proof (both_nonpositive_iff d) as Hiff.
  destruct (leb (LogSessionDialog.minutes d) (Int 0)
            && leb (LogSessionDialog.words d) (Int 0)) eqn:E; simpl.
  - repeat split; auto; try tauto;
      try (intros Hn; exfalso; apply Hn; now apply Hiff).
  - assert (Hn : ~ both_nonpositive d) by (rewrite Hiff; discriminate).
    repeat split; auto; try tauto;
      try (intros H; exfalso; now apply app_one_neq in H).
Qed.

(* ------------------------------------------------------------------ *)
(** * Input boundaries *)
(* ------------------------------------------------------------------ *)

Lemma Z_to_string_nonempty (z : Z) : String.eqb (Z_to_string z) "" = false.
Proof.
  destruct z as [|p|p]; try reflexivity.
  simpl. destruct (pos_digits_head p) as (c & r & E & _).
  now rewrite E.
Qed.

Lemma number_onChange_Z (z : Z) : number_onChange (Z_to_string z) = Int z.
Proof.
  unfold number_onChange, str_or.
  rewrite Z_to_string_nonempty. apply parseInt_Z_to_string.
Qed.



(* ------------------------------------------------------------------ *)
(** * Timer *)
(* ------------------------------------------------------------------ *)

(** C4, as stated, fails: after an expiry raised [autoOpenLog], no reset
    lowers it again. *)
Lemma reset_keeps_autoOpenLog :
  let expired := Timer.expire (Timer.tick last_second) in
  Timer.timerRunning expired = false
  /\ Timer.timerSeconds expired = 0
  /\ Timer.autoOpenLog expired = true
  /\ Timer.autoOpenLog (Timer.click Timer.Reset expired) = true
  /\ Timer.autoOpenLog (Timer.click Timer.Preset50 expired) = true
  /\ Timer.autoOpenLog (Timer.click Timer.Preset15 expired) = true
  /\ Timer.autoOpenLog (Timer.click Timer.SetCustom expired) = true
  /\ Timer.timerSeconds (Timer.click Timer.Reset expired) = 25 * 60.
Proof.
  repeat split.
Qed.

Lemma safe_minutes_ge_1 (tm : Timer.t) :
  1 <= Timer.customMins tm -> 1 <= Timer.safe_minutes tm.
Proof.
  unfold Timer.safe_minutes. destruct (parseInt10 _); lia.
Qed.

(** C4, amended.  Every reset stops the timer and reseeds the countdown
    and the start reference to 60 times the minutes of the button: 25 for
    Reset whatever the custom value, 50 and 15 for the presets, the custom
    value (at least 1) for Set.  It leaves [autoOpenLog] as it was; the
    signal given to the log dialog, [autoOpenLog && timerSeconds === 0],
    is false afterwards because the countdown is positive. *)
Theorem reset_spec (a : Timer.ResetAction) (tm : Timer.t) :
  1 <= Timer.customMins tm ->
  let tm' := Timer.click a tm in
  let mins := Timer.reset_minutes a tm in
  1 <= mins
  /\ Timer.timerRunning tm' = false
  /\ Timer.timerSeconds tm' = mins * 60
  /\ Timer.startSeconds tm' = mins * 60
  /\ Timer.autoOpenLog tm' = Timer.autoOpenLog tm
  /\ Timer.openExternally tm' = false
  /\ 1 <= Timer.customMins tm'
  /\ (a = Timer.Reset -> mins = 25).
Proof.
  intros Hc. cbv zeta.
  assert (Hm : 1 <= Timer.reset_minutes a tm).
  { destruct a; simpl; try lia. now apply safe_minutes_ge_1. }
  assert (He : forall t0, Timer.expire (Timer.resetTimer
                                          (Timer.reset_minutes a tm) t0)
                          = Timer.resetTimer (Timer.reset_minutes a tm) t0).
  { intros t0. unfold Timer.expire.
    cbn [Timer.resetTimer Timer.timerSeconds].
    destruct (Z.leb_spec (Timer.reset_minutes a tm * 60) 0);
      [lia|reflexivity]. }
  unfold Timer.click. rewrite He. unfold Timer.openExternally.
  assert (Hz : (Timer.reset_minutes a tm * 60 =? 0) = false)
    by (apply Z.eqb_neq; lia).
  destruct a; cbn [Timer.resetTimer Timer.timerRunning Timer.timerSeconds
                     Timer.startSeconds Timer.autoOpenLog Timer.customMins];
    rewrite ?Hz, ?andb_false_r;
    repeat split; auto; try discriminate.
Qed.

(* ------------------------------------------------------------------ *)
(** * Cloud load *)
(* ------------------------------------------------------------------ *)

Lemma read_bundle_fields (fs : list (string * JsVal)) :
  read_bundle (JObj fs) = Ok (defaulted fs).
Proof. reflexivity. Qed.

(** C5.  Signed in, the load effect issues exactly one read.  A document
    that is found replaces the four local values, each taken from the
    document alone (defaulted when missing or falsy; the document's own
    four values when it has them all) with no part of the previous local
    state kept and nothing written; the not-found answer
    makes the effect write the empty initial bundle and leaves local state
    alone; any other error is logged, with local state unchanged and
    nothing written. *)
Theorem cloud_load_spec (u now : string) (respond : Cloud.Response)
  (b : Bundle) :
  u <> "" ->
  let o := Cloud.load (Some u) respond now b in
  reads (Cloud.remote o) = 1%nat
  /\ (forall fs,
        Cloud.data respond = JObj [("data", JObj fs)] ->
        Cloud.error respond = None ->
        Cloud.local o = defaulted fs
        /\ Cloud.remote o = [Cloud.Select u]
        /\ Cloud.console o = [])
  /\ (forall doc,
        Cloud.data respond = JObj [("data", Bundle_obj doc)] ->
        Cloud.error respond = None ->
        truthy (b_projects doc) = true -> truthy (b_sessions doc) = true ->
        truthy (b_ideas doc) = true -> truthy (b_dailyGoal doc) = true ->
        Cloud.local o = doc)
  /\ (Cloud.error respond = Some "PGRST116" ->
      Cloud.data respond = JNull ->
      Cloud.local o = b
      /\ Cloud.remote o
         = [Cloud.Select u;
            Cloud.Upsert u (Bundle_obj Cloud.empty_bundle) now]
      /\ Cloud.console o = [])
  /\ (forall code,
        Cloud.error respond = Some code ->
        code <> "PGRST116" ->
        Cloud.local o = b
        /\ Cloud.remote o = [Cloud.Select u]
        /\ Cloud.console o = ["cloud load error:"]).
Proof.
  intros Hu. cbv zeta. unfold Cloud.load.
  apply String.eqb_neq in Hu. rewrite Hu.
  split; [|split; [|split; [|split]]].
  - destruct (match Cloud.error respond with
              | Some code => negb (String.eqb code "PGRST116")
              | None => false
              end); [reflexivity|].
    destruct (truthy _ && typeof_object _); [|reflexivity].
    destruct (read_bundle _); reflexivity.
  - intros fs Hd He. rewrite Hd, He. cbn. repeat split.
  - intros doc Hd He Hp Hs Hi Hg. rewrite Hd, He. cbn.
    unfold or_else. rewrite Hp, Hs, Hi, Hg. now destruct doc.
  - intros He Hd. rewrite Hd, He. cbn. repeat split.
  - intros code He Hc. rewrite He.
    apply String.eqb_neq in Hc. rewrite Hc. cbn. repeat split.
Qed.

(** The example of the specification: a document with three projects and
    [dailyGoal: 700] replaces a local state that holds another project. *)
Example cloud_load_replaces :
  let remote3 := JArr [JObj [("title", JStr "A")];
                       JObj [("title", JStr "B")];
                       JObj [("title", JStr "C")]] in
  let doc := JObj [("projects", remote3); ("dailyGoal", JNum (Int 700))] in
  let local_only :=
    {| b_projects := JArr [JObj [("title", JStr "local only")]];
       b_sessions := JArr [JObj [("words", JNum (Int 10))]];
       b_ideas := JArr [];
       b_dailyGoal := JNum (Int 500) |} in
  Cloud.local
    (Cloud.load (Some "user-1")
       {| Cloud.data := JObj [("data", doc)]; Cloud.error := None |}
       "2024-03-02T10:00:00.000Z" local_only)
  = {| b_projects := remote3; b_sessions := JArr []; b_ideas := JArr [];
       b_dailyGoal := JNum (Int 700) |}.
Proof. reflexivity. Qed.

Lemma cloud_load_signed_out (respond : Cloud.Response) (now : string)
  (b : Bundle) :
  Cloud.load None respond now b
  = {| Cloud.local := b; Cloud.remote := []; Cloud.console := [] |}.
Proof. reflexivity. Qed.

(* ------------------------------------------------------------------ *)
(** * Projects *)
(* ------------------------------------------------------------------ *)

(** C9, as stated, fails for an input that carries [archived: true]: the
    spread keeps the flag and the new project is not in the active list. *)
Lemma addProject_archived_input :
  let w := addProject "k3x9" "2024-03-02T10:00:00.000Z" archived_novel
             empty_world in
  projects (state w)
  = [created "k3x9" "2024-03-02T10:00:00.000Z" archived_novel]
  /\ active (projects (state w)) = []
  /\ ~ In (created "k3x9" "2024-03-02T10:00:00.000Z" archived_novel)
          (active (projects (state w))).
Proof.
  repeat split. intros [].
Qed.

(** C9, amended.  [addProject(p)] always succeeds: it appends the record
    that carries the fields of [p] with the drawn id, the creation time and
    the status "Drafting" in place of whatever [p] has there, and announces
    "Project created".  The new project is in the active list unless [p]
    itself carries [archived: true], which no payload of the New Project
    dialog does, and archiving it removes it from that list. *)
Theorem addProject_spec (uid now : string) (p : Project.t) (w : World) :
  let w' := addProject uid now p w in
  let np := created uid now p in
  projects (state w') = (projects (state w) ++ [np])%list
  /\ toasts w' = (toasts w ++ ["Project created"])%list
  /\ sessions (state w') = sessions (state w)
  /\ ideas (state w') = ideas (state w)
  /\ dailyGoal (state w') = dailyGoal (state w)
  /\ (Project.id np = uid /\ Project.createdAt np = now
      /\ Project.status np = Drafting
      /\ Project.title np = Project.title p
      /\ Project.description np = Project.description p
      /\ Project.targetWords np = Project.targetWords p
      /\ Project.deadline np = Project.deadline p
      /\ Project.archived np = Project.archived p)
  /\ (Project.archived p <> Some true ->
      In np (active (projects (state w'))))
  /\ (forall d : NewProjectDialog.t,
        p = NewProjectDialog.payload d ->
        In np (active (projects (state w'))))
  /\ (forall q, In q (active (projects (state (archive uid w')))) ->
                Project.id q <> uid).
Proof.
  cbv zeta.
  assert (Hact : Project.archived p <> Some true ->
                 In (created uid now p)
                    (active (projects (state (addProject uid now p w))))).
  { intros Ha. unfold active. apply filter_In. split.
    + cbn. apply in_or_app. right. now left.
    + unfold not_archived, created. cbn [Project.archived].
      destruct (Project.archived p) as [[|]|]; [|reflexivity|reflexivity].
      exfalso. now apply Ha. }
  repeat split.
  - exact Hact.
  - intros d ->. apply Hact. discriminate.
  - intros q Hq Hid. unfold active in Hq. apply filter_In in Hq.
    destruct Hq as [Hin Hna].
    unfold archive, updateProject, setProjects in Hin.
    cbn [state projects] in Hin.
    apply in_map_iff in Hin. destruct Hin as (q0 & Hq0 & _).
    destruct (String.eqb (Project.id q0) uid) eqn:E.
    + subst q. discriminate.
    + subst q0. apply String.eqb_neq in E. contradiction.
Qed.

(** The example of the specification. *)
Example addProject_novel :
  let now := "2024-03-02T10:00:00.000Z" in
  let w := addProject "k3x9" now novel empty_world in
  map Project.status (projects (state w)) = [Drafting]
  /\ map Project.id (projects (state w)) = ["k3x9"]
  /\ map Project.createdAt (projects (state w)) = [now]
  /\ map Project.title (active (projects (state w))) = ["Novel"]
  /\ active (projects (state (archive "k3x9" w))) = [].
Proof. repeat split. Qed.

(* ------------------------------------------------------------------ *)
(** * Startup *)
(* ------------------------------------------------------------------ *)

(** C10 fails on a slot that holds the JSON text [null]: [JSON.parse]
    succeeds, [loadStore] returns [null], and reading [d.projects] throws
    while the component renders. *)
Theorem initial_throws_on_null :
  JSON.parse "null" = Some JNull
  /\ loadStore (Some "null") = JNull
  /\ initial (Some "null") = Throw "TypeError".
Proof. repeat split. Qed.

(** Where startup does succeed: an absent or empty slot and a text that
    does not parse give the defaults, and so does every value that parses
    to something other than [null], field by field. *)
Lemma initial_defaults (slot : option string) :
  (slot = None \/ slot = Some "" -> initial slot = Ok (defaulted []))
  /\ (forall text, slot = Some text -> JSON.parse text = None ->
                   initial slot = Ok (defaulted []))
  /\ match loadStore slot with
     | JNull | JUndefined => initial slot = Throw "TypeError"
     | JObj fs => initial slot = Ok (defaulted fs)
     | _ => initial slot = Ok (defaulted [])
     end.
Proof.
  split; [|split].
  - intros [->| ->]; reflexivity.
  - intros text -> Hp. unfold initial, loadStore, str_or.
    destruct (String.eqb text ""); [reflexivity|]. now rewrite Hp.
  - unfold initial. destruct (loadStore slot); reflexivity.
Qed.

(* ------------------------------------------------------------------ *)
(** * The statements at concrete inputs *)
(* ------------------------------------------------------------------ *)


Example todaysWords_example :
  todaysWords example_dayKey
    (sessions (state (log_all example_calls empty_world)))
  = Int 550.
Proof. reflexivity. Qed.

Example streak_example :
  streak example_dayKey
    (sessions (state (log_all example_calls empty_world)))
  = 2.
Proof. reflexivity. Qed.

Lemma reset_spec_witness :
  1 <= Timer.customMins (Timer.expire (Timer.tick last_second))
  /\ Timer.timerRunning
       (Timer.click Timer.SetCustom (Timer.expire (Timer.tick last_second)))
     = false
  /\ Timer.timerSeconds
       (Timer.click Timer.SetCustom (Timer.expire (Timer.tick last_second)))
     = 600
  /\ Timer.openExternally
       (Timer.click Timer.SetCustom (Timer.expire (Timer.tick last_second)))
     = false.
Proof.
  assert (H : 1 <= Timer.customMins (Timer.expire (Timer.tick last_second)))
    by (simpl; lia).
  split; [exact H|].
  pose proof (reset_spec Timer.SetCustom
                (Timer.expire (Timer.tick last_second)) H) as S.
  cbv zeta in S.
  destruct S as (_ & Hr & Hs & _ & _ & Ho & _).
  split; [exact Hr|]. split; [exact Hs|exact Ho].
Defined.

Lemma cloud_load_spec_witness :
  "user-1" <> ""
  /\ reads (Cloud.remote
              (Cloud.load (Some "user-1")
                 {| Cloud.data := JNull; Cloud.error := Some "PGRST116" |}
                 "2024-03-02T10:00:00.000Z" Cloud.empty_bundle))
     = 1%nat.
Proof.
  assert (H : "user-1" <> "") by discriminate.
  split; [exact H|].
  exact (proj1 (cloud_load_spec "user-1" "2024-03-02T10:00:00.000Z"
                  {| Cloud.data := JNull; Cloud.error := Some "PGRST116" |}
                  Cloud.empty_bundle H)).
Defined.

(* ------------------------------------------------------------------ *)
(** * JSON: what is written is read back *)
(* ------------------------------------------------------------------ *)

Section JsVal_induction.
Variable P : JsVal -> Prop.
Hypothesis Hundef : P JUndefined.
Hypothesis Hnull : P JNull.
Hypothesis Hbool : forall b, P (JBool b).
Hypothesis Hnum : forall n, P (JNum n).
Hypothesis Hfrac : forall m k, P (JFrac m k).
Hypothesis Hstr : forall s, P (JStr s).
Hypothesis Harr : forall items, Forall P items -> P (JArr items).
Hypothesis Hobj :
  forall fields, Forall (fun kv => P (snd kv)) fields -> P (JObj fields).

Lemma JsVal_nested_ind : forall v : JsVal, P v.
Proof.
  fix IH 1. intros [| |b|n|m k|s|items|fields].
  - exact Hundef.
  - exact Hnull.
  - apply Hbool.
  - apply Hnum.
  - apply Hfrac.
  - apply Hstr.
  - apply Harr. revert items. fix IHl 1.
    intros [|x r]; constructor; [apply IH|apply IHl].
  - apply Hobj. revert fields. fix IHl 1.
    intros [|kv r]; constructor; [apply IH|apply IHl].
Qed.
End JsVal_induction.

(** ** Strings *)

Lemma parse_chars_escape (c : ascii) (tail : string) :
  JSON.parse_chars (JSON.escape c ++ tail)
  = JSON.prepend (String c "") (JSON.parse_chars tail).
Proof.
  destruct c as [[|] [|] [|] [|] [|] [|] [|] [|]]; reflexivity.
Qed.

Lemma parse_chars_escape_all (s rest : string) :
  JSON.parse_chars (JSON.escape_all s ++ String JSON.dquote rest)
  = Some (s, rest).
Proof.
  induction s as [|c s IH]; [reflexivity|].
  cbn [JSON.escape_all]. rewrite append_assoc, parse_chars_escape, IH.
  reflexivity.
Qed.

(** ** Numbers *)

Lemma delimited_ends_number (s : string) : delimited s -> ends_number s.
Proof.
  intros [->|[[r ->]|[r ->]]]; repeat split; exact I || reflexivity.
Qed.

Lemma closed_ends_number (s : string) : closed s -> ends_number s.
Proof.
  intros [->|(c & r & -> & [->|[->| ->]])]; repeat split;
    exact I || reflexivity.
Qed.

Lemma digit_number_start (c : ascii) (t : string) :
  is_digit c = true ->
  JSON.strip_minus (String c t) = (false, String c t)
  /\ (c <> "0"%char -> JSON.span_int (String c t) = span_digits (String c t))
  /\ forall f, JSON.parse_value (S f) (String c t)
               = JSON.parse_number (String c t).
Proof.
  unfold is_digit. intros H.
  destruct c as [[|] [|] [|] [|] [|] [|] [|] [|]]; try discriminate;
    repeat split; try reflexivity; intros Hc; now elim Hc.
Qed.

Lemma parse_number_pos (neg : bool) (p : positive) (rest : string) :
  ends_number rest ->
  JSON.parse_number
    ((if neg then "-" else "") ++ Z_to_string (Z.pos p) ++ rest)
  = Some (JNum (Int (if neg then Z.neg p else Z.pos p)), rest).
Proof.
  intros (Hd & Hfr & Hex). cbn [Z_to_string].
  pose proof (span_digits_pos p rest Hd) as Hs.
  pose proof (digits_value_pos p) as Hv.
  destruct (pos_digits_head p) as (c & r & E & Hc & Hz).
  rewrite E in *.
  destruct (digit_number_start c (r ++ rest) Hc) as (Hm & Hi & _).
  unfold JSON.parse_number.
  assert (Hstrip : JSON.strip_minus
                     ((if neg then "-" else "") ++ String c r ++ rest)
                   = (neg, String c r ++ rest)).
  { destruct neg; [reflexivity|exact Hm]. }
  rewrite Hstrip. cbn [append] in *.
  rewrite (Hi Hz). cbn [append] in Hs. rewrite Hs.
  rewrite Hfr, Hex.
  unfold JSON.mk_number. rewrite append_nil_r, Hv.
  destruct neg; cbn; rewrite Pos.mul_1_r; reflexivity.
Qed.

Lemma number_head (z : Z) :
  exists c r, Z_to_string z = String c r
              /\ (is_digit c = true \/ c = "-"%char).
Proof.
  destruct z as [|p|p].
  - exists "0"%char, EmptyString. split; [reflexivity|now left].
  - destruct (pos_digits_head p) as (c & r & E & Hc & _).
    exists c, r. split; [exact E|now left].
  - eexists _, _. split; [reflexivity|now right].
Qed.

Lemma parse_value_number (z : Z) (rest : string) (f : nat) :
  ends_number rest ->
  JSON.parse_value (S f) (Z_to_string z ++ rest)
  = Some (JNum (Int z), rest).
Proof.
  intros Hd.
  destruct z as [|p|p].
  - change (Z_to_string 0 ++ rest) with (String "0" rest).
    destruct (digit_number_start "0" rest eq_refl) as (_ & _ & Hp).
    rewrite Hp. unfold JSON.parse_number. cbn.
    destruct Hd as (_ & -> & ->).
    reflexivity.
  - destruct (pos_digits_head p) as (c & r & E & Hc & _).
    destruct (digit_number_start c (r ++ rest) Hc) as (_ & _ & Hp).
    pose proof (parse_number_pos false p rest Hd) as Hn.
    cbn [append Z_to_string] in *. rewrite E in *. cbn [append] in *.
    rewrite Hp. exact Hn.
  - pose proof (parse_number_pos true p rest Hd) as Hn.
    cbn [append Z_to_string] in *.
    change (JSON.parse_value (S f)
              (String "-" (NilZero.string_of_uint (Pos.to_uint p) ++ rest)))
      with (JSON.parse_number
              (String "-" (NilZero.string_of_uint (Pos.to_uint p) ++ rest))).
    exact Hn.
Qed.

(** ** White space and the shape of the text *)

Lemma all_ws_app (a b : string) :
  all_ws (a ++ b) = all_ws a && all_ws b.
Proof.
  induction a as [|c a IH]; simpl; [reflexivity|].
  now rewrite IH, andb_assoc.
Qed.

Lemma skip_ws_app (a s : string) :
  all_ws a = true -> JSON.skip_ws (a ++ s) = JSON.skip_ws s.
Proof.
  induction a as [|c a IH]; simpl; [reflexivity|].
  intros H. apply andb_true_iff in H. destruct H as [Hc Ha].
  rewrite Hc. now apply IH.
Qed.

Lemma all_ws_gap (ind : string) :
  all_ws ind = true -> all_ws (ind ++ JSON.gap) = true.
Proof. intros H. now rewrite all_ws_app, H. Qed.

Lemma all_ws_line (ind : string) :
  all_ws ind = true -> all_ws (JSON.nl ++ ind) = true.
Proof. intros H. now rewrite all_ws_app, H. Qed.

Lemma parse_value_ws (f : nat) (a s : string) :
  all_ws a = true -> JSON.parse_value f (a ++ s) = JSON.parse_value f s.
Proof.
  intros H. destruct f; [reflexivity|].
  cbn [JSON.parse_value]. now rewrite skip_ws_app.
Qed.

Lemma parse_value_space (f : nat) (s : string) :
  JSON.parse_value f (String " " s) = JSON.parse_value f s.
Proof. exact (parse_value_ws f " " s eq_refl). Qed.

Lemma parse_members_ws (f : nat) (a s : string) :
  all_ws a = true -> JSON.parse_members f (a ++ s) = JSON.parse_members f s.
Proof.
  intros H. destruct f; [reflexivity|].
  cbn [JSON.parse_members]. now rewrite skip_ws_app.
Qed.

Lemma closes_ws (c : ascii) (a s : string) :
  all_ws a = true -> JSON.closes c (a ++ s) = JSON.closes c s.
Proof. intros H. unfold JSON.closes. now rewrite skip_ws_app. Qed.

Lemma digit_opens (c : ascii) :
  is_digit c = true \/ c = "-"%char -> opens_value c.
Proof.
  unfold is_digit, opens_value. intros [H| ->].
  - destruct c as [[|] [|] [|] [|] [|] [|] [|] [|]]; try discriminate;
      repeat split; discriminate.
  - repeat split; discriminate.
Qed.

Lemma ser_arr (ind : string) (items : list JsVal) :
  JSON.ser ind (JArr items)
  = Some (JSON.bracket "[" "]" ind (map (text (ind ++ JSON.gap)) items)).
Proof.
  reflexivity.
Qed.

Lemma ser_defined (ind : string) (v : JsVal) :
  representable v = true -> JSON.ser ind v = Some (text ind v).
Proof.
  unfold text. destruct (JSON.ser ind v) eqn:E; [reflexivity|].
  destruct v as [| |[|]|n|m k|s|items|fields]; discriminate.
Qed.

Lemma ser_obj (ind : string) (fields : list (string * JsVal)) :
  forallb (fun kv => representable (snd kv)) fields = true ->
  JSON.ser ind (JObj fields)
  = Some (JSON.bracket "{" "}" ind
            (map (member_text (ind ++ JSON.gap)) fields)).
Proof.
  intros H. cbn [JSON.ser]. do 2 f_equal.
  induction fields as [|[k x] r IH]; [reflexivity|].
  cbn [forallb snd] in H. apply andb_true_iff in H. destruct H as [Hx Hr].
  cbn [map]. rewrite <- (IH Hr).
  rewrite (ser_defined _ x Hx). reflexivity.
Qed.

Lemma representable_obj (fields : list (string * JsVal)) :
  representable (JObj fields) = true ->
  keys_unique (map fst fields) = true
  /\ forallb (fun kv => representable (snd kv)) fields = true.
Proof.
  cbn [representable]. intros H. now apply andb_true_iff in H.
Qed.

Lemma text_arr (ind : string) (items : list JsVal) :
  text ind (JArr items)
  = JSON.bracket "[" "]" ind (map (text (ind ++ JSON.gap)) items).
Proof. unfold text at 1. now rewrite ser_arr. Qed.

Lemma text_obj (ind : string) (fields : list (string * JsVal)) :
  forallb (fun kv => representable (snd kv)) fields = true ->
  text ind (JObj fields)
  = JSON.bracket "{" "}" ind (map (member_text (ind ++ JSON.gap)) fields).
Proof. intros H. unfold text at 1. now rewrite ser_obj. Qed.

Lemma text_head (ind : string) (v : JsVal) :
  representable v = true ->
  exists c r, text ind v = String c r /\ opens_value c.
Proof.
  intros Hv.
  destruct v as [| |[|]|[|z]|m k|s|items|fields]; try discriminate;
    try (eexists _, _; split; [reflexivity|];
         repeat split; discriminate).
  - destruct (number_head z) as (c & r & E & Hc).
    exists c, r. split; [exact E|now apply digit_opens].
  - rewrite text_arr. unfold JSON.bracket.
    destruct (map _ items);
      (eexists _, _; split; [reflexivity|]; repeat split; discriminate).
  - rewrite text_obj by apply (representable_obj _ Hv).
    unfold JSON.bracket.
    destruct (map _ fields);
      (eexists _, _; split; [reflexivity|]; repeat split; discriminate).
Qed.

Lemma closes_opens (b c : ascii) (r : string) :
  opens_value c -> b = "]"%char \/ b = "}"%char ->
  JSON.closes b (String c r) = None.
Proof.
  intros (Hw & H1 & H2) Hb. unfold JSON.closes. simpl. rewrite Hw.
  destruct (Ascii.eqb_spec c b) as [->|]; [|reflexivity].
  destruct Hb; contradiction.
Qed.

Lemma joined_join (sep closing : string) (parts : list string) :
  parts <> [] ->
  JSON.join sep parts ++ closing = joined sep closing parts.
Proof.
  induction parts as [|t [|u rest] IH]; intros H; [congruence|reflexivity|].
  change (JSON.join sep (t :: u :: rest))
    with (t ++ sep ++ JSON.join sep (u :: rest)).
  change (joined sep closing (t :: u :: rest))
    with (t ++ sep ++ joined sep closing (u :: rest)).
  rewrite !append_assoc, IH by discriminate. reflexivity.
Qed.

(** The text of a non-empty bracket, followed by [rest], laid out for the
    parser. *)
Lemma bracket_cons (open : ascii) (close ind rest t : string)
  (ts : list string) :
  JSON.bracket (String open "") close ind (t :: ts) ++ rest
  = String open
      ((JSON.nl ++ (ind ++ JSON.gap))
         ++ joined ("," ++ JSON.nl ++ (ind ++ JSON.gap))
              ((JSON.nl ++ ind) ++ close ++ rest) (t :: ts)).
Proof.
  unfold JSON.bracket.
  rewrite <- joined_join by discriminate.
  cbn [append]. f_equal.
  rewrite !append_assoc. reflexivity.
Qed.

(** ** One step of the parser *)

Lemma parse_value_arr (f : nat) (r : string) :
  JSON.parse_value (S f) (String "[" r)
  = match JSON.closes "]" r with
    | Some r' => Some (JArr [], r')
    | None =>
        match JSON.parse_elems f r with
        | Some (vs, r') => Some (JArr vs, r')
        | None => None
        end
    end.
Proof. reflexivity. Qed.

Lemma parse_value_obj (f : nat) (r : string) :
  JSON.parse_value (S f) (String "{" r)
  = match JSON.closes "}" r with
    | Some r' => Some (JObj [], r')
    | None =>
        match JSON.parse_members f r with
        | Some (fs, r') => Some (JObj fs, r')
        | None => None
        end
    end.
Proof. reflexivity. Qed.

Lemma parse_value_str (f : nat) (r : string) :
  JSON.parse_value (S f) (String JSON.dquote r)
  = match JSON.parse_chars r with
    | Some (str, r') => Some (JStr str, r')
    | None => None
    end.
Proof. reflexivity. Qed.

Lemma parse_elems_S (f : nat) (s : string) :
  JSON.parse_elems (S f) s
  = match JSON.parse_value f s with
    | Some (v, r) =>
        match JSON.skip_ws r with
        | String "," r' =>
            match JSON.parse_elems f r' with
            | Some (vs, r'') => Some (v :: vs, r'')
            | None => None
            end
        | String "]" r' => Some ([v], r')
        | _ => None
        end
    | None => None
    end.
Proof. reflexivity. Qed.

Lemma parse_members_S (f : nat) (r : string) :
  JSON.parse_members (S f) (String JSON.dquote r)
  = match JSON.parse_chars r with
    | Some (k, r1) =>
        match JSON.skip_ws r1 with
        | String ":" r2 =>
            match JSON.parse_value f r2 with
            | Some (v, r3) =>
                match JSON.skip_ws r3 with
                | String "," r4 =>
                    match JSON.parse_members f r4 with
                    | Some (fs, r5) => Some ((k, v) :: fs, r5)
                    | None => None
                    end
                | String "}" r4 => Some ([(k, v)], r4)
                | _ => None
                end
            | None => None
            end
        | _ => None
        end
    | None => None
    end.
Proof. reflexivity. Qed.

Lemma size_arr (items : list JsVal) : size (JArr items) = S (sizes items).
Proof. reflexivity. Qed.

Lemma size_obj (fields : list (string * JsVal)) :
  size (JObj fields) = S (field_sizes fields).
Proof. reflexivity. Qed.

Lemma skip_ws_closing (ind rest : string) (c : ascii) :
  all_ws ind = true -> JSON.is_json_ws c = false ->
  JSON.skip_ws ((JSON.nl ++ ind) ++ String c rest) = String c rest.
Proof.
  intros Hi Hc. rewrite skip_ws_app by now apply all_ws_line.
  simpl. now rewrite Hc.
Qed.

Lemma delimited_closing (ind tail : string) :
  delimited ((JSON.nl ++ ind) ++ tail).
Proof. right. right. eexists. reflexivity. Qed.

Lemma delimited_sep (ind tail : string) :
  delimited (("," ++ JSON.nl ++ ind) ++ tail).
Proof. right. left. eexists. reflexivity. Qed.

(** ** Arrays *)

Lemma parse_elems_joined (ind rest : string) (items : list JsVal) :
  all_ws ind = true ->
  items <> [] ->
  Forall (fun v => representable v = true -> reads_back v) items ->
  forallb representable items = true ->
  forall (ws : string) (f : nat),
    all_ws ws = true -> (sizes items <= f)%nat ->
    JSON.parse_elems f
      (ws ++ joined ("," ++ JSON.nl ++ (ind ++ JSON.gap))
               ((JSON.nl ++ ind) ++ "]" ++ rest)
               (map (text (ind ++ JSON.gap)) items))
    = Some (items, rest).
Proof.
  intros Hind Hne HP Hrep.
  induction items as [|x [|y ys] IH]; [congruence| |];
    intros ws f Hws Hf;
    cbn [sizes fold_right] in Hf;
    (destruct f as [|f]; [lia|]);
    inversion HP as [|? ? Hx HPr]; subst;
    cbn [forallb] in Hrep; apply andb_true_iff in Hrep;
    destruct Hrep as [Rx Rr];
    rewrite parse_elems_S, parse_value_ws by exact Hws.
  - cbn [map joined].
    rewrite (Hx Rx (ind ++ JSON.gap)) ;
      [|now apply all_ws_gap|apply delimited_closing|lia].
    change ("]" ++ rest) with (String "]" rest).
    rewrite skip_ws_closing by (exact Hind || reflexivity).
    reflexivity.
  - change (map (text (ind ++ JSON.gap)) (x :: y :: ys))
      with (text (ind ++ JSON.gap) x
              :: map (text (ind ++ JSON.gap)) (y :: ys)).
    set (tl := map (text (ind ++ JSON.gap)) (y :: ys)) in *.
    assert (Htl : exists u us, tl = u :: us) by (eexists _, _; reflexivity).
    destruct Htl as (u & us & Etl).
    assert (Ej : forall sep closing t,
               joined sep closing (t :: tl)
               = t ++ sep ++ joined sep closing tl).
    { intros. rewrite Etl. reflexivity. }
    rewrite Ej.
    rewrite (Hx Rx (ind ++ JSON.gap)) ;
      [|now apply all_ws_gap| |lia].
    2:{ rewrite <- append_assoc. apply delimited_sep. }
    change (("," ++ JSON.nl ++ ind ++ JSON.gap) ++ ?t)
      with (String "," ((JSON.nl ++ ind ++ JSON.gap) ++ t)).
    cbn [JSON.skip_ws]. change (JSON.is_json_ws ",") with false.
    cbv iota.
    rewrite (IH ltac:(discriminate) HPr Rr (JSON.nl ++ ind ++ JSON.gap) f);
      [reflexivity| |].
    + apply all_ws_line. now apply all_ws_gap.
    + cbn [sizes fold_right] in *. lia.
Qed.

(** ** Objects *)

Lemma member_layout (ind tail : string) (k : string) (v : JsVal) :
  member_text ind (k, v) ++ tail
  = String JSON.dquote
      (JSON.escape_all k
         ++ String JSON.dquote (String ":" (String " " (text ind v ++ tail)))).
Proof.
  unfold member_text, JSON.quote. cbn [fst snd append].
  rewrite !append_assoc. reflexivity.
Qed.

Lemma parse_members_joined (ind rest : string)
  (fields : list (string * JsVal)) :
  all_ws ind = true ->
  fields <> [] ->
  Forall (fun kv => representable (snd kv) = true -> reads_back (snd kv))
         fields ->
  forallb (fun kv => representable (snd kv)) fields = true ->
  forall (ws : string) (f : nat),
    all_ws ws = true -> (field_sizes fields <= f)%nat ->
    JSON.parse_members f
      (ws ++ joined ("," ++ JSON.nl ++ (ind ++ JSON.gap))
               ((JSON.nl ++ ind) ++ "}" ++ rest)
               (map (member_text (ind ++ JSON.gap)) fields))
    = Some (fields, rest).
Proof.
  intros Hind Hne HP Hrep.
  induction fields as [|[k x] [|y ys] IH]; [congruence| |];
    intros ws f Hws Hf;
    cbn [field_sizes fold_right snd] in Hf;
    (destruct f as [|f]; [lia|]);
    inversion HP as [|? ? Hx HPr]; subst;
    cbn [forallb snd] in Hrep, Hx; apply andb_true_iff in Hrep;
    destruct Hrep as [Rx Rr];
    rewrite parse_members_ws by exact Hws.
  - cbn [map joined].
    rewrite member_layout, parse_members_S, parse_chars_escape_all.
    cbn [JSON.skip_ws]. change (JSON.is_json_ws ":") with false. cbv iota.
    rewrite parse_value_space.
    rewrite (Hx Rx (ind ++ JSON.gap)) ;
      [|now apply all_ws_gap|apply delimited_closing|lia].
    change ("}" ++ rest) with (String "}" rest).
    rewrite skip_ws_closing by (exact Hind || reflexivity).
    reflexivity.
  - change (map (member_text (ind ++ JSON.gap)) ((k, x) :: y :: ys))
      with (member_text (ind ++ JSON.gap) (k, x)
              :: map (member_text (ind ++ JSON.gap)) (y :: ys)).
    set (tl := map (member_text (ind ++ JSON.gap)) (y :: ys)) in *.
    assert (Htl : exists u us, tl = u :: us) by (eexists _, _; reflexivity).
    destruct Htl as (u & us & Etl).
    assert (Ej : forall sep closing t,
               joined sep closing (t :: tl)
               = t ++ sep ++ joined sep closing tl).
    { intros. rewrite Etl. reflexivity. }
    rewrite Ej.
    rewrite member_layout, parse_members_S, parse_chars_escape_all.
    cbn [JSON.skip_ws]. change (JSON.is_json_ws ":") with false. cbv iota.
    rewrite parse_value_space.
    rewrite (Hx Rx (ind ++ JSON.gap)) ;
      [|now apply all_ws_gap| |lia].
    2:{ rewrite <- append_assoc. apply delimited_sep. }
    change (("," ++ JSON.nl ++ ind ++ JSON.gap) ++ ?t)
      with (String "," ((JSON.nl ++ ind ++ JSON.gap) ++ t)).
    cbn [JSON.skip_ws]. change (JSON.is_json_ws ",") with false.
    cbv iota.
    rewrite (IH ltac:(discriminate) HPr Rr (JSON.nl ++ ind ++ JSON.gap) f);
      [reflexivity| |].
    + apply all_ws_line. now apply all_ws_gap.
    + cbn [field_sizes fold_right] in *. lia.
Qed.

(** ** Every representable value is read back *)

Lemma joined_head (sep closing t : string) (ts : list string) :
  exists tail, joined sep closing (t :: ts) = t ++ tail.
Proof.
  destruct ts; eexists; reflexivity.
Qed.

Lemma closes_joined (b : ascii) (ws sep closing : string) (v : JsVal)
  (ind : string) (ts : list string) :
  all_ws ws = true -> representable v = true ->
  b = "]"%char \/ b = "}"%char ->
  JSON.closes b (ws ++ joined sep closing (text ind v :: ts)) = None.
Proof.
  intros Hws Hv Hb. rewrite closes_ws by exact Hws.
  destruct (joined_head sep closing (text ind v) ts) as (tail & ->).
  destruct (text_head ind v Hv) as (c & r & -> & Hc).
  now apply closes_opens.
Qed.

Lemma closes_member (b : ascii) (ws sep closing ind : string)
  (kv : string * JsVal) (ts : list string) :
  all_ws ws = true ->
  JSON.closes b (ws ++ joined sep closing (member_text ind kv :: ts)) = None
  \/ b = JSON.dquote.
Proof.
  intros Hws. rewrite closes_ws by exact Hws.
  destruct (joined_head sep closing (member_text ind kv) ts) as (tail & ->).
  unfold member_text, JSON.quote. cbn [append].
  unfold JSON.closes. cbn [JSON.skip_ws].
  change (JSON.is_json_ws JSON.dquote) with false. cbv iota.
  destruct (Ascii.eqb_spec JSON.dquote b) as [E|E];
    [right; now symmetry|now left].
Qed.

Theorem parse_value_text (v : JsVal) :
  representable v = true -> reads_back v.
Proof.
  induction v as [| |b|n|m k|s|items IH|fields IH] using JsVal_nested_ind;
    intros Hv ind rest fuel Hind Hrest Hfuel;
    try discriminate;
    (destruct fuel as [|f]; [cbn in Hfuel; lia|]).
  - reflexivity.
  - destruct b; reflexivity.
  - destruct n as [|z]; [discriminate|].
    now apply parse_value_number, delimited_ends_number.
  - change (text ind (JStr s) ++ rest)
      with (String JSON.dquote
              ((JSON.escape_all s ++ String JSON.dquote "") ++ rest)).
    rewrite append_assoc, parse_value_str.
    cbn [append]. now rewrite parse_chars_escape_all.
  - rewrite text_arr. rewrite size_arr in Hfuel.
    destruct items as [|x xs]; [reflexivity|].
    cbn [map]. rewrite bracket_cons, parse_value_arr.
    cbn [representable] in Hv.
    rewrite closes_joined;
      [|apply all_ws_line; now apply all_ws_gap
       |cbn [forallb] in Hv; now apply andb_true_iff in Hv
       |now left].
    change (text (ind ++ JSON.gap) x :: map (text (ind ++ JSON.gap)) xs)
      with (map (text (ind ++ JSON.gap)) (x :: xs)).
    rewrite (parse_elems_joined ind rest (x :: xs)); auto;
      try discriminate; try lia.
    apply all_ws_line. now apply all_ws_gap.
  - destruct (representable_obj _ Hv) as [Hk Hr].
    rewrite text_obj by exact Hr. rewrite size_obj in Hfuel.
    destruct fields as [|[k x] xs]; [reflexivity|].
    cbn [map]. rewrite bracket_cons, parse_value_obj.
    destruct (closes_member "}" (JSON.nl ++ ind ++ JSON.gap)
                ("," ++ JSON.nl ++ ind ++ JSON.gap)
                ((JSON.nl ++ ind) ++ "}" ++ rest) (ind ++ JSON.gap) (k, x)
                (map (member_text (ind ++ JSON.gap)) xs)) as [Hc|Hc];
      [apply all_ws_line; now apply all_ws_gap| |discriminate].
    rewrite Hc.
    change (member_text (ind ++ JSON.gap) (k, x)
              :: map (member_text (ind ++ JSON.gap)) xs)
      with (map (member_text (ind ++ JSON.gap)) ((k, x) :: xs)).
    rewrite (parse_members_joined ind rest ((k, x) :: xs)); auto;
      try discriminate; try lia.
    apply all_ws_line. now apply all_ws_gap.
Qed.

(** ** Objects are rebuilt as they were *)

Lemma keys_unique_NoDup (ks : list string) :
  keys_unique ks = true <-> NoDup ks.
Proof.
  induction ks as [|k ks IH]; cbn [keys_unique].
  - split; [constructor|reflexivity].
  - rewrite andb_true_iff, negb_true_iff, IH. split.
    + intros [Hn Hd]. constructor; [|exact Hd].
      intros Hin. assert (existsb (String.eqb k) ks = true) as E.
      { apply existsb_exists. exists k. split; [exact Hin|].
        apply String.eqb_refl. }
      congruence.
    + intros Hd. inversion Hd as [|? ? Hn Hd']; subst. split; [|exact Hd'].
      destruct (existsb (String.eqb k) ks) eqn:E; [|reflexivity].
      apply existsb_exists in E. destruct E as (k' & Hin & Hk).
      apply String.eqb_eq in Hk. subst k'. contradiction.
Qed.

Lemma obj_set_fresh (k : string) (v : JsVal) (fs : list (string * JsVal)) :
  ~ In k (map fst fs) -> obj_set k v fs = (fs ++ [(k, v)])%list.
Proof.
  induction fs as [|[k' v'] fs IH]; cbn [obj_set map fst In app];
    intros H; [reflexivity|].
  destruct (String.eqb_spec k k') as [->|Hne].
  - exfalso. apply H. now left.
  - rewrite IH; [reflexivity|]. intros Hin. apply H. now right.
Qed.

Lemma fold_obj_set (fields acc : list (string * JsVal)) :
  NoDup (map fst acc ++ map fst fields) ->
  Forall (fun kv => JSON.build (snd kv) = snd kv) fields ->
  fold_left (fun a kv => obj_set (fst kv) (JSON.build (snd kv)) a) fields acc
  = (acc ++ fields)%list.
Proof.
  revert acc.
  induction fields as [|[k v] fields IH]; intros acc Hd Hb;
    cbn [fold_left map fst snd].
  - now rewrite app_nil_r.
  - inversion Hb as [|? ? Hv Hr]; subst. cbn [snd] in Hv.
    cbn [map fst] in Hd.
    rewrite Hv, obj_set_fresh.
    + rewrite IH; [now rewrite <- app_assoc| |exact Hr].
      rewrite map_app, <- app_assoc. exact Hd.
    + intros Hin. apply NoDup_remove_2 in Hd. apply Hd.
      apply in_or_app. now left.
Qed.

Lemma build_representable (v : JsVal) :
  representable v = true -> JSON.build v = v.
Proof.
  induction v as [| |b|n|m k|s|items IH|fields IH] using JsVal_nested_ind;
    intros Hv; try reflexivity.
  - cbn [JSON.build representable] in *. f_equal.
    induction items as [|x xs IHxs]; [reflexivity|].
    inversion IH as [|? ? Hx Hr]; subst.
    cbn [forallb] in Hv. apply andb_true_iff in Hv. destruct Hv as [Rx Rr].
    cbn [map]. now rewrite (Hx Rx), (IHxs Hr Rr).
  - destruct (representable_obj _ Hv) as [Hk Hr].
    cbn [JSON.build]. f_equal.
    rewrite fold_obj_set; [reflexivity| |].
    + apply keys_unique_NoDup. exact Hk.
    + clear Hk Hv. induction fields as [|kv fs IHfs]; constructor;
        inversion IH as [|? ? Hx Hrest]; subst;
        cbn [forallb] in Hr; apply andb_true_iff in Hr;
        destruct Hr as [Rx Rr]; auto.
Qed.

(** ** The text is at least as long as the value is large *)

Lemma length_join (sep : string) (parts : list string) :
  (1 <= String.length sep)%nat ->
  (lengths parts <= S (String.length (JSON.join sep parts)))%nat.
Proof.
  intros Hs.
  induction parts as [|t [|u rest] IH]; cbn [lengths fold_right].
  - lia.
  - cbn [JSON.join]. lia.
  - change (JSON.join sep (t :: u :: rest))
      with (t ++ sep ++ JSON.join sep (u :: rest)).
    rewrite !length_append. cbn [lengths fold_right] in IH. lia.
Qed.

Lemma length_bracket (open : ascii) (close ind : string)
  (parts : list string) :
  (S (lengths parts)
   <= String.length (JSON.bracket (String open "") close ind parts))%nat.
Proof.
  unfold JSON.bracket.
  destruct parts as [|t ts].
  - cbn. lia.
  - set (sep := "," ++ JSON.nl ++ ind ++ JSON.gap).
    pose proof (length_join sep (t :: ts)) as Hj.
    assert (1 <= String.length sep)%nat by (subst sep; cbn; lia).
    specialize (Hj H).
    cbn [append String.length]. rewrite !length_append.
    cbn [String.length JSON.nl]. lia.
Qed.

Lemma length_member (ind k : string) (v : JsVal) :
  (String.length (text ind v) <= String.length (member_text ind (k, v)))%nat.
Proof.
  unfold member_text. cbn [fst snd]. rewrite !length_append. lia.
Qed.

Lemma length_text (v : JsVal) (ind : string) :
  representable v = true -> (size v <= String.length (text ind v))%nat.
Proof.
  revert ind.
  induction v as [| |b|n|m k|s|items IH|fields IH] using JsVal_nested_ind;
    intros ind Hv; try discriminate.
  - cbn. lia.
  - destruct b; cbn; lia.
  - destruct n as [|z]; [discriminate|].
    destruct (number_head z) as (c & r & E & _).
    unfold text. cbn [JSON.ser JSON.num_to_json size]. rewrite E. cbn. lia.
  - cbn. lia.
  - rewrite text_arr, size_arr.
    etransitivity; [|apply length_bracket]. apply le_n_S.
    cbn [representable] in Hv. clear - IH Hv.
    induction items as [|x xs IHxs]; [cbn; lia|].
    inversion IH as [|? ? Hx Hr]; subst.
    cbn [forallb] in Hv. apply andb_true_iff in Hv. destruct Hv as [Rx Rr].
    cbn [map sizes lengths fold_right].
    specialize (Hx (ind ++ JSON.gap) Rx). specialize (IHxs Hr Rr).
    unfold sizes, lengths in IHxs. lia.
  - destruct (representable_obj _ Hv) as [_ Hr].
    rewrite text_obj by exact Hr. rewrite size_obj.
    etransitivity; [|apply length_bracket]. apply le_n_S.
    clear - IH Hr.
    induction fields as [|[k x] xs IHxs]; [cbn; lia|].
    inversion IH as [|? ? Hx Hrest]; subst.
    cbn [forallb snd] in Hr, Hx. apply andb_true_iff in Hr.
    destruct Hr as [Rx Rr].
    cbn [map field_sizes lengths fold_right snd].
    specialize (Hx (ind ++ JSON.gap) Rx). specialize (IHxs Hrest Rr).
    unfold field_sizes, lengths in IHxs.
    pose proof (length_member (ind ++ JSON.gap) k x). lia.
Qed.

(** [JSON.parse(JSON.stringify(v, null, 2))] is [v] for every
    representable [v]. *)
Theorem parse_stringify (v : JsVal) :
  representable v = true ->
  exists t, JSON.stringify v = Some t /\ JSON.parse t = Some v.
Proof.
  intros Hv. exists (text "" v). split.
  - apply ser_defined. exact Hv.
  - unfold JSON.parse.
    pose proof (parse_value_text v Hv "" ""
                  (S (String.length (text "" v))) eq_refl) as Hp.
    rewrite append_nil_r in Hp. rewrite Hp.
    + cbn [JSON.skip_ws]. now rewrite build_representable.
    + now left.
    + pose proof (length_text v "" Hv). lia.
Qed.

(* ------------------------------------------------------------------ *)
(** * Export, then import *)
(* ------------------------------------------------------------------ *)

Lemma importJSON_exportJSON_bundle (b before : Bundle) :
  representable (Bundle_obj b) = true ->
  truthy (b_projects b) = true ->
  truthy (b_sessions b) = true ->
  truthy (b_ideas b) = true ->
  truthy (b_dailyGoal b) = true ->
  importJSON (exportJSON b) before = (b, "Data imported").
Proof.
  intros Hr Hp Hs Hi Hg.
  destruct (parse_stringify _ Hr) as (t & Ht & Hparse).
  unfold exportJSON, importJSON. rewrite Ht, Hparse.
  destruct b as [p s i g]. cbn in *. unfold or_else.
  now rewrite Hp, Hs, Hi, Hg.
Qed.

Lemma representable_strings (l : list string) :
  forallb representable (map JStr l) = true.
Proof. induction l; [reflexivity|exact IHl]. Qed.

Lemma representable_Project (p : Project.t) :
  is_int (Project.targetWords p) = true ->
  representable (Project_js p) = true.
Proof.
  destruct p as [id title [d|] [|tw] [dl|] st created [a|]];
    intros H; try discriminate; reflexivity.
Qed.

Lemma representable_Session (s : Session.t) :
  is_int (Session.minutes s) && is_int (Session.words s) = true ->
  representable (Session_js s) = true.
Proof.
  destruct s as [id [pid|] date [|m] [|w] [n|]];
    intros H; try discriminate; reflexivity.
Qed.

Lemma representable_Idea (i : Idea.t) : representable (Idea_js i) = true.
Proof.
  destruct i as [id txt tags [pid|] created [p|]];
    cbn; now rewrite representable_strings.
Qed.

Lemma forallb_map_impl {A B} (f : A -> B) (p : A -> bool) (q : B -> bool)
  (l : list A) :
  (forall a, p a = true -> q (f a) = true) ->
  forallb p l = true -> forallb q (map f l) = true.
Proof.
  intros H. induction l as [|a l IH]; cbn; [reflexivity|].
  intros Hl. apply andb_true_iff in Hl. destruct Hl as [Ha Hl].
  now rewrite (H a Ha), (IH Hl).
Qed.

Lemma representable_State (st : State) :
  State_representable st = true ->
  representable (Bundle_obj (State_js st)) = true.
Proof.
  unfold State_representable. intros H.
  apply andb_true_iff in H. destruct H as [H Hg].
  apply andb_true_iff in H. destruct H as [Hp Hs].
  cbn [Bundle_obj State_js b_projects b_sessions b_ideas b_dailyGoal
         representable map fst snd forallb].
  rewrite (forallb_map_impl Project_js _ representable _
             representable_Project Hp).
  rewrite (forallb_map_impl Session_js _ representable _
             representable_Session Hs).
  rewrite (forallb_map_impl Idea_js (fun _ => true) representable (ideas st)).
  - destruct (dailyGoal st); [discriminate|reflexivity].
  - intros i _. apply representable_Idea.
  - now induction (ideas st).
Qed.





(* ------------------------------------------------------------------ *)
(** * Compact JSON: what [saveStore] writes is read back *)
(* ------------------------------------------------------------------ *)

Lemma ser_compact_arr (items : list JsVal) :
  JSON.ser_compact (JArr items)
  = Some ("[" ++ JSON.join "," (map text_compact items) ++ "]").
Proof. reflexivity. Qed.

Lemma ser_compact_defined (v : JsVal) :
  representable v = true -> JSON.ser_compact v = Some (text_compact v).
Proof.
  unfold text_compact. destruct (JSON.ser_compact v) eqn:E; [reflexivity|].
  destruct v as [| |[|]|n|m k|s|items|fields]; discriminate.
Qed.

Lemma ser_compact_obj (fields : list (string * JsVal)) :
  forallb (fun kv => representable (snd kv)) fields = true ->
  JSON.ser_compact (JObj fields)
  = Some ("{" ++ JSON.join "," (map member_compact fields) ++ "}").
Proof.
  intros H. cbn [JSON.ser_compact]. do 4 f_equal.
  induction fields as [|[k x] r IH]; [reflexivity|].
  cbn [forallb snd] in H. apply andb_true_iff in H. destruct H as [Hx Hr].
  cbn [map]. rewrite <- (IH Hr).
  rewrite (ser_compact_defined x Hx). reflexivity.
Qed.

Lemma text_compact_arr (items : list JsVal) :
  text_compact (JArr items)
  = "[" ++ JSON.join "," (map text_compact items) ++ "]".
Proof. reflexivity. Qed.

Lemma text_compact_obj (fields : list (string * JsVal)) :
  forallb (fun kv => representable (snd kv)) fields = true ->
  text_compact (JObj fields)
  = "{" ++ JSON.join "," (map member_compact fields) ++ "}".
Proof. intros H. unfold text_compact at 1. now rewrite ser_compact_obj. Qed.

Lemma text_compact_head (v : JsVal) :
  representable v = true ->
  exists c r, text_compact v = String c r /\ opens_value c.
Proof.
  intros Hv.
  destruct v as [| |[|]|[|z]|m k|s|items|fields]; try discriminate;
    try (eexists _, _; split; [reflexivity|];
         repeat split; discriminate).
  - destruct (number_head z) as (c & r & E & Hc).
    exists c, r. split; [exact E|now apply digit_opens].
Qed.

(** The text of a non-empty compact bracket, followed by [rest]. *)
Lemma compact_cons (open : ascii) (close rest t : string) (ts : list string) :
  (String open "" ++ JSON.join "," (t :: ts) ++ close) ++ rest
  = String open (joined "," (close ++ rest) (t :: ts)).
Proof.
  rewrite <- joined_join by discriminate.
  cbn [append]. f_equal. now rewrite !append_assoc.
Qed.

Lemma closed_comma (tail : string) : closed ("," ++ tail).
Proof. right. eexists _, _. split; [reflexivity|now left]. Qed.

Lemma closed_bracket (tail : string) : closed ("]" ++ tail).
Proof. right. eexists _, _. split; [reflexivity|right; now left]. Qed.

Lemma closed_brace (tail : string) : closed ("}" ++ tail).
Proof. right. eexists _, _. split; [reflexivity|right; now right]. Qed.

Lemma parse_elems_compact (rest : string) (items : list JsVal) :
  items <> [] ->
  Forall (fun v => representable v = true -> reads_back_compact v) items ->
  forallb representable items = true ->
  forall f : nat,
    (sizes items <= f)%nat ->
    JSON.parse_elems f
      (joined "," ("]" ++ rest) (map text_compact items))
    = Some (items, rest).
Proof.
  intros Hne HP Hrep.
  induction items as [|x [|y ys] IH]; [congruence| |];
    intros f Hf;
    cbn [sizes fold_right] in Hf;
    (destruct f as [|f]; [lia|]);
    inversion HP as [|? ? Hx HPr]; subst;
    cbn [forallb] in Hrep; apply andb_true_iff in Hrep;
    destruct Hrep as [Rx Rr];
    rewrite parse_elems_S.
  - cbn [map joined].
    rewrite (Hx Rx); [|apply closed_bracket|lia].
    reflexivity.
  - change (map text_compact (x :: y :: ys))
      with (text_compact x :: map text_compact (y :: ys)).
    set (tl := map text_compact (y :: ys)) in *.
    assert (Htl : exists u us, tl = u :: us) by (eexists _, _; reflexivity).
    destruct Htl as (u & us & Etl).
    assert (Ej : forall sep closing t,
               joined sep closing (t :: tl)
               = t ++ sep ++ joined sep closing tl).
    { intros. rewrite Etl. reflexivity. }
    rewrite Ej.
    rewrite (Hx Rx); [|apply closed_comma|lia].
    change ("," ++ ?t) with (String "," t).
    cbn [JSON.skip_ws]. change (JSON.is_json_ws ",") with false.
    cbv iota.
    rewrite (IH ltac:(discriminate) HPr Rr f); [reflexivity|].
    cbn [sizes fold_right] in *. lia.
Qed.

Lemma member_compact_layout (tail : string) (k : string) (v : JsVal) :
  member_compact (k, v) ++ tail
  = String JSON.dquote
      (JSON.escape_all k
         ++ String JSON.dquote (String ":" (text_compact v ++ tail))).
Proof.
  unfold member_compact, JSON.quote. cbn [fst snd append].
  rewrite !append_assoc. reflexivity.
Qed.

Lemma parse_members_compact (rest : string)
  (fields : list (string * JsVal)) :
  fields <> [] ->
  Forall (fun kv => representable (snd kv) = true
                    -> reads_back_compact (snd kv)) fields ->
  forallb (fun kv => representable (snd kv)) fields = true ->
  forall f : nat,
    (field_sizes fields <= f)%nat ->
    JSON.parse_members f
      (joined "," ("}" ++ rest) (map member_compact fields))
    = Some (fields, rest).
Proof.
  intros Hne HP Hrep.
  induction fields as [|[k x] [|y ys] IH]; [congruence| |];
    intros f Hf;
    cbn [field_sizes fold_right snd] in Hf;
    (destruct f as [|f]; [lia|]);
    inversion HP as [|? ? Hx HPr]; subst;
    cbn [forallb snd] in Hrep, Hx; apply andb_true_iff in Hrep;
    destruct Hrep as [Rx Rr].
  - cbn [map joined].
    rewrite member_compact_layout, parse_members_S, parse_chars_escape_all.
    cbn [JSON.skip_ws]. change (JSON.is_json_ws ":") with false. cbv iota.
    rewrite (Hx Rx); [|apply closed_brace|lia].
    reflexivity.
  - change (map member_compact ((k, x) :: y :: ys))
      with (member_compact (k, x) :: map member_compact (y :: ys)).
    set (tl := map member_compact (y :: ys)) in *.
    assert (Htl : exists u us, tl = u :: us) by (eexists _, _; reflexivity).
    destruct Htl as (u & us & Etl).
    assert (Ej : forall sep closing t,
               joined sep closing (t :: tl)
               = t ++ sep ++ joined sep closing tl).
    { intros. rewrite Etl. reflexivity. }
    rewrite Ej.
    rewrite member_compact_layout, parse_members_S, parse_chars_escape_all.
    cbn [JSON.skip_ws]. change (JSON.is_json_ws ":") with false. cbv iota.
    rewrite (Hx Rx); [|apply closed_comma|lia].
    change ("," ++ ?t) with (String "," t).
    cbn [JSON.skip_ws]. change (JSON.is_json_ws ",") with false.
    cbv iota.
    rewrite (IH ltac:(discriminate) HPr Rr f); [reflexivity|].
    cbn [field_sizes fold_right] in *. lia.
Qed.

Lemma parse_value_compact (v : JsVal) :
  representable v = true -> reads_back_compact v.
Proof.
  induction v as [| |b|n|m k|s|items IH|fields IH] using JsVal_nested_ind;
    intros Hv rest fuel Hrest Hfuel;
    try discriminate;
    (destruct fuel as [|f]; [cbn in Hfuel; lia|]).
  - reflexivity.
  - destruct b; reflexivity.
  - destruct n as [|z]; [discriminate|].
    now apply parse_value_number, closed_ends_number.
  - change (text_compact (JStr s) ++ rest)
      with (String JSON.dquote
              ((JSON.escape_all s ++ String JSON.dquote "") ++ rest)).
    rewrite append_assoc, parse_value_str.
    cbn [append]. now rewrite parse_chars_escape_all.
  - rewrite text_compact_arr. rewrite size_arr in Hfuel.
    destruct items as [|x xs]; [reflexivity|].
    cbn [map]. rewrite compact_cons, parse_value_arr.
    cbn [representable forallb] in Hv.
    assert (Rx : representable x = true) by now apply andb_true_iff in Hv.
    destruct (joined_head "," ("]" ++ rest) (text_compact x)
                (map text_compact xs)) as (tail & Etail).
    destruct (text_compact_head x Rx) as (c & r & Ec & Hc).
    assert (Hcl : JSON.closes "]"
                    (joined "," ("]" ++ rest)
                       (text_compact x :: map text_compact xs)) = None).
    { rewrite Etail, Ec. apply closes_opens; [exact Hc|now left]. }
    rewrite Hcl.
    change (text_compact x :: map text_compact xs)
      with (map text_compact (x :: xs)).
    rewrite (parse_elems_compact rest (x :: xs)); auto;
      try discriminate; lia.
  - destruct (representable_obj _ Hv) as [Hk Hr].
    rewrite text_compact_obj by exact Hr. rewrite size_obj in Hfuel.
    destruct fields as [|[k x] xs]; [reflexivity|].
    cbn [map]. rewrite compact_cons, parse_value_obj.
    destruct (joined_head "," ("}" ++ rest) (member_compact (k, x))
                (map member_compact xs)) as (tail & Etail).
    assert (Hcl : JSON.closes "}"
                    (joined "," ("}" ++ rest)
                       (member_compact (k, x) :: map member_compact xs))
                  = None).
    { rewrite Etail. reflexivity. }
    rewrite Hcl.
    change (member_compact (k, x) :: map member_compact xs)
      with (map member_compact ((k, x) :: xs)).
    rewrite (parse_members_compact rest ((k, x) :: xs)); auto;
      try discriminate; lia.
Qed.

Lemma length_member_compact (k : string) (v : JsVal) :
  (String.length (text_compact v)
   <= String.length (member_compact (k, v)))%nat.
Proof.
  unfold member_compact. cbn [fst snd]. rewrite !length_append. lia.
Qed.

Lemma length_compact_bracket (open close : ascii) (parts : list string) :
  (S (lengths parts)
   <= String.length (String open "" ++ JSON.join "," parts
                       ++ String close ""))%nat.
Proof.
  destruct parts as [|t ts].
  - cbn. lia.
  - pose proof (length_join "," (t :: ts) ltac:(cbn; lia)) as Hj.
    cbn [append String.length] in *. rewrite !length_append.
    cbn [String.length]. lia.
Qed.

Lemma length_text_compact (v : JsVal) :
  representable v = true -> (size v <= String.length (text_compact v))%nat.
Proof.
  induction v as [| |b|n|m k|s|items IH|fields IH] using JsVal_nested_ind;
    intros Hv; try discriminate.
  - cbn. lia.
  - destruct b; cbn; lia.
  - destruct n as [|z]; [discriminate|].
    destruct (number_head z) as (c & r & E & _).
    unfold text_compact.
    cbn [JSON.ser_compact JSON.num_to_json size]. rewrite E. cbn. lia.
  - cbn. lia.
  - rewrite text_compact_arr, size_arr.
    etransitivity;
      [|exact (length_compact_bracket "[" "]" (map text_compact items))].
    apply le_n_S.
    cbn [representable] in Hv. clear - IH Hv.
    induction items as [|x xs IHxs]; [cbn; lia|].
    inversion IH as [|? ? Hx Hr]; subst.
    cbn [forallb] in Hv. apply andb_true_iff in Hv. destruct Hv as [Rx Rr].
    cbn [map sizes lengths fold_right].
    specialize (Hx Rx). specialize (IHxs Hr Rr).
    unfold sizes, lengths in IHxs. lia.
  - destruct (representable_obj _ Hv) as [_ Hr].
    rewrite text_compact_obj by exact Hr. rewrite size_obj.
    etransitivity;
      [|exact (length_compact_bracket "{" "}" (map member_compact fields))].
    apply le_n_S.
    clear - IH Hr.
    induction fields as [|[k x] xs IHxs]; [cbn; lia|].
    inversion IH as [|? ? Hx Hrest]; subst.
    cbn [forallb snd] in Hr, Hx. apply andb_true_iff in Hr.
    destruct Hr as [Rx Rr].
    cbn [map field_sizes lengths fold_right snd].
    specialize (Hx Rx). specialize (IHxs Hrest Rr).
    unfold field_sizes, lengths in IHxs.
    pose proof (length_member_compact k x). lia.
Qed.

(** [JSON.parse(JSON.stringify(v))] is [v] for every representable [v]. *)
Lemma parse_stringify_compact (v : JsVal) :
  representable v = true ->
  exists t, JSON.stringify_compact v = Some t /\ JSON.parse t = Some v.
Proof.
  intros Hv. exists (text_compact v). split.
  - apply ser_compact_defined. exact Hv.
  - unfold JSON.parse.
    pose proof (parse_value_compact v Hv ""
                  (S (String.length (text_compact v)))) as Hp.
    rewrite append_nil_r in Hp. rewrite Hp.
    + cbn [JSON.skip_ws]. now rewrite build_representable.
    + now left.
    + pose proof (length_text_compact v Hv). lia.
Qed.

(* ------------------------------------------------------------------ *)
(** * What JSON keeps of a value *)
(* ------------------------------------------------------------------ *)

Lemma ser_some (ind : string) (v : JsVal) :
  v <> JUndefined -> JSON.ser ind v = Some (text ind v).
Proof.
  unfold text. destruct v as [| |[|]|n|m k|s|items|fields];
    intros H; try reflexivity. congruence.
Qed.

Lemma jsonify_defined (v : JsVal) : jsonify v <> JUndefined.
Proof. destruct v as [| |b|[|z]|m k|s|items|fields]; discriminate. Qed.

Lemma ser_members (ind : string) (fields : list (string * JsVal)) :
  JSON.ser ind (JObj fields)
  = Some (JSON.bracket "{" "}" ind (member_texts (ind ++ JSON.gap) fields)).
Proof.
  cbn [JSON.ser]. do 2 f_equal.
  induction fields as [|[k x] r IH]; [reflexivity|].
  cbn [member_texts]. rewrite <- IH. reflexivity.
Qed.

Lemma jsonify_obj (fields : list (string * JsVal)) :
  jsonify (JObj fields) = JObj (kept_members fields).
Proof. reflexivity. Qed.

Lemma member_texts_kept (ind : string) (fields : list (string * JsVal)) :
  Forall (fun kv => forall i, text i (jsonify (snd kv)) = text i (snd kv))
         fields ->
  member_texts ind (kept_members fields) = member_texts ind fields.
Proof.
  induction fields as [|[k x] r IH]; intros H; [reflexivity|].
  inversion H as [|? ? Hx Hr]; subst. cbn [snd] in Hx.
  specialize (IH Hr).
  destruct x as [| |b|n|m q|s|items|fs];
    try (cbn [kept_members member_texts];
         rewrite (ser_some ind (jsonify _) (jsonify_defined _)), Hx;
         rewrite ser_some by discriminate; now rewrite IH).
  exact IH.
Qed.

(** Writing a value and writing what JSON keeps of it give the same
    text. *)
Lemma text_jsonify (v : JsVal) :
  forall ind, text ind (jsonify v) = text ind v.
Proof.
  induction v as [| |b|n|m k|s|items IH|fields IH] using JsVal_nested_ind;
    intros ind; try reflexivity.
  - destruct n; reflexivity.
  - cbn [jsonify]. rewrite !text_arr. f_equal.
    rewrite map_map. apply map_ext_Forall.
    eapply Forall_impl; [|exact IH]. intros x Hx. apply Hx.
  - rewrite jsonify_obj. unfold text. rewrite !ser_members.
    now rewrite member_texts_kept.
Qed.

Lemma kept_members_keys (k : string) (fields : list (string * JsVal)) :
  existsb (String.eqb k) (map fst (kept_members fields)) = true ->
  existsb (String.eqb k) (map fst fields) = true.
Proof.
  induction fields as [|[k' x] r IH]; [discriminate|].
  cbn [map fst existsb].
  destruct x; cbn [kept_members map fst existsb]; intros H;
    try (apply orb_true_iff in H; destruct H as [H|H];
         apply orb_true_iff; [now left|right; now apply IH]).
  apply orb_true_iff. right. now apply IH.
Qed.

Lemma kept_members_unique (fields : list (string * JsVal)) :
  keys_unique (map fst fields) = true ->
  keys_unique (map fst (kept_members fields)) = true.
Proof.
  induction fields as [|[k x] r IH]; [reflexivity|].
  cbn [map fst keys_unique]. intros H.
  apply andb_true_iff in H. destruct H as [Hk Hr].
  specialize (IH Hr).
  assert (Hn : negb (existsb (String.eqb k) (map fst (kept_members r)))
               = true).
  { apply negb_true_iff. apply negb_true_iff in Hk.
    destruct (existsb (String.eqb k) (map fst (kept_members r))) eqn:E;
      [|reflexivity].
    apply kept_members_keys in E. congruence. }
  destruct x; cbn [kept_members map fst keys_unique];
    try (now rewrite Hn, IH).
  exact IH.
Qed.

Lemma representable_jsonify (v : JsVal) :
  well_formed v = true -> representable (jsonify v) = true.
Proof.
  induction v as [| |b|n|m k|s|items IH|fields IH] using JsVal_nested_ind;
    intros Hv; try reflexivity; try discriminate.
  - destruct n; reflexivity.
  - cbn [jsonify representable well_formed] in *.
    induction items as [|x xs IHxs]; [reflexivity|].
    inversion IH as [|? ? Hx Hr]; subst.
    cbn [forallb] in Hv. apply andb_true_iff in Hv. destruct Hv as [Wx Wr].
    cbn [map forallb]. now rewrite (Hx Wx), (IHxs Hr Wr).
  - rewrite jsonify_obj. cbn [representable well_formed] in *.
    apply andb_true_iff in Hv. destruct Hv as [Hk Hw].
    rewrite (kept_members_unique _ Hk). cbn [andb].
    clear Hk. induction fields as [|[k x] r IHr]; [reflexivity|].
    inversion IH as [|? ? Hx Hr]; subst. cbn [snd] in Hx.
    cbn [forallb snd] in Hw. apply andb_true_iff in Hw.
    destruct Hw as [Wx Wr]. specialize (IHr Hr Wr). specialize (Hx Wx).
    destruct x; cbn [kept_members forallb snd]; try (now rewrite Hx, IHr).
    exact IHr.
Qed.

(** [JSON.parse(JSON.stringify(v, null, 2))] is what JSON keeps of [v]. *)
Lemma parse_stringify_jsonify (v : JsVal) :
  well_formed v = true -> v <> JUndefined ->
  exists t, JSON.stringify v = Some t /\ JSON.parse t = Some (jsonify v).
Proof.
  intros Hw Hv.
  destruct (parse_stringify _ (representable_jsonify v Hw)) as (t & Ht & Hp).
  exists t. split; [|exact Hp].
  unfold JSON.stringify in *.
  rewrite ser_some in Ht by apply jsonify_defined.
  rewrite ser_some by exact Hv. now rewrite <- (text_jsonify v "").
Qed.

(* ------------------------------------------------------------------ *)
(** * The local slot *)
(* ------------------------------------------------------------------ *)

Lemma saveStore_text (v : JsVal) :
  representable v = true ->
  saveStore v = text_compact v /\ JSON.parse (text_compact v) = Some v.
Proof.
  intros Hv. destruct (parse_stringify_compact v Hv) as (t & Ht & Hp).
  unfold saveStore. rewrite Ht.
  unfold JSON.stringify_compact in Ht.
  rewrite (ser_compact_defined v Hv) in Ht. injection Ht as <-.
  now split.
Qed.

Lemma loadStore_saveStore (fields : list (string * JsVal)) :
  representable (JObj fields) = true ->
  loadStore (Some (saveStore (JObj fields))) = JObj fields.
Proof.
  intros Hv. destruct (saveStore_text _ Hv) as [-> Hp].
  unfold loadStore, str_or.
  rewrite text_compact_obj by apply (representable_obj _ Hv).
  cbn [append String.eqb].
  rewrite text_compact_obj in Hp by apply (representable_obj _ Hv).
  cbn [append] in Hp. now rewrite Hp.
Qed.

Lemma State_representable_goal (st : State) :
  State_representable st = true -> exists g, dailyGoal st = Int g.
Proof.
  unfold State_representable. intros H.
  apply andb_true_iff in H. destruct H as [_ Hg].
  destruct (dailyGoal st) as [|g]; [discriminate|now exists g].
Qed.



(* ------------------------------------------------------------------ *)
(** * Export and import, in general *)
(* ------------------------------------------------------------------ *)

Lemma kept_members_cons (k : string) (x : JsVal)
  (r : list (string * JsVal)) :
  kept_members ((k, x) :: r)
  = if is_undefined x then kept_members r
    else (k, jsonify x) :: kept_members r.
Proof. destruct x; reflexivity. Qed.

Lemma or_else_jsonify_undefined (x d : JsVal) :
  is_undefined x = true -> or_else (jsonify x) d = d.
Proof. destruct x; try discriminate. reflexivity. Qed.

(** X2.  An export is always accepted by import.  For every bundle whose
    values are well formed, importing the text that export wrote announces
    "Data imported" and sets each of the four values to what JSON keeps of
    it ([undefined] and NaN become [null], members that are [undefined]
    are dropped), or to its default when that is falsy. *)
Theorem export_then_import (b before : Bundle) :
  well_formed (Bundle_obj b) = true ->
  importJSON (exportJSON b) before
  = ({| b_projects := or_else (jsonify (b_projects b)) (JArr []);
        b_sessions := or_else (jsonify (b_sessions b)) (JArr []);
        b_ideas := or_else (jsonify (b_ideas b)) (JArr []);
        b_dailyGoal := or_else (jsonify (b_dailyGoal b)) (JNum (Int 500)) |},
     "Data imported").
Proof.
  intros Hw.
  destruct (parse_stringify_jsonify (Bundle_obj b) Hw ltac:(discriminate))
    as (t & Ht & Hp).
  unfold exportJSON, importJSON. rewrite Ht, Hp.
  unfold Bundle_obj. rewrite jsonify_obj, !kept_members_cons.
  destruct b as [p s i g]. cbn [b_projects b_sessions b_ideas b_dailyGoal].
  destruct (is_undefined p) eqn:Ep, (is_undefined s) eqn:Es,
    (is_undefined i) eqn:Ei, (is_undefined g) eqn:Eg;
    cbn;
    rewrite ?(or_else_jsonify_undefined p) by exact Ep;
    rewrite ?(or_else_jsonify_undefined s) by exact Es;
    rewrite ?(or_else_jsonify_undefined i) by exact Ei;
    rewrite ?(or_else_jsonify_undefined g) by exact Eg;
    reflexivity.
Qed.

Lemma export_then_import_witness :
  well_formed (Bundle_obj (State_js nan_state)) = true
  /\ importJSON (exportJSON (State_js nan_state)) Cloud.empty_bundle
     = ({| b_projects := JArr [];
           b_sessions :=
             JArr [JObj [("date", JStr "2024-03-02");
                         ("minutes", JNum (Int 25));
                         ("words", JNull); ("id", JStr "s1")]];
           b_ideas := JArr [];
           b_dailyGoal := JNum (Int 500) |},
        "Data imported").
Proof.
  split; [reflexivity|].
  exact (export_then_import (State_js nan_state) Cloud.empty_bundle eq_refl).
Defined.

Lemma read_bundle_scalar (d : JsVal) :
  d <> JUndefined -> d <> JNull -> (forall fs, d <> JObj fs) ->
  read_bundle d = Ok Cloud.empty_bundle.
Proof.
  intros Hu Hn Ho.
  destruct d as [| |b|n|m k|s|items|fs]; try congruence; try reflexivity.
Qed.


Example importJSON_array_wipes :
  importJSON "[]" (State_js example_state)
  = (Cloud.empty_bundle, "Data imported")
  /\ importJSON "{projects: []}" (State_js example_state)
     = (State_js example_state, "Invalid file").
Proof. split; reflexivity. Qed.

(* ------------------------------------------------------------------ *)
(** * ProjectSelect *)
(* ------------------------------------------------------------------ *)

Lemma get_archived (p : Project.t) :
  get (Project_js p) "archived"
  = Ok (match Project.archived p with
        | Some a => JBool a
        | None => JUndefined
        end).
Proof.
  destruct p as [id title [d|] tw [dl|] st created [a|]]; reflexivity.
Qed.

Lemma filter_not_archived_projects (ps : list Project.t) :
  filter_not_archived (map Project_js ps) = Ok (map Project_js (active ps)).
Proof.
  induction ps as [|p ps IH]; [reflexivity|].
  cbn [map filter_not_archived]. rewrite get_archived, IH.
  unfold active. cbn [bind filter]. unfold not_archived.
  destruct (Project.archived p) as [[|]|]; reflexivity.
Qed.

Lemma select_items_projects (ps : list Project.t) :
  select_items (map Project_js ps) = Ok (map select_item ps).
Proof.
  induction ps as [|p ps IH]; [reflexivity|].
  cbn [map select_items]. rewrite IH.
  destruct p as [id title [d|] tw [dl|] st created [a|]]; reflexivity.
Qed.

(** X4.  The project selector of the dialogs reads the local slot.  Once
    [saveStore] has mirrored a state whose numbers are integers, the
    selector offers exactly the projects that are not archived, in their
    order, each by its id and title. *)
Theorem ProjectSelect_after_saveStore (st : State) :
  State_representable st = true ->
  ProjectSelect (Some (saveStore (Bundle_obj (State_js st))))
  = Ok (map select_item (active (projects st))).
Proof.
  intros Hr. unfold ProjectSelect, Bundle_obj.
  rewrite loadStore_saveStore by apply (representable_State st Hr).
  cbn [get lookup String.eqb Ascii.eqb Bool.eqb bind State_js b_projects].
  rewrite filter_not_archived_projects. cbn [bind].
  apply select_items_projects.
Qed.

Lemma ProjectSelect_after_saveStore_witness :
  State_representable example_state = true
  /\ ProjectSelect (Some (saveStore (Bundle_obj (State_js example_state))))
     = Ok [(JStr "p1", JStr "Novel")].
Proof.
  split; [reflexivity|].
  exact (ProjectSelect_after_saveStore example_state eq_refl).
Defined.

(** The selector has the weakness of the start: the stored text [null]
    makes it throw, and so does a [projects] that is not a list.  A slot
    that is absent or is not JSON gives no options. *)
Example ProjectSelect_edges :
  ProjectSelect None = Ok []
  /\ ProjectSelect (Some "{oops") = Ok []
  /\ ProjectSelect (Some "null") = Throw "TypeError"
  /\ ProjectSelect (Some (saveStore (JObj [("projects", JNum (Int 7))])))
     = Throw "TypeError".
Proof. repeat split; reflexivity. Qed.

(* ------------------------------------------------------------------ *)
(** * Sums and the days of the chart *)
(* ------------------------------------------------------------------ *)

Lemma add_NaN_iff (a b : num) : add a b = NaN <-> a = NaN \/ b = NaN.
Proof.
  destruct a, b; cbn; split; intros H; try tauto; try discriminate;
    destruct H; discriminate.
Qed.


Lemma wordsLast14_loop_spec (dayKey dayLabel : nat -> string)
  (ss : list Session.t) (n : nat) (arr : list Bar.t) :
  wordsLast14_loop dayKey dayLabel ss n arr
  = (arr ++ map (bar_of dayKey dayLabel ss) (rev (seq 0 n)))%list.
Proof.
  revert arr. induction n as [|n IH]; intros arr; cbn [wordsLast14_loop].
  - cbn. now rewrite app_nil_r.
  - rewrite IH, seq_S, rev_app_distr, <- app_assoc, sum_on_day.
    reflexivity.
Qed.

Lemma streak_ge_iff (dayKey : nat -> string) (ss : list Session.t)
  (k : nat) :
  (k <= 365)%nat ->
  (Z.of_nat k <= streak dayKey ss
   <-> forall j, (j < k)%nat -> positive_words (words_on (dayKey j) ss)).
Proof.
  intros Hk. unfold streak.
  destruct (streak_loop_spec dayKey ss 365 0 0)
    as (k0 & Hv & Hle & Hpos & Hstop).
  rewrite Hv. cbn [Nat.add] in Hpos, Hstop. split.
  - intros H j Hj. apply Hpos. lia.
  - intros H. destruct (Nat.le_gt_cases k k0) as [|Hlt]; [lia|].
    exfalso. apply Hstop; [lia|]. now apply H.
Qed.


(** ** Logging and the streak *)

Lemma words_on_counts (d : string) (ss : list Session.t) :
  Forall counts_words ss -> exists n, words_on d ss = Int n /\ 0 <= n.
Proof.
  induction 1 as [|s ss (n & Hn & Hpos) _ (m & Hm & Hmpos)].
  - exists 0. split; [reflexivity|lia].
  - cbn [words_on]. destruct (String.eqb (Session.date s) d).
    + exists (n + m). rewrite Hn, Hm. split; [reflexivity|lia].
    + exists m. now split.
Qed.

Lemma streak_loop_ge (dayKey : nat -> string) (ss : list Session.t)
  (n i : nat) (s : Z) :
  s <= streak_loop dayKey ss n i s.
Proof.
  revert i s. induction n as [|n IH]; intros i s; cbn [streak_loop].
  - lia.
  - destruct (gtb _ _); [|lia]. specialize (IH (S i) (s + 1)). lia.
Qed.

Lemma streak_loop_mono (dayKey : nat -> string) (ss ss' : list Session.t)
  (n i : nat) (s : Z) :
  (forall d, positive_words (words_on d ss) ->
             positive_words (words_on d ss')) ->
  streak_loop dayKey ss n i s <= streak_loop dayKey ss' n i s.
Proof.
  intros H. revert i s.
  induction n as [|n IH]; intros i s; cbn [streak_loop]; [lia|].
  rewrite !sum_on_day.
  destruct (gtb (words_on (dayKey i) ss) (Int 0)) eqn:E.
  - apply H in E. unfold positive_words in E. rewrite E. apply IH.
  - destruct (gtb (words_on (dayKey i) ss') (Int 0)); [|lia].
    pose proof (streak_loop_ge dayKey ss' n (S i) (s + 1)). lia.
Qed.



(* ------------------------------------------------------------------ *)
(** * Records by id *)
(* ------------------------------------------------------------------ *)

Section ById.
Context {A : Type} (id_of : A -> string).

Lemma filter_fresh (uid : string) (l : list A) :
  ~ In uid (map id_of l) ->
  filter (fun x => negb (String.eqb (id_of x) uid)) l = l.
Proof.
  induction l as [|x l IH]; cbn [map In filter]; intros H; [reflexivity|].
  destruct (String.eqb_spec (id_of x) uid) as [E|_].
  - exfalso. apply H. now left.
  - cbn [negb]. rewrite IH; [reflexivity|]. intros Hin. apply H. now right.
Qed.

Lemma filter_out_one (x : A) (l : list A) :
  NoDup (map id_of l) -> In x l ->
  Permutation l
    (x :: filter (fun y => negb (String.eqb (id_of y) (id_of x))) l).
Proof.
  induction l as [|y l IH]; cbn [map In filter]; intros Hd Hin; [easy|].
  inversion Hd as [|? ? Hy Hd']; subst.
  destruct Hin as [->|Hin].
  - rewrite String.eqb_refl. cbn [negb].
    now rewrite filter_fresh.
  - destruct (String.eqb_spec (id_of y) (id_of x)) as [E|_].
    + exfalso. apply Hy. rewrite E. now apply in_map.
    + cbn [negb]. rewrite perm_swap. apply perm_skip. now apply IH.
Qed.
End ById.

Lemma state_eta (w : World) :
  {| projects := projects (state w); sessions := sessions (state w);
     ideas := ideas (state w); dailyGoal := dailyGoal (state w) |}
  = state w.
Proof. now destruct w as [[ps ss ids g] ts]. Qed.

(** X8.  Deleting undoes adding when the id is new.  If [uid()] drew an
    id that no stored project (session, idea) carries, then adding a
    record under it and deleting by that id restores the stored projects,
    sessions, ideas and goal exactly. *)
Theorem delete_undoes_add (uid now : string) (p : Project.t)
  (s : Session.t) (i : Idea.t) (w : World) :
  ~ In uid (map Project.id (projects (state w))) ->
  ~ In uid (map Session.id (sessions (state w))) ->
  ~ In uid (map Idea.id (ideas (state w))) ->
  state (removeProject uid (addProject uid now p w)) = state w
  /\ state (deleteSession uid (logSession uid s w)) = state w
  /\ state (deleteIdea uid (addIdea uid now i w)) = state w.
Proof.
  intros Hp Hs Hi.
  repeat split; rewrite <- (state_eta w) at 1; cbn; f_equal.
  - rewrite filter_app, (filter_fresh Project.id) by exact Hp.
    cbn. rewrite String.eqb_refl. apply app_nil_r.
  - rewrite filter_app, (filter_fresh Session.id) by exact Hs.
    cbn. rewrite String.eqb_refl. apply app_nil_r.
  - rewrite String.eqb_refl. cbn.
    now rewrite (filter_fresh Idea.id) by exact Hi.
Qed.

Lemma delete_undoes_add_witness :
  state (removeProject "k9" (addProject "k9" "2024-03-02T10:00:00.000Z"
                               novel (log_all example_calls empty_world)))
  = state (log_all example_calls empty_world)
  /\ state (deleteSession "k9"
              (logSession "k9" (session_of "2024-03-02" 5 10)
                 (log_all example_calls empty_world)))
     = state (log_all example_calls empty_world)
  /\ state (deleteIdea "k9"
              (addIdea "k9" "2024-03-02T10:00:00.000Z"
                 {| Idea.id := ""; Idea.text := "a twist"; Idea.tags := [];
                    Idea.projectId := None; Idea.createdAt := "";
                    Idea.pinned := None |}
                 (log_all example_calls empty_world)))
     = state (log_all example_calls empty_world).
Proof.
  apply delete_undoes_add; cbn; intuition discriminate.
Defined.

(** X9.  Deleting a session lowers the totals by that session alone.
    When the stored sessions carry distinct ids, [deleteSession] with the
    id of a stored session removes that session and no other, so the
    total of words before is the words of that session plus the total
    after, and likewise for the words of each day. *)
Theorem deleteSession_totals (s : Session.t) (w : World) :
  NoDup (map Session.id (sessions (state w))) ->
  In s (sessions (state w)) ->
  let after := sessions (state (deleteSession (Session.id s) w)) in
  Permutation (sessions (state w)) (s :: after)
  /\ totalWords (sessions (state w))
     = add (Session.words s) (totalWords after)
  /\ (forall d, words_on d (sessions (state w))
                = words_on d (s :: after)).
Proof.
  intros Hd Hin after.
  assert (Hp : Permutation (sessions (state w)) (s :: after)).
  { apply (filter_out_one Session.id); assumption. }
  split; [exact Hp|]. split.
  - unfold totalWords. rewrite (sum_perm _ _ _ Hp). apply sum_cons.
  - intros d. now apply words_on_perm.
Qed.

Lemma deleteSession_totals_witness :
  totalWords (sessions (state (log_all example_calls empty_world)))
  = add (Int 250)
      (totalWords
         (sessions
            (state (deleteSession "k2"
                      (log_all example_calls empty_world))))).
Proof.
  refine (proj1 (proj2 (deleteSession_totals
                          (with_id "k2" (session_of "2024-03-01" 45 250))
                          (log_all example_calls empty_world) _ _))).
  - cbn. repeat constructor; cbn; intuition discriminate.
  - cbn. tauto.
Defined.

(* ------------------------------------------------------------------ *)
(** * Archiving and deleting a project *)
(* ------------------------------------------------------------------ *)

Lemma apply_patch_archive_id (p : Project.t) (patch : ProjectPatch) :
  Project.id (apply_patch patch p) = Project.id p.
Proof. reflexivity. Qed.

Lemma find_map_patch (pid id : string) (patch : ProjectPatch)
  (ps : list Project.t) :
  patch_title patch = None ->
  option_map Project.title
    (find (fun p => String.eqb (Project.id p) pid)
       (map (fun p => if String.eqb (Project.id p) id
                      then apply_patch patch p else p) ps))
  = option_map Project.title
      (find (fun p => String.eqb (Project.id p) pid) ps).
Proof.
  intros Ht. induction ps as [|p ps IH]; [reflexivity|].
  cbn [map find].
  destruct (String.eqb (Project.id p) id).
  - cbn [apply_patch Project.id].
    destruct (String.eqb (Project.id p) pid); [|exact IH].
    cbn. now rewrite Ht.
  - destruct (String.eqb (Project.id p) pid); [reflexivity|exact IH].
Qed.

Lemma find_filtered_out (id : string) (ps : list Project.t) :
  find (fun p => String.eqb (Project.id p) id)
    (filter (fun p => negb (String.eqb (Project.id p) id)) ps)
  = None.
Proof.
  induction ps as [|p ps IH]; [reflexivity|].
  cbn [filter]. destruct (String.eqb (Project.id p) id) eqn:E;
    cbn [negb]; [exact IH|].
  cbn [find]. now rewrite E.
Qed.

(** X10.  Archive hides, delete forgets.  After "Archive" the project is
    still stored but no card or selector shows it, the other projects
    stay as they were shown, and the session log names the project as
    before.  After "Delete" every project of that id is gone from the
    store; its sessions stay, and their rows show no project. *)
Theorem archive_and_removeProject (id : string) (w : World) :
  (active (projects (state (archive id w)))
   = filter (fun p => negb (String.eqb (Project.id p) id))
       (active (projects (state w)))
   /\ map Project.id (projects (state (archive id w)))
      = map Project.id (projects (state w))
   /\ forall s, session_project (projects (state (archive id w))) s
                = session_project (projects (state w)) s)
  /\ (projects (state (removeProject id w))
      = filter (fun p => negb (String.eqb (Project.id p) id))
          (projects (state w))
      /\ sessions (state (removeProject id w)) = sessions (state w)
      /\ forall s, Session.projectId s = Some id ->
                   session_project (projects (state (removeProject id w))) s
                   = None).
Proof.
  split; [split; [|split]|split; [|split]].
  - cbn. unfold active.
    induction (projects (state w)) as [|p ps IH]; [reflexivity|].
    cbn [map filter].
    destruct (String.eqb (Project.id p) id) eqn:E.
    + cbn [apply_patch not_archived Project.archived over_opt negb filter].
      rewrite IH. destruct (not_archived p); [|reflexivity].
      cbn [filter]. now rewrite E.
    + rewrite IH. destruct (not_archived p); [|reflexivity].
      cbn [filter]. now rewrite E.
  - cbn. rewrite map_map. apply map_ext. intros p.
    now destruct (String.eqb (Project.id p) id).
  - intros s. unfold session_project.
    destruct (Session.projectId s) as [pid|]; [|reflexivity].
    pose proof (find_map_patch pid id
                  {| patch_title := None; patch_description := None;
                     patch_targetWords := None; patch_deadline := None;
                     patch_status := None; patch_archived := Some true |}
                  (projects (state w)) eq_refl) as H.
    cbn in H |- *.
    destruct (find _ (map _ _)) as [p1|], (find _ (projects (state w)))
      as [p2|]; cbn in H; try discriminate; [|reflexivity].
    injection H as ->. reflexivity.
  - reflexivity.
  - reflexivity.
  - intros s Hs. unfold session_project. rewrite Hs. cbn.
    now rewrite find_filtered_out.
Qed.

(* ------------------------------------------------------------------ *)
(** * The timer over time *)
(* ------------------------------------------------------------------ *)

Lemma second_running (tm : Timer.t) (n : Z) :
  Timer.timerRunning tm = true -> Timer.timerSeconds tm = n -> 1 < n ->
  Timer.second tm
  = {| Timer.timerRunning := true; Timer.timerSeconds := n - 1;
       Timer.customMins := Timer.customMins tm;
       Timer.startSeconds := Timer.startSeconds tm;
       Timer.autoOpenLog := Timer.autoOpenLog tm;
       Timer.customMinsText := Timer.customMinsText tm |}.
Proof.
  intros Hr Hn Hlt. unfold Timer.second, Timer.tick, Timer.expire.
  rewrite Hr, Hn. cbn.
  destruct (Z.leb_spec (n - 1) 0); [lia|reflexivity].
Qed.

Lemma second_last (tm : Timer.t) :
  Timer.timerRunning tm = true -> Timer.timerSeconds tm <= 1 ->
  Timer.second tm
  = {| Timer.timerRunning := false; Timer.timerSeconds := 0;
       Timer.customMins := Timer.customMins tm;
       Timer.startSeconds := Timer.startSeconds tm;
       Timer.autoOpenLog := true;
       Timer.customMinsText := Timer.customMinsText tm |}.
Proof.
  intros Hr Hn. unfold Timer.second, Timer.tick, Timer.expire.
  rewrite Hr. cbn.
  destruct (Z.leb_spec (Timer.timerSeconds tm - 1) 0); [reflexivity|lia].
Qed.

Lemma countdown_running (k : nat) :
  forall (tm : Timer.t) (n : nat),
    Timer.timerRunning tm = true ->
    Timer.timerSeconds tm = Z.of_nat (S n) ->
    (k <= n)%nat ->
    Nat.iter k Timer.second tm
    = {| Timer.timerRunning := true;
         Timer.timerSeconds := Z.of_nat (S n - k);
         Timer.customMins := Timer.customMins tm;
         Timer.startSeconds := Timer.startSeconds tm;
         Timer.autoOpenLog := Timer.autoOpenLog tm;
         Timer.customMinsText := Timer.customMinsText tm |}.
Proof.
  induction k as [|k IH]; intros tm n Hr Hn Hk.
  - change (Nat.iter 0 Timer.second tm) with tm.
    rewrite Nat.sub_0_r, <- Hn, <- Hr. now destruct tm.
  - rewrite Nat.iter_succ, (IH tm n Hr Hn) by lia.
    rewrite (second_running _ (Z.of_nat (S n - k)));
      [|reflexivity|reflexivity|lia].
    cbn [Timer.customMins Timer.startSeconds Timer.autoOpenLog
           Timer.customMinsText].
    f_equal. lia.
Qed.

(** X11.  The countdown.  A running timer with [n + 1] seconds left keeps
    running and loses one second at each of the next [n] ticks, its other
    fields untouched.  The tick after that stops it at 0 and raises
    [autoOpenLog], so that the log dialog is told to open, whether or not
    the checkbox was ticked; later ticks change nothing, since no
    interval is installed any more. *)
Theorem countdown (tm : Timer.t) (n : nat) :
  Timer.timerRunning tm = true ->
  Timer.timerSeconds tm = Z.of_nat (S n) ->
  (forall k, (k <= n)%nat ->
     let tm' := Nat.iter k Timer.second tm in
     Timer.timerRunning tm' = true
     /\ Timer.timerSeconds tm' = Z.of_nat (S n - k)
     /\ Timer.autoOpenLog tm' = Timer.autoOpenLog tm
     /\ Timer.startSeconds tm' = Timer.startSeconds tm)
  /\ (forall k, (n < k)%nat ->
        let tm' := Nat.iter k Timer.second tm in
        Timer.timerRunning tm' = false
        /\ Timer.timerSeconds tm' = 0
        /\ Timer.openExternally tm' = true
        /\ Timer.startSeconds tm' = Timer.startSeconds tm).
Proof.
  intros Hr Hn. split.
  - intros k Hk. cbv zeta. rewrite (countdown_running k tm n Hr Hn Hk).
    cbn. auto.
  - assert (Hend : Nat.iter (S n) Timer.second tm
                   = {| Timer.timerRunning := false;
                        Timer.timerSeconds := 0;
                        Timer.customMins := Timer.customMins tm;
                        Timer.startSeconds := Timer.startSeconds tm;
                        Timer.autoOpenLog := true;
                        Timer.customMinsText := Timer.customMinsText tm |}).
    { rewrite Nat.iter_succ.
      rewrite (countdown_running n tm n Hr Hn) by lia.
      rewrite second_last;
        [reflexivity|reflexivity|cbn [Timer.timerSeconds]; lia]. }
    assert (Hstay : forall j tm1, Timer.timerRunning tm1 = false ->
                      Nat.iter j Timer.second tm1 = tm1).
    { induction j as [|j IH]; intros tm1 H1; [reflexivity|].
      rewrite Nat.iter_succ, IH by exact H1.
      unfold Timer.second. now rewrite H1. }
    intros k Hk. cbv zeta.
    destruct (Nat.le_exists_sub (S n) k Hk) as (j & -> & _).
    rewrite Nat.iter_add, Hend, Hstay by reflexivity.
    cbn. auto.
Qed.

Lemma countdown_witness :
  let tm' := Nat.iter 1 Timer.second last_second in
  Timer.timerRunning tm' = false
  /\ Timer.timerSeconds tm' = 0
  /\ Timer.openExternally tm' = true
  /\ Timer.startSeconds tm' = Timer.startSeconds last_second.
Proof.
  exact (proj2 (countdown last_second 0 eq_refl eq_refl) 1%nat
           (Nat.lt_0_succ 0)).
Defined.

Lemma timer_ok_init : timer_ok Timer.init.
Proof.
  unfold timer_ok. cbn. repeat split; try lia.
  exists 25. split; [lia|reflexivity].
Qed.

Lemma reset_minutes_ge_1 (a : Timer.ResetAction) (tm : Timer.t) :
  1 <= Timer.customMins tm -> 1 <= Timer.reset_minutes a tm.
Proof.
  intros H. destruct a; cbn; try lia.
  unfold Timer.safe_minutes.
  destruct (parseInt10 (Timer.customMinsText tm)); lia.
Qed.

Lemma timer_ok_step (e : Timer.Event) (tm : Timer.t) :
  timer_ok tm -> timer_ok (Timer.step e tm).
Proof.
  intros (Hs & Hc & m & Hm & Hstart).
  destruct e as [| | |a|v|text|]; cbn [Timer.step];
    try (unfold timer_ok; cbn; repeat split; try lia; now exists m).
  - (* Second *)
    unfold Timer.second, Timer.tick, Timer.expire.
    destruct (Timer.timerRunning tm);
      [|unfold timer_ok; repeat split; try lia; now exists m].
    cbn. destruct (Z.leb_spec (Timer.timerSeconds tm - 1) 0);
      unfold timer_ok; cbn; repeat split; try lia; now exists m.
  - (* Click *)
    pose proof (reset_minutes_ge_1 a tm Hc) as Hr.
    assert (Hpos : (Timer.reset_minutes a tm * 60 <=? 0) = false)
      by (apply Z.leb_gt; lia).
    unfold Timer.click, Timer.expire.
    destruct a;
      cbn [Timer.reset_minutes Timer.resetTimer Timer.timerSeconds] in *;
      rewrite Hpos; unfold timer_ok, Timer.resetTimer;
      cbn [Timer.timerSeconds Timer.startSeconds Timer.customMins];
      (split; [lia|]); (split; [lia|]);
      eexists; (split; [|reflexivity]); lia.
Qed.

(** X12.  What the timer never does.  From the first render on, whatever
    the user clicks or types and however long the interval runs, the
    seconds left stay between 0 and the seconds the countdown started
    from, that start is a whole number of minutes and at least one, and
    the custom length stays at least 1. *)
Theorem timer_invariant (es : list Timer.Event) :
  timer_ok (Timer.run es Timer.init).
Proof.
  unfold Timer.run.
  assert (H : forall tm, timer_ok tm ->
                timer_ok (fold_left (fun acc e => Timer.step e acc) es tm)).
  { induction es as [|e es IH]; intros tm Htm; [exact Htm|].
    cbn [fold_left]. apply IH. now apply timer_ok_step. }
  apply H, timer_ok_init.
Qed.

Lemma all_from_spec (f : Z -> bool) (n : nat) (z : Z) :
  all_from f n z = true ->
  forall x, z <= x < z + Z.of_nat n -> f x = true.
Proof.
  revert z. induction n as [|n IH]; intros z H x Hx; [lia|].
  cbn [all_from] in H. apply andb_true_iff in H. destruct H as [Hz Hr].
  destruct (Z.eq_dec x z) as [->|Hne]; [exact Hz|].
  apply (IH (z + 1) Hr). lia.
Qed.

Lemma elapsed_minutes_checked :
  all_from elapsed_minutes_ok (Z.to_nat 6000) 0 = true.
Proof. vm_compute. reflexivity. Qed.

(** X13.  The minutes offered to the log.  While less than 100 minutes
    have run off the countdown, the [defaultMinutes] that the timer card
    passes to its log dialog is the elapsed time rounded to the nearest
    minute, half a minute going up, and 1 where that would be 0. *)
Theorem defaultMinutes_nearest (tm : Timer.t) :
  0 <= Timer.startSeconds tm - Timer.timerSeconds tm < 6000 ->
  Timer.defaultMinutes tm
  = Int (nearest_minute (Timer.startSeconds tm - Timer.timerSeconds tm)).
Proof.
  intros H.
  assert (Hc : elapsed_minutes_ok
                 (Timer.startSeconds tm - Timer.timerSeconds tm) = true)
    by (apply (all_from_spec _ _ _ elapsed_minutes_checked); lia).
  unfold elapsed_minutes_ok in Hc.
  unfold Timer.defaultMinutes, Timer.elapsedMinutes.
  destruct (to_num _) as [|z]; [discriminate|].
  apply Z.eqb_eq in Hc. now rewrite Hc.
Qed.

Lemma defaultMinutes_nearest_witness :
  Timer.defaultMinutes
    {| Timer.timerRunning := true; Timer.timerSeconds := 590;
       Timer.customMins := 25; Timer.startSeconds := 1500;
       Timer.autoOpenLog := false; Timer.customMinsText := "25" |}
  = Int 15.
Proof.
  refine (defaultMinutes_nearest _ _). cbn. lia.
Defined.

(* ------------------------------------------------------------------ *)
(** * The timer card and its log dialog *)
(* ------------------------------------------------------------------ *)

Lemma rerender_same_project (old new : LogSessionDialog.Props)
  (ext ext' : bool) (d : LogSessionDialog.t) :
  LogSessionDialog.defaultProjectId old
  = LogSessionDialog.defaultProjectId new ->
  same_entry d (LogSessionDialog.rerender old new ext ext' d).
Proof.
  intros E. unfold LogSessionDialog.rerender. rewrite E, String.eqb_refl.
  destruct (negb (Bool.eqb ext ext') && ext'); repeat split.
Qed.

Lemma timer_events_keep_entry (es : list Timer.Event) :
  forall (c : FocusCard.t) (w : World),
    let r := FocusCard.run (map FocusCard.OnTimer es) (c, w) in
    snd r = w
    /\ FocusCard.selectedProjectId (fst r) = FocusCard.selectedProjectId c
    /\ FocusCard.timer (fst r) = Timer.run es (FocusCard.timer c)
    /\ same_entry (FocusCard.log c) (FocusCard.log (fst r)).
Proof.
  induction es as [|e es IH]; intros c w; cbv zeta.
  - cbn. repeat split.
  - unfold FocusCard.run, Timer.run in *. cbn [map fold_left].
    set (c1 := FocusCard.render c (Timer.step e (FocusCard.timer c))
                 (FocusCard.selectedProjectId c) (FocusCard.log c)).
    change (FocusCard.step (FocusCard.OnTimer e) (c, w)) with (c1, w).
    destruct (IH c1 w) as (Hw & Hs & Ht & Hd).
    split; [exact Hw|]. split; [exact Hs|]. split; [exact Ht|].
    assert (H1 : same_entry (FocusCard.log c) (FocusCard.log c1))
      by now apply rerender_same_project.
    destruct H1 as (A1 & A2 & A3 & A4 & A5).
    destruct Hd as (B1 & B2 & B3 & B4 & B5).
    repeat split; congruence.
Qed.

Lemma render_idle (c : FocusCard.t) (d : LogSessionDialog.t) :
  FocusCard.render c (FocusCard.timer c) (FocusCard.selectedProjectId c) d
  = {| FocusCard.timer := FocusCard.timer c;
       FocusCard.selectedProjectId := FocusCard.selectedProjectId c;
       FocusCard.log := d |}.
Proof.
  unfold FocusCard.render, LogSessionDialog.rerender.
  cbn [FocusCard.props LogSessionDialog.defaultProjectId].
  now rewrite String.eqb_refl, Bool.eqb_reflx.
Qed.

Lemma save_accepts (props : LogSessionDialog.Props) (uid today : string)
  (d : LogSessionDialog.t) (w : World) (n : Z) :
  LogSessionDialog.words d = Int n -> 0 < n ->
  LogSessionDialog.save props uid today d w
  = ({| LogSessionDialog.open := false;
        LogSessionDialog.projectId := LogSessionDialog.defaultProjectId props;
        LogSessionDialog.date := today;
        LogSessionDialog.minutes := LogSessionDialog.defaultMinutes props;
        LogSessionDialog.words := Int 0;
        LogSessionDialog.notes := "" |},
     logSession uid (LogSessionDialog.payload d) w,
     LogSessionDialog.onCloseExternal props).
Proof.
  intros Hw Hn. unfold LogSessionDialog.save. rewrite Hw.
  replace (leb (Int n) (Int 0)) with false
    by (symmetry; apply Z.leb_gt; exact Hn).
  now rewrite andb_false_r.
Qed.

(** X14.  The minutes of the timer's log dialog are those of the first
    render.  The dialog takes [defaultMinutes] when it is mounted, when
    no time has run off and the value is 1, and does not follow it
    afterwards.  So from the first render on, whatever happens to the
    timer (starting, pausing, any number of seconds, resets), entering
    [n > 0] words and saving logs a session of 1 minute, dated the day of
    the first render and without a project; only then does the dialog
    take the minutes elapsed at that moment, and the day of the save. *)
Theorem timer_log_minutes (today today' uid : string)
  (es : list Timer.Event) (n : Z) (w : World) :
  0 < n ->
  let r := FocusCard.run
             (map FocusCard.OnTimer es
                ++ [FocusCard.EditWords (Z_to_string n);
                    FocusCard.Save uid today'])%list
             (FocusCard.mount today, w) in
  sessions (state (snd r))
  = (sessions (state w)
       ++ [{| Session.id := uid; Session.projectId := None;
              Session.date := today; Session.minutes := Int 1;
              Session.words := Int n; Session.notes := Some "" |}])%list
  /\ LogSessionDialog.minutes (FocusCard.log (fst r))
     = Timer.defaultMinutes (Timer.run es Timer.init)
  /\ LogSessionDialog.date (FocusCard.log (fst r)) = today'.
Proof.
  intros Hn. cbv zeta. unfold FocusCard.run. rewrite fold_left_app.
  fold (FocusCard.run (map FocusCard.OnTimer es) (FocusCard.mount today, w)).
  destruct (timer_events_keep_entry es (FocusCard.mount today) w)
    as (Hw & Hs & Ht & Hp & Hd & Hm & Hwd & Hno).
  destruct (FocusCard.run _ _) as [c w1]. cbn [fst snd] in *. subst w1.
  cbn [FocusCard.mount FocusCard.log FocusCard.timer
         FocusCard.selectedProjectId LogSessionDialog.mount
         LogSessionDialog.projectId LogSessionDialog.date
         LogSessionDialog.minutes LogSessionDialog.notes
         FocusCard.props LogSessionDialog.defaultProjectId
         LogSessionDialog.defaultMinutes] in Hs, Ht, Hp, Hd, Hm, Hno.
  change (Timer.defaultMinutes Timer.init) with (Int 1) in Hm.
  cbn [fold_left].
  change (FocusCard.step (FocusCard.EditWords (Z_to_string n)) (c, w))
    with (FocusCard.render c (FocusCard.timer c)
            (FocusCard.selectedProjectId c)
            (LogSessionDialog.setWords (Z_to_string n) (FocusCard.log c)),
          w).
  rewrite render_idle.
  set (d := LogSessionDialog.setWords (Z_to_string n) (FocusCard.log c)).
  assert (Hwords : LogSessionDialog.words d = Int n)
    by apply number_onChange_Z.
  cbn [FocusCard.step FocusCard.log FocusCard.timer
         FocusCard.selectedProjectId].
  rewrite (save_accepts _ uid today' d w n Hwords Hn).
  cbn [fst snd FocusCard.props LogSessionDialog.onCloseExternal
         LogSessionDialog.defaultMinutes LogSessionDialog.defaultProjectId].
  split; [|split].
  - rewrite logSession_sessions. f_equal.
    unfold LogSessionDialog.payload, with_id, d.
    cbn [LogSessionDialog.setWords LogSessionDialog.projectId
           LogSessionDialog.date LogSessionDialog.minutes
           LogSessionDialog.words LogSessionDialog.notes
           Session.projectId Session.date Session.minutes Session.words
           Session.notes].
    rewrite Hp, Hd, Hm, Hno, number_onChange_Z. reflexivity.
  - match goal with
    | |- LogSessionDialog.minutes
           (FocusCard.log (FocusCard.render ?c0 ?tm ?sel ?d0)) = _ =>
        destruct (rerender_same_project
                    (FocusCard.props (FocusCard.timer c0)
                       (FocusCard.selectedProjectId c0))
                    (FocusCard.props tm sel)
                    (Timer.openExternally (FocusCard.timer c0))
                    (Timer.openExternally tm) d0 eq_refl)
          as (_ & _ & E & _)
    end.
    unfold FocusCard.render. cbn [FocusCard.log]. rewrite E.
    cbn [LogSessionDialog.minutes]. now rewrite Ht.
  - match goal with
    | |- LogSessionDialog.date
           (FocusCard.log (FocusCard.render ?c0 ?tm ?sel ?d0)) = _ =>
        destruct (rerender_same_project
                    (FocusCard.props (FocusCard.timer c0)
                       (FocusCard.selectedProjectId c0))
                    (FocusCard.props tm sel)
                    (Timer.openExternally (FocusCard.timer c0))
                    (Timer.openExternally tm) d0 eq_refl)
          as (_ & E & _)
    end.
    unfold FocusCard.render. cbn [FocusCard.log]. now rewrite E.
Qed.

Lemma timer_log_minutes_witness :
  sessions
    (state
       (snd (FocusCard.run
               (map FocusCard.OnTimer
                  (Timer.Start :: repeat Timer.Second 1500)
                  ++ [FocusCard.EditWords (Z_to_string 400);
                      FocusCard.Save "k1" "2024-03-02"])%list
               (FocusCard.mount "2024-03-02", empty_world))))
  = [{| Session.id := "k1"; Session.projectId := None;
        Session.date := "2024-03-02"; Session.minutes := Int 1;
        Session.words := Int 400; Session.notes := Some "" |}].
Proof.
  refine (proj1 (timer_log_minutes "2024-03-02" "2024-03-02" "k1"
                   (Timer.Start :: repeat Timer.Second 1500) 400
                   empty_world _)).
  lia.
Defined.

(* ------------------------------------------------------------------ *)
(** * trim and split *)
(* ------------------------------------------------------------------ *)

Lemma strip_ws_shorter (s r : string) :
  strip_ws s = Some r -> (String.length r < String.length s)%nat.
Proof.
  destruct s as [|a [|b [|c s]]]; cbn;
    repeat match goal with
           | |- context [if ?b then _ else _] => destruct b
           end;
    intros H; inversion H; subst; cbn; lia.
Qed.

Lemma strip_ws_rev_shorter (s r : string) :
  strip_ws_rev s = Some r -> (String.length r < String.length s)%nat.
Proof.
  destruct s as [|a [|b [|c s]]]; cbn;
    repeat match goal with
           | |- context [if ?b then _ else _] => destruct b
           end;
    intros H; inversion H; subst; cbn; lia.
Qed.

Lemma strip_ws_suffix (s r : string) :
  strip_ws s = Some r -> exists p, s = p ++ r.
Proof.
  destruct s as [|a [|b [|c s]]]; cbn;
    repeat match goal with
           | |- context [if ?b then _ else _] => destruct b
           end;
    intros H; inversion H; subst;
    first [ now exists (String a "")
          | now exists (String a (String b ""))
          | now exists (String a (String b (String c ""))) ].
Qed.

Lemma strip_ws_rev_suffix (s r : string) :
  strip_ws_rev s = Some r -> exists p, s = p ++ r.
Proof.
  destruct s as [|a [|b [|c s]]]; cbn;
    repeat match goal with
           | |- context [if ?b then _ else _] => destruct b
           end;
    intros H; inversion H; subst;
    first [ now exists (String a "")
          | now exists (String a (String b ""))
          | now exists (String a (String b (String c ""))) ].
Qed.

Section StripAll.
Variable strip : string -> option string.
Hypothesis shorter :
  forall s r, strip s = Some r -> (String.length r < String.length s)%nat.
Hypothesis suffix : forall s r, strip s = Some r -> exists p, s = p ++ r.

Lemma strip_all_done (fuel : nat) (s : string) :
  (String.length s <= fuel)%nat -> strip (strip_all strip fuel s) = None.
Proof.
  revert s. induction fuel as [|f IH]; intros s Hs; cbn [strip_all].
  - destruct (strip s) as [r|] eqn:E; [|reflexivity].
    apply shorter in E. lia.
  - destruct (strip s) as [r|] eqn:E; [|exact E].
    apply IH. apply shorter in E. lia.
Qed.

Lemma strip_all_suffix (fuel : nat) (s : string) :
  exists p, s = p ++ strip_all strip fuel s.
Proof.
  revert s. induction fuel as [|f IH]; intros s; cbn [strip_all].
  - now exists "".
  - destruct (strip s) as [r|] eqn:E; [|now exists ""].
    destruct (suffix _ _ E) as (p & ->).
    destruct (IH r) as (q & Hq). exists (p ++ q).
    rewrite append_assoc. now rewrite <- Hq.
Qed.

Lemma strip_all_fixed (fuel : nat) (s : string) :
  strip s = None -> strip_all strip fuel s = s.
Proof. intros H. destruct fuel; cbn [strip_all]; now rewrite ?H. Qed.
End StripAll.

Lemma rev_string_acc (s acc : string) :
  rev_string s acc = rev_string s "" ++ acc.
Proof.
  revert acc. induction s as [|c s IH]; intros acc; cbn [rev_string].
  - reflexivity.
  - rewrite IH, (IH (String c "")), append_assoc. reflexivity.
Qed.

Lemma rev_string_app (a b : string) :
  rev_string (a ++ b) "" = rev_string b "" ++ rev_string a "".
Proof.
  induction a as [|c a IH]; cbn [append rev_string].
  - now rewrite append_nil_r.
  - rewrite (rev_string_acc (a ++ b) (String c "")), IH,
      (rev_string_acc a (String c "")).
    now rewrite append_assoc.
Qed.

Lemma rev_string_involutive (s : string) :
  rev_string (rev_string s "") "" = s.
Proof.
  induction s as [|c s IH]; [reflexivity|].
  cbn [rev_string].
  rewrite (rev_string_acc s (String c "")), rev_string_app, IH.
  reflexivity.
Qed.

Lemma rev_string_length (s : string) :
  String.length (rev_string s "") = String.length s.
Proof.
  induction s as [|c s IH]; [reflexivity|].
  cbn [rev_string].
  rewrite (rev_string_acc s (String c "")), length_append, IH. cbn. lia.
Qed.

Lemma trimStart_suffix (s : string) : exists p, s = p ++ trimStart s.
Proof. apply strip_all_suffix, strip_ws_suffix. Qed.

Lemma trimEnd_prefix (s : string) : exists q, s = trimEnd s ++ q.
Proof.
  unfold trimEnd.
  destruct (strip_all_suffix strip_ws_rev strip_ws_rev_suffix
              (String.length s) (rev_string s "")) as (p & Hp).
  exists (rev_string p "").
  rewrite <- rev_string_app, <- Hp. symmetry. apply rev_string_involutive.
Qed.

Lemma strip_ws_prefix (p q : string) :
  strip_ws (p ++ q) = None -> strip_ws p = None.
Proof.
  destruct p as [|a [|b [|c p]]]; cbn;
    repeat match goal with
           | |- context [if ?b then _ else _] => destruct b
           end;
    try reflexivity; try discriminate;
    destruct q as [|x [|y q]]; cbn;
    repeat match goal with
           | |- context [if ?b then _ else _] => destruct b
           end;
    try reflexivity; discriminate.
Qed.

Lemma trim_fixed (t : string) :
  strip_ws t = None -> strip_ws_rev (rev_string t "") = None -> trim t = t.
Proof.
  intros H1 H2. unfold trim, trimStart, trimEnd.
  rewrite (strip_all_fixed strip_ws _ _ H1).
  rewrite (strip_all_fixed strip_ws_rev _ _ H2).
  apply rev_string_involutive.
Qed.

Lemma trim_trimmed (s : string) :
  strip_ws (trim s) = None /\ strip_ws_rev (rev_string (trim s) "") = None.
Proof.
  unfold trim. set (u := trimStart s).
  assert (Hu : strip_ws u = None).
  { apply strip_all_done; [apply strip_ws_shorter|lia]. }
  split.
  - destruct (trimEnd_prefix u) as (q & Hq).
    apply (strip_ws_prefix _ q). now rewrite <- Hq.
  - unfold trimEnd. rewrite rev_string_involutive.
    apply strip_all_done; [apply strip_ws_rev_shorter|].
    now rewrite rev_string_length.
Qed.

Lemma trim_idempotent (s : string) : trim (trim s) = trim s.
Proof. destruct (trim_trimmed s). now apply trim_fixed. Qed.

Lemma string_chars_app (a b : string) :
  list_ascii_of_string (a ++ b)
  = (list_ascii_of_string a ++ list_ascii_of_string b)%list.
Proof. induction a as [|c a IH]; cbn; [reflexivity|now rewrite IH]. Qed.

Lemma trim_chars (s : string) (c : ascii) :
  In c (list_ascii_of_string (trim s)) -> In c (list_ascii_of_string s).
Proof.
  unfold trim. intros H.
  destruct (trimStart_suffix s) as (p & Hp).
  destruct (trimEnd_prefix (trimStart s)) as (q & Hq).
  rewrite Hp, Hq, !string_chars_app.
  apply in_or_app. right. apply in_or_app. now left.
Qed.

Lemma split_comma_nonempty (s : string) : split_comma s <> [].
Proof.
  induction s as [|c s IH]; cbn [split_comma]; [discriminate|].
  destruct (split_comma s); [congruence|].
  destruct (Ascii.eqb c ","); discriminate.
Qed.

Lemma split_comma_pieces (s : string) :
  Forall (fun p => ~ In ","%char (list_ascii_of_string p)) (split_comma s).
Proof.
  induction s as [|c s IH]; cbn [split_comma].
  - constructor; [intros []|constructor].
  - pose proof (split_comma_nonempty s) as Hne.
    destruct (split_comma s) as [|p ps]; [congruence|].
    inversion IH as [|? ? Hp Hps]; subst.
    destruct (Ascii.eqb_spec c ",") as [->|Hc].
    + constructor; [intros []|exact IH].
    + constructor; [|exact Hps].
      cbn. intros [E|Hin]; [now apply Hc|now apply Hp].
Qed.

(* ------------------------------------------------------------------ *)
(** * Ideas *)
(* ------------------------------------------------------------------ *)

Lemma tagList_spec (tags : string) :
  Forall (fun t => t <> "" /\ trim t = t
                   /\ ~ In ","%char (list_ascii_of_string t))
         (IdeaCapture.tagList tags).
Proof.
  unfold IdeaCapture.tagList. apply Forall_forall. intros t Ht.
  apply filter_In in Ht. destruct Ht as [Hin Hne].
  apply in_map_iff in Hin. destruct Hin as (p & <- & Hp).
  split; [|split].
  - intros E. rewrite E in Hne. discriminate.
  - apply trim_idempotent.
  - intros Hc. apply trim_chars in Hc.
    pose proof (split_comma_pieces tags) as Hf.
    rewrite Forall_forall in Hf. exact (Hf p Hp Hc).
Qed.

(** X15.  Capturing an idea.  [add] does nothing when the text is blank
    (nothing but white space).  Otherwise it clears the form and puts one
    new idea in front of the others, with the text trimmed, the id and
    the time drawn, not pinned; projects, sessions and goal are not
    touched.  Whatever was typed in the tags field, every tag stored is
    non-empty, has no white space at either end and contains no comma. *)
Theorem IdeaCapture_add_spec (uid now : string) (f : IdeaCapture.t)
  (w : World) :
  let r := IdeaCapture.add uid now f w in
  (trim (IdeaCapture.text f) = "" -> r = (f, w))
  /\ (trim (IdeaCapture.text f) <> "" ->
      fst r = {| IdeaCapture.text := ""; IdeaCapture.tags := "";
                 IdeaCapture.projectId := "" |}
      /\ state (snd r)
         = {| projects := projects (state w);
              sessions := sessions (state w);
              ideas :=
                {| Idea.id := uid;
                   Idea.text := trim (IdeaCapture.text f);
                   Idea.tags := IdeaCapture.tagList (IdeaCapture.tags f);
                   Idea.projectId :=
                     if String.eqb (IdeaCapture.projectId f) "" then None
                     else Some (IdeaCapture.projectId f);
                   Idea.createdAt := now;
                   Idea.pinned := None |} :: ideas (state w);
              dailyGoal := dailyGoal (state w) |})
  /\ Forall (fun t => t <> "" /\ trim t = t
                      /\ ~ In ","%char (list_ascii_of_string t))
            (IdeaCapture.tagList (IdeaCapture.tags f)).
Proof.
  cbv zeta. unfold IdeaCapture.add. split; [|split].
  - intros E. now rewrite E.
  - intros Hne.
    destruct (String.eqb_spec (trim (IdeaCapture.text f)) "") as [E|_];
      [contradiction|].
    split; reflexivity.
  - apply tagList_spec.
Qed.

Example tagList_example :
  IdeaCapture.tagList " plot , ,twist,," = ["plot"; "twist"]
  /\ IdeaCapture.tagList "" = [].
Proof. split; reflexivity. Qed.

Lemma distinct_spec (l : list string) :
  forall seen,
    NoDup (IdeaList.distinct seen l)
    /\ forall t, In t (IdeaList.distinct seen l) <-> In t l /\ ~ In t seen.
Proof.
  induction l as [|x l IH]; intros seen; cbn [IdeaList.distinct].
  - split; [constructor|]. intros t. cbn. tauto.
  - destruct (existsb (String.eqb x) seen) eqn:E.
    + destruct (IH seen) as [Hd Hin]. split; [exact Hd|].
      intros t. rewrite Hin. cbn [In]. split; [tauto|].
      intros [[->|H] Hn]; [|tauto].
      exfalso. apply Hn. apply existsb_exists in E.
      destruct E as (y & Hy & Exy). apply String.eqb_eq in Exy. now subst.
    + destruct (IH (x :: seen)) as [Hd Hin]. split.
      * constructor; [|exact Hd]. rewrite Hin. cbn [In]. tauto.
      * intros t. cbn [In]. rewrite Hin. cbn [In].
        assert (Hx : ~ In x seen).
        { intros Hx. assert (existsb (String.eqb x) seen = true); [|congruence].
          apply existsb_exists. exists x. split; [exact Hx|].
          apply String.eqb_refl. }
        destruct (string_dec x t) as [->|Hne]; [tauto|]. tauto.
Qed.

Lemma existsb_eqb_In (t : string) (l : list string) :
  existsb (String.eqb t) l = true <-> In t l.
Proof.
  rewrite existsb_exists. split.
  - intros (y & Hy & E). apply String.eqb_eq in E. now subst.
  - intros H. exists t. split; [exact H|apply String.eqb_refl].
Qed.

(** X16.  The idea list and its tag filter.  The filter offers each tag
    in use once, and no other.  With no query and no tag chosen every
    idea is listed.  With no query and a non-empty tag chosen from the
    filter, the ideas listed are exactly those that carry the tag, and
    there is at least one. *)
Theorem IdeaList_filter_spec (toLowerCase : string -> string)
  (ideas : list Idea.t) :
  NoDup (IdeaList.tags ideas)
  /\ (forall t, In t (IdeaList.tags ideas)
                <-> exists i, In i ideas /\ In t (Idea.tags i))
  /\ IdeaList.filtered toLowerCase "" "" ideas = ideas
  /\ (forall t, In t (IdeaList.tags ideas) -> t <> "" ->
        IdeaList.filtered toLowerCase "" t ideas <> []
        /\ forall i, In i (IdeaList.filtered toLowerCase "" t ideas)
                     <-> In i ideas /\ In t (Idea.tags i)).
Proof.
  unfold IdeaList.tags.
  destruct (distinct_spec (flat_map Idea.tags ideas) []) as [Hd Hin].
  assert (Htags : forall t, In t (IdeaList.distinct []
                                    (flat_map Idea.tags ideas))
                            <-> exists i, In i ideas /\ In t (Idea.tags i)).
  { intros t. rewrite Hin, in_flat_map. cbn. tauto. }
  split; [exact Hd|]. split; [exact Htags|]. split.
  - unfold IdeaList.filtered. cbn. clear.
    induction ideas as [|i l IH]; [reflexivity|].
    cbn [filter]. now f_equal.
  - intros t Ht Hne.
    assert (Hf : forall i, In i (IdeaList.filtered toLowerCase "" t ideas)
                           <-> In i ideas /\ In t (Idea.tags i)).
    { intros i. unfold IdeaList.filtered. rewrite filter_In.
      cbn [String.eqb orb andb].
      destruct (String.eqb_spec t "") as [->|_]; [contradiction|].
      cbn [orb]. now rewrite existsb_eqb_In. }
    split; [|exact Hf].
    apply Htags in Ht. destruct Ht as (i & Hi & Hti).
    intros E. assert (In i (IdeaList.filtered toLowerCase "" t ideas))
      by (apply Hf; now split).
    rewrite E in H. inversion H.
Qed.

Lemma same_id_same (A : Type) (id_of : A -> string) (x y : A)
  (l : list A) :
  NoDup (map id_of l) -> In x l -> In y l -> id_of x = id_of y -> x = y.
Proof.
  induction l as [|z l IH]; cbn [map In]; intros Hd Hx Hy E; [easy|].
  inversion Hd as [|? ? Hz Hd']; subst.
  destruct Hx as [->|Hx], Hy as [->|Hy]; auto.
  - exfalso. apply Hz. rewrite E. now apply in_map.
  - exfalso. apply Hz. rewrite <- E. now apply in_map.
Qed.

(** X17.  Pinning.  With distinct ids, clicking the pin of a listed idea
    flips what that row shows as pinned and changes no other row and no
    other field; clicking it again restores every row. *)
Theorem togglePin_twice (i : Idea.t) (w : World) :
  NoDup (map Idea.id (ideas (state w))) ->
  In i (ideas (state w)) ->
  let w1 := IdeaList.togglePin i w in
  map idea_row (ideas (state w1))
  = map (fun j => if String.eqb (Idea.id j) (Idea.id i)
                  then idea_row (pin_clicked i) else idea_row j)
      (ideas (state w))
  /\ In (pin_clicked i) (ideas (state w1))
  /\ map idea_row (ideas (state (IdeaList.togglePin (pin_clicked i) w1)))
     = map idea_row (ideas (state w)).
Proof.
  intros Hd Hin. cbv zeta. unfold IdeaList.togglePin, updateIdea.
  cbn [setIdeas state ideas pin_clicked Idea.id].
  set (l := ideas (state w)) in *.
  assert (Hsame : forall j, In j l -> Idea.id j = Idea.id i -> j = i).
  { intros j Hj E. now apply (same_id_same _ Idea.id j i l). }
  split; [|split].
  - rewrite map_map. apply map_ext_in. intros j Hj.
    destruct (String.eqb_spec (Idea.id j) (Idea.id i)) as [E|_];
      [|reflexivity].
    now rewrite (Hsame j Hj E).
  - apply in_map_iff. exists i. split; [|exact Hin].
    now rewrite String.eqb_refl.
  - rewrite !map_map. apply map_ext_in. intros j Hj.
    destruct (String.eqb_spec (Idea.id j) (Idea.id i)) as [E|Hne].
    + cbn [Idea.id]. rewrite E, String.eqb_refl.
      rewrite (Hsame j Hj E). unfold idea_row, IdeaList.is_pinned.
      cbn. now rewrite negb_involutive.
    + destruct (String.eqb_spec (Idea.id j) (Idea.id i)); [contradiction|].
      reflexivity.
Qed.

Lemma togglePin_twice_witness :
  map idea_row
    (ideas (state
       (IdeaList.togglePin
          (pin_clicked
             {| Idea.id := "i1"; Idea.text := "a twist";
                Idea.tags := ["plot"]; Idea.projectId := None;
                Idea.createdAt := "2024-03-02T08:00:00.000Z";
                Idea.pinned := None |})
          (IdeaList.togglePin
             {| Idea.id := "i1"; Idea.text := "a twist";
                Idea.tags := ["plot"]; Idea.projectId := None;
                Idea.createdAt := "2024-03-02T08:00:00.000Z";
                Idea.pinned := None |}
             (addIdea "i1" "2024-03-02T08:00:00.000Z"
                {| Idea.id := ""; Idea.text := "a twist";
                   Idea.tags := ["plot"]; Idea.projectId := None;
                   Idea.createdAt := ""; Idea.pinned := None |}
                empty_world)))))
  = [("i1", "a twist", ["plot"], None, "2024-03-02T08:00:00.000Z", false)].
Proof.
  refine (proj2 (proj2 (togglePin_twice
            {| Idea.id := "i1"; Idea.text := "a twist";
               Idea.tags := ["plot"]; Idea.projectId := None;
               Idea.createdAt := "2024-03-02T08:00:00.000Z";
               Idea.pinned := None |}
            (addIdea "i1" "2024-03-02T08:00:00.000Z"
               {| Idea.id := ""; Idea.text := "a twist";
                  Idea.tags := ["plot"]; Idea.projectId := None;
                  Idea.createdAt := ""; Idea.pinned := None |}
               empty_world) _ _))).
  - cbn. repeat constructor. intros [].
  - cbn. now left.
Defined.

(* ------------------------------------------------------------------ *)
(** * Percentages *)
(* ------------------------------------------------------------------ *)

Lemma SFcompare_antisym (x y : double) (c : comparison) :
  SFcompare x y = Some c -> SFcompare y x = Some (CompOpp c).
Proof.
  destruct x as [sx|sx| |sx mx ex], y as [sy|sy| |sy my ey]; cbn;
    try discriminate;
    try (intros H; injection H as <-;
         repeat match goal with
                | s : bool |- _ => destruct s
                end; reflexivity).
  intros H. injection H as <-. f_equal.
  rewrite (Z.compare_antisym ex ey).
  destruct sx, sy; try reflexivity;
    destruct (ex ?= ey); cbn; try reflexivity;
    rewrite (Pos.compare_cont_antisym mx my Eq); cbn;
    now rewrite ?CompOpp_involutive.
Qed.

Lemma fmin_le (x y : double) :
  fmin x y = S754_nan \/ (SFleb (fmin x y) x = true).
Proof.
  unfold fmin, SFleb.
  destruct (SFcompare x y) as [[| |]|] eqn:E; [| | |now left]; right.
  - assert (Hxx : SFcompare x x = Some Eq).
    { destruct x as [sx|[|]| |[|] mx ex], y; cbn in *; try discriminate;
        try reflexivity;
        now rewrite Z.compare_refl, Pos.compare_cont_refl. }
    destruct x as [[|]|sx| |sx mx ex]; try (now rewrite Hxx);
      apply SFcompare_antisym in E; now rewrite E.
  - assert (Hxx : SFcompare x x = Some Eq).
    { destruct x as [sx|[|]| |[|] mx ex], y; cbn in *; try discriminate;
        try reflexivity;
        now rewrite Z.compare_refl, Pos.compare_cont_refl. }
    now rewrite Hxx.
  - apply SFcompare_antisym in E. now rewrite E.
Qed.

(** X18.  The percentage beside the daily goal is never NaN and never
    more than 100, whatever the words of the day and the goal are, a goal
    of 0 or NaN included.  The percentage of a project card is 0 when the
    target is 0 or NaN, and otherwise NaN or at most 100. *)
Theorem percent_bounds (w g : num) (p : Project.t) :
  (goal_percent w g <> S754_nan
   /\ fleb (goal_percent w g) (of_int 100) = true)
  /\ (num_truthy (Project.targetWords p) = false ->
      ProjectCard_pct p w = of_int 0)
  /\ (ProjectCard_pct p w = S754_nan
      \/ fleb (ProjectCard_pct p w) (of_int 100) = true).
Proof.
  split; [|split].
  - unfold goal_percent, double_or, fleb.
    set (r := Math_round _).
    destruct (fmin_le (of_int 100) r) as [E|E].
    + rewrite E. cbn. split; [discriminate|reflexivity].
    + destruct (double_truthy (fmin (of_int 100) r)) eqn:T.
      * split; [|exact E]. intros N. rewrite N in T. discriminate.
      * split; [discriminate|reflexivity].
  - intros H. unfold ProjectCard_pct. now rewrite H.
  - unfold ProjectCard_pct, fleb.
    destruct (num_truthy (Project.targetWords p)); [|now right].
    apply fmin_le.
Qed.

Example goal_percent_examples :
  goal_percent (Int 250) (Int 500) = of_int 50
  /\ goal_percent (Int 900) (Int 500) = of_int 100
  /\ goal_percent (Int 900) (Int 0) = of_int 100
  /\ goal_percent (Int 0) (Int 0) = of_int 0
  /\ goal_percent NaN (Int 500) = of_int 0
  /\ goal_percent (Int 199) (Int 200) = of_int 100.
Proof. repeat split; vm_compute; reflexivity. Qed.

(* ------------------------------------------------------------------ *)
(** * Number inputs *)
(* ------------------------------------------------------------------ *)

Lemma append_nonempty (z : Z) (rest : string) :
  String.eqb (Z_to_string z ++ rest) "" = false.
Proof.
  destruct (number_head z) as (c & r & -> & _). reflexivity.
Qed.

Lemma parse_prefix_pos (neg : bool) (p : positive) (rest : string) :
  no_digit_ahead rest ->
  let s := (if neg then "-" else "")
           ++ NilZero.string_of_uint (Pos.to_uint p) ++ rest in
  parseInt s = Int (if neg then Z.neg p else Z.pos p)
  /\ parseInt10 s = Int (if neg then Z.neg p else Z.pos p).
Proof.
  intros Hd. cbv zeta.
  destruct (pos_digits_head p) as (c & r & E & Hc & Hz).
  pose proof (dec_prefix_pos p rest Hd) as Hp.
  rewrite E in *. cbn [append] in *.
  destruct (digit_start c (r ++ rest) Hc) as [Ht Hs].
  unfold parseInt, parseInt10.
  destruct neg; cbn [append].
  - change (trim_start (String "-" (String c (r ++ rest))))
      with (String "-" (String c (r ++ rest))).
    change (strip_sign (String "-" (String c (r ++ rest))))
      with (true, String c (r ++ rest)).
    cbv iota beta.
    rewrite strip_0x_no_zero, Hp by exact Hz. split; reflexivity.
  - rewrite Ht, Hs. cbv iota beta.
    rewrite strip_0x_no_zero, Hp by exact Hz. split; reflexivity.
Qed.

Lemma parseInt_prefix (z : Z) (rest : string) :
  no_digit_ahead rest ->
  parseInt10 (Z_to_string z ++ rest) = Int z
  /\ (no_hex_mark rest -> parseInt (Z_to_string z ++ rest) = Int z).
Proof.
  intros Hd. destruct z as [|p|p].
  - change (Z_to_string 0 ++ rest) with (String "0" rest).
    assert (Hs : span_digits (String "0" rest) = ("0", rest)).
    { cbn. now rewrite (span_digits_stop rest Hd). }
    assert (Hp : dec_prefix (String "0" rest) = Some 0%N).
    { unfold dec_prefix. now rewrite Hs. }
    unfold parseInt10, parseInt.
    change (trim_start (String "0" rest)) with (String "0" rest).
    change (strip_sign (String "0" rest)) with (false, String "0" rest).
    cbv iota beta. rewrite Hp. split; [reflexivity|].
    intros Hx.
    assert (Hn : strip_0x (String "0" rest) = None).
    { destruct rest as [|c rest]; [reflexivity|]. destruct Hx as [H1 H2].
      destruct c as [[|] [|] [|] [|] [|] [|] [|] [|]]; try reflexivity;
        congruence. }
    rewrite Hn. reflexivity.
  - destruct (parse_prefix_pos false p rest Hd) as [H1 H2].
    cbn [append] in H1, H2. cbn [Z_to_string]. now split.
  - destruct (parse_prefix_pos true p rest Hd) as [H1 H2].
    cbn [append] in H1, H2. cbn [Z_to_string append]. now split.
Qed.



(** X20.  The daily-goal field after it loses focus.  The text the field
    then shows is empty or the decimal form of the stored goal, and
    leaving the field again without typing stores the same goal and
    shows the same text.  So the stored goal is always 0 when the field
    shows nothing. *)
Theorem dailyGoal_onBlur_again (text : string) :
  let r := dailyGoal_onBlur text in
  dailyGoal_onBlur (snd r) = r
  /\ ((snd r = "" /\ fst r = Int 0)
      \/ exists z, 0 <= z <= 100000
                   /\ fst r = Int z /\ snd r = Z_to_string z).
Proof.
  cbv zeta. unfold dailyGoal_onBlur at 2 3 4 5 6 7.
  destruct (parseInt10 text) as [|z] eqn:E; cbn [isNaN fst snd].
  - split; [reflexivity|]. left. now split.
  - unfold clamp. cbn [Math_min Math_max num_to_string].
    set (c := Z.max 0 (Z.min 100000 z)).
    split.
    + destruct (parseInt_prefix c "" I) as [H _].
      rewrite append_nil_r in H.
      unfold dailyGoal_onBlur. rewrite H. cbn [isNaN].
      unfold clamp. cbn [Math_min Math_max num_to_string].
      replace (Z.max 0 (Z.min 100000 c)) with c by (subst c; lia).
      reflexivity.
    + right. exists c. split; [subst c; lia|]. now split.
Qed.

(* ------------------------------------------------------------------ *)
(** * Editing a project *)
(* ------------------------------------------------------------------ *)

(** X21.  The edit dialog.  With distinct project ids, saving the dialog
    of a stored project [p] rewrites the title, description and deadline
    of [p] to what the dialog holds and nothing else: its id, target,
    status, creation time and archive flag stay, and so does every other
    project.  No title is refused, the empty one included.  Saving the
    dialog as it was filled from [p] leaves the store exactly as it was,
    if [p] has a description and a deadline, as every project made by
    the create dialog has. *)
Theorem EditProjectDialog_save_spec (p : Project.t)
  (d : EditProjectDialog.t) (w : World) :
  NoDup (map Project.id (projects (state w))) ->
  In p (projects (state w)) ->
  projects (state (snd (EditProjectDialog.save (Project.id p) d w)))
  = map (fun q =>
           if String.eqb (Project.id q) (Project.id p)
           then {| Project.id := Project.id p;
                   Project.title := EditProjectDialog.title d;
                   Project.description :=
                     Some (EditProjectDialog.description d);
                   Project.targetWords := Project.targetWords p;
                   Project.deadline := Some (EditProjectDialog.deadline d);
                   Project.status := Project.status p;
                   Project.createdAt := Project.createdAt p;
                   Project.archived := Project.archived p |}
           else q)
      (projects (state w))
  /\ (Project.description p <> None -> Project.deadline p <> None ->
      state (snd (EditProjectDialog.save (Project.id p)
                    (EditProjectDialog.fields p true) w))
      = state w).
Proof.
  intros Hd Hin.
  assert (Hsame : forall q, In q (projects (state w)) ->
                            Project.id q = Project.id p -> q = p).
  { intros q Hq E. now apply (same_id_same _ Project.id q p _ Hd). }
  split.
  - cbn. apply map_ext_in. intros q Hq.
    destruct (String.eqb_spec (Project.id q) (Project.id p)) as [E|_];
      [|reflexivity].
    now rewrite (Hsame q Hq E).
  - intros H1 H2. rewrite <- (state_eta w) at 1. cbn. f_equal.
    rewrite <- (map_id (projects (state w))) at 2.
    apply map_ext_in. intros q Hq.
    destruct (String.eqb_spec (Project.id q) (Project.id p)) as [E|_];
      [|reflexivity].
    rewrite (Hsame q Hq E).
    destruct p as [id title [ds|] tw [dl|] st created ar];
      cbn in H1, H2; try congruence.
    unfold apply_patch. cbn. unfold str_or.
    destruct (String.eqb_spec ds "") as [->|_];
      destruct (String.eqb_spec dl "") as [->|_]; reflexivity.
Qed.

Lemma EditProjectDialog_save_spec_witness :
  state (snd (EditProjectDialog.save "k1"
                (EditProjectDialog.fields
                   (created "k1" "2024-03-02T10:00:00.000Z"
                      (NewProjectDialog.payload
                         {| NewProjectDialog.open := true;
                            NewProjectDialog.title := "Novel";
                            NewProjectDialog.description := "";
                            NewProjectDialog.targetWords := Int 5000;
                            NewProjectDialog.deadline := "" |}))
                   true)
                (addProject "k1" "2024-03-02T10:00:00.000Z"
                   (NewProjectDialog.payload
                      {| NewProjectDialog.open := true;
                         NewProjectDialog.title := "Novel";
                         NewProjectDialog.description := "";
                         NewProjectDialog.targetWords := Int 5000;
                         NewProjectDialog.deadline := "" |})
                   empty_world)))
  = state (addProject "k1" "2024-03-02T10:00:00.000Z"
             (NewProjectDialog.payload
                {| NewProjectDialog.open := true;
                   NewProjectDialog.title := "Novel";
                   NewProjectDialog.description := "";
                   NewProjectDialog.targetWords := Int 5000;
                   NewProjectDialog.deadline := "" |})
             empty_world).
Proof.
  refine (proj2 (EditProjectDialog_save_spec
                   (created "k1" "2024-03-02T10:00:00.000Z"
                      (NewProjectDialog.payload
                         {| NewProjectDialog.open := true;
                            NewProjectDialog.title := "Novel";
                            NewProjectDialog.description := "";
                            NewProjectDialog.targetWords := Int 5000;
                            NewProjectDialog.deadline := "" |}))
                   (EditProjectDialog.fields novel false)
                   (addProject "k1" "2024-03-02T10:00:00.000Z"
                      (NewProjectDialog.payload
                         {| NewProjectDialog.open := true;
                            NewProjectDialog.title := "Novel";
                            NewProjectDialog.description := "";
                            NewProjectDialog.targetWords := Int 5000;
                            NewProjectDialog.deadline := "" |})
                      empty_world) _ _) _ _).
  - cbn. repeat constructor. intros [].
  - cbn. now left.
  - discriminate.
  - discriminate.
Defined.

(* ------------------------------------------------------------------ *)
(** * Cloud save *)
(* ------------------------------------------------------------------ *)

Lemma defaulted_truthy (fs : list (string * JsVal)) :
  truthy (b_projects (defaulted fs)) = true
  /\ truthy (b_sessions (defaulted fs)) = true
  /\ truthy (b_ideas (defaulted fs)) = true
  /\ truthy (b_dailyGoal (defaulted fs)) = true.
Proof.
  unfold defaulted, or_else. cbn.
  repeat split;
    match goal with
    | |- truthy (if ?b then _ else _) = true => destruct b eqn:E
    end; (exact E || reflexivity).
Qed.

(** X22.  What sign-in loaded is what the save effect writes back.  For
    a signed-in user and a found document, the save effect that follows
    the load sends one upsert, whose payload holds the four values just
    loaded and no other key of the document; and a load that finds this
    payload yields the same four values again.  Signed out, the save
    effect sends nothing. *)
Theorem cloud_load_then_save (u now now' : string)
  (fs : list (string * JsVal)) (failure : option string) (b : Bundle) :
  u <> "" ->
  let loaded :=
    Cloud.local
      (Cloud.load (Some u)
         {| Cloud.data := JObj [("data", JObj fs)]; Cloud.error := None |}
         now b) in
  fst (Cloud.save (Some u) now' failure loaded)
  = [Cloud.Upsert u (Bundle_obj (defaulted fs)) now']
  /\ Cloud.local
       (Cloud.load (Some u)
          {| Cloud.data := JObj [("data", Bundle_obj loaded)];
             Cloud.error := None |}
          now' b)
     = loaded
  /\ Cloud.save None now' failure loaded = ([], []).
Proof.
  intros Hu. cbv zeta. apply String.eqb_neq in Hu.
  assert (Hl : Cloud.local
                 (Cloud.load (Some u)
                    {| Cloud.data := JObj [("data", JObj fs)];
                       Cloud.error := None |} now b)
               = defaulted fs).
  { unfold Cloud.load. rewrite Hu. reflexivity. }
  rewrite Hl. split; [|split].
  - unfold Cloud.save. now rewrite Hu.
  - unfold Cloud.load. rewrite Hu. cbn.
    destruct (defaulted_truthy fs) as (H1 & H2 & H3 & H4).
    unfold or_else. cbn in H1, H2, H3, H4 |- *.
    unfold or_else in H1, H2, H3, H4. now rewrite H1, H2, H3, H4.
  - reflexivity.
Qed.

Lemma cloud_load_then_save_witness :
  fst (Cloud.save (Some "user-1") "2024-03-02T10:00:05.000Z" None
         (Cloud.local
            (Cloud.load (Some "user-1")
               {| Cloud.data :=
                    JObj [("data", JObj [("dailyGoal", JNum (Int 700));
                                         ("theme", JStr "dark")])];
                  Cloud.error := None |}
               "2024-03-02T10:00:00.000Z" Cloud.empty_bundle)))
  = [Cloud.Upsert "user-1"
       (JObj [("projects", JArr []); ("sessions", JArr []);
              ("ideas", JArr []); ("dailyGoal", JNum (Int 700))])
       "2024-03-02T10:00:05.000Z"].
Proof.
  refine (proj1 (cloud_load_then_save "user-1" "2024-03-02T10:00:00.000Z"
                   "2024-03-02T10:00:05.000Z"
                   [("dailyGoal", JNum (Int 700)); ("theme", JStr "dark")]
                   None Cloud.empty_bundle _)).
  discriminate.
Defined.

(* ------------------------------------------------------------------ *)
(** * The clock *)
(* ------------------------------------------------------------------ *)

Lemma clock_checked : all_from clock_ok (Z.to_nat 6000) 0 = true.
Proof. vm_compute. reflexivity. Qed.

(** X23.  The clock.  With less than 100 minutes left the display is
    exactly two digits of minutes and two digits of seconds: the whole
    minutes left and the seconds beyond them, each with a leading 0 when
    below 10. *)
Theorem clock_spec (tm : Timer.t) :
  0 <= Timer.timerSeconds tm < 6000 ->
  Timer.minutes tm = two_digits (Timer.timerSeconds tm / 60)
  /\ Timer.seconds tm = two_digits (Timer.timerSeconds tm mod 60).
Proof.
  intros H.
  assert (Hc : clock_ok (Timer.timerSeconds tm) = true)
    by (apply (all_from_spec _ _ _ clock_checked); lia).
  unfold clock_ok in Hc. apply andb_true_iff in Hc.
  destruct Hc as [Hm Hs].
  apply String.eqb_eq in Hm, Hs. now split.
Qed.

Lemma clock_spec_witness :
  Timer.minutes Timer.init = "25" /\ Timer.seconds Timer.init = "00".
Proof.
  refine (clock_spec Timer.init _). cbn. lia.
Defined.

(* ------------------------------------------------------------------ *)
(** * Ids *)
(* ------------------------------------------------------------------ *)

Section Ids.
Context {A : Type} (id_of : A -> string).

Lemma NoDup_ids_filter (f : A -> bool) (l : list A) :
  NoDup (map id_of l) -> NoDup (map id_of (filter f l)).
Proof.
  induction l as [|x l IH]; cbn [map filter]; intros H; [constructor|].
  inversion H as [|? ? Hx Hl]; subst.
  destruct (f x); [|now apply IH].
  cbn [map]. constructor; [|now apply IH].
  intros Hin. apply Hx. apply in_map_iff in Hin.
  destruct Hin as (y & E & Hy). apply filter_In in Hy.
  rewrite <- E. apply in_map. tauto.
Qed.

Lemma NoDup_ids_map (g : A -> A) (l : list A) :
  (forall x, id_of (g x) = id_of x) ->
  NoDup (map id_of l) -> NoDup (map id_of (map g l)).
Proof.
  intros Hg H. rewrite map_map.
  now rewrite (map_ext _ id_of Hg).
Qed.

Lemma NoDup_ids_snoc (x : A) (l : list A) :
  ~ In (id_of x) (map id_of l) -> NoDup (map id_of l) ->
  NoDup (map id_of (l ++ [x])).
Proof.
  intros Hx Hl. rewrite map_app. cbn [map].
  apply NoDup_app; [exact Hl|repeat constructor; intros []|].
  intros y Hy [<-|[]]. contradiction.
Qed.
End Ids.

Lemma distinct_ids_act (a : Action) (w : World) :
  distinct_ids (state w) -> draws_fresh a (state w) ->
  distinct_ids (state (act a w)).
Proof.
  intros (Hp & Hs & Hi) Hf.
  destruct a as [uid now p|id patch|id|uid s|id|uid now i|id pinned|id];
    cbn [act draws_fresh] in *; unfold distinct_ids; cbn;
    repeat split; try assumption.
  - now apply (NoDup_ids_snoc Project.id).
  - apply (NoDup_ids_map Project.id); [|exact Hp].
    intros q. now destruct (String.eqb (Project.id q) id).
  - now apply (NoDup_ids_filter Project.id).
  - now apply (NoDup_ids_snoc Session.id).
  - now apply (NoDup_ids_filter Session.id).
  - constructor; assumption.
  - apply (NoDup_ids_map Idea.id); [|exact Hi].
    intros q. now destruct (String.eqb (Idea.id q) id).
  - now apply (NoDup_ids_filter Idea.id).
Qed.

Lemma sessions_act (a : Action) (w : World) (s : Session.t) :
  In s (sessions (state (act a w))) ->
  In s (sessions (state w))
  \/ exists uid s0, a = LogSession uid s0 /\ s = with_id uid s0.
Proof.
  destruct a as [uid now p|id patch|id|uid s0|id|uid now i|id pinned|id];
    cbn; auto.
  - intros H. apply in_app_or in H. destruct H as [H|[<-|[]]]; [now left|].
    right. now exists uid, s0.
  - intros H. apply filter_In in H. tauto.
Qed.



(* ------------------------------------------------------------------ *)
(** * The bound of [JSON.parse] *)
(* ------------------------------------------------------------------ *)

Section ParseBound.
Local Open Scope nat_scope.

Lemma parse_value_step (f : nat) (s : string) :
  JSON.parse_value (S f) s
  = value_step (JSON.parse_elems f) (JSON.parse_members f) (JSON.skip_ws s).
Proof. reflexivity. Qed.

Lemma skip_ws_length (s : string) :
  String.length (JSON.skip_ws s) <= String.length s.
Proof.
  induction s as [|c s IH]; cbn; [lia|].
  destruct (JSON.is_json_ws c); cbn; lia.
Qed.

Lemma prepend_some (p : string) (x : option (string * string))
      (k rest : string) :
  JSON.prepend p x = Some (k, rest) -> exists k', x = Some (k', rest).
Proof.
  destruct x as [[k' rest']|]; cbn; [|discriminate].
  intros [= _ ->]. now exists k'.
Qed.

Lemma parse_chars_length (n : nat) : forall s k r,
  String.length s <= n -> JSON.parse_chars s = Some (k, r) ->
  String.length r < String.length s.
Proof.
  induction n as [|n IH]; intros s k r Hn H.
  - destruct s; [discriminate|cbn in Hn; lia].
  - destruct s as [|c s1]; [discriminate|].
    cbn [JSON.parse_chars] in H. cbn [String.length] in *.
    destruct (Ascii.eqb c JSON.dquote).
    { injection H as _ ->. lia. }
    destruct (Ascii.eqb c JSON.backslash).
    + destruct s1 as [|e r1]; [discriminate|]. cbn [String.length] in *.
      repeat match type of H with
             | (if ?b then _ else _) = _ => destruct b
             end;
        try discriminate;
        try (apply prepend_some in H; destruct H as [k' H];
             apply IH in H; lia).
      destruct r1 as [|h1 [|h2 [|h3 [|h4 r2]]]]; try discriminate.
      destruct (JSON.hex4 h1 h2 h3 h4); [|discriminate].
      apply prepend_some in H. destruct H as [k' H].
      apply IH in H; cbn [String.length] in *; lia.
    + destruct (N_of_ascii c <? 32)%N; [discriminate|].
      apply prepend_some in H. destruct H as [k' H].
      apply IH in H; lia.
Qed.

Lemma span_digits_length (s d r : string) :
  span_digits s = (d, r) ->
  String.length s = String.length d + String.length r.
Proof.
  revert d r. induction s as [|c s IH]; cbn [span_digits]; intros d r H.
  - now injection H as <- <-.
  - destruct (is_digit c).
    + destruct (span_digits s) as [d' t] eqn:E. injection H as <- <-.
      cbn. now rewrite (IH _ _ eq_refl).
    + now injection H as <- <-.
Qed.

Ltac bits c := destruct c as [[|] [|] [|] [|] [|] [|] [|] [|]].

Lemma span_int_length (s ip r : string) :
  JSON.span_int s = (ip, r) ->
  String.length s = String.length ip + String.length r.
Proof.
  destruct s as [|c s']; [now intros [= <- <-]|].
  bits c; unfold JSON.span_int;
    first [apply span_digits_length | now intros [= <- <-]].
Qed.

Lemma strip_sign_length (s r : string) (neg : bool) :
  strip_sign s = (neg, r) -> String.length r <= String.length s.
Proof.
  destruct s as [|c s']; [intros [= _ <-]; lia|].
  bits c; unfold strip_sign; intros [= _ <-]; cbn; lia.
Qed.

Lemma strip_minus_length (s r : string) (neg : bool) :
  JSON.strip_minus s = (neg, r) -> String.length r <= String.length s.
Proof.
  destruct s as [|c s']; [intros [= _ <-]; lia|].
  bits c; unfold JSON.strip_minus; intros [= _ <-]; cbn; lia.
Qed.

Lemma parse_fraction_length (s fd r : string) :
  JSON.parse_fraction s = Some (fd, r) ->
  String.length r <= String.length s.
Proof.
  destruct s as [|c s']; [intros [= _ <-]; lia|].
  bits c; unfold JSON.parse_fraction;
    try (intros [= _ <-]; cbn; lia).
  destruct (span_digits s') as [d t] eqn:E.
  apply span_digits_length in E.
  destruct d; [discriminate|]. intros [= _ <-]. cbn in *. lia.
Qed.

Lemma exponent_length (s r : string) (ex : Z) :
  (let (neg, r1) := strip_sign s in
   let (ed, r2) := span_digits r1 in
   match ed with
   | EmptyString => None
   | _ => let e := Z.of_N (digits_value ed) in
          Some (if neg then (- e)%Z else e, r2)
   end) = Some (ex, r) ->
  String.length r <= String.length s.
Proof.
  destruct (strip_sign s) as [neg r1] eqn:E1.
  apply strip_sign_length in E1.
  destruct (span_digits r1) as [ed r2] eqn:E2.
  apply span_digits_length in E2.
  destruct ed; [discriminate|]. intros [= _ <-]. lia.
Qed.

Lemma parse_exponent_length (s r : string) (ex : Z) :
  JSON.parse_exponent s = Some (ex, r) ->
  String.length r <= String.length s.
Proof.
  destruct s as [|c s']; [intros [= _ <-]; lia|].
  bits c; unfold JSON.parse_exponent;
    try (intros [= _ <-]; cbn; lia);
    intros H; apply exponent_length in H; cbn; lia.
Qed.

Lemma parse_number_length (s r : string) (v : JsVal) :
  JSON.parse_number s = Some (v, r) ->
  String.length r < String.length s.
Proof.
  unfold JSON.parse_number.
  destruct (JSON.strip_minus s) as [neg s1] eqn:E1.
  apply strip_minus_length in E1.
  destruct (JSON.span_int s1) as [ip s2] eqn:E2.
  apply span_int_length in E2.
  destruct ip as [|d ip]; [discriminate|].
  destruct (JSON.parse_fraction s2) as [[fd s3]|] eqn:E3; [|discriminate].
  apply parse_fraction_length in E3.
  destruct (JSON.parse_exponent s3) as [[ex s4]|] eqn:E4; [|discriminate].
  apply parse_exponent_length in E4.
  intros [= _ <-]. cbn in E2. lia.
Qed.

Lemma closes_length (c : ascii) (s r : string) :
  JSON.closes c s = Some r -> String.length r < String.length s.
Proof.
  unfold JSON.closes. pose proof (skip_ws_length s) as Hs.
  destruct (JSON.skip_ws s) as [|c' t]; [discriminate|].
  destruct (Ascii.eqb c' c); [|discriminate].
  intros [= <-]. cbn in Hs. lia.
Qed.

Lemma value_step_scalar_same
      (e e' : string -> option (list JsVal * string))
      (m m' : string -> option (list (string * JsVal) * string))
      (c : ascii) (t : string) :
  c <> "["%char -> c <> "{"%char ->
  value_step e m (String c t) = value_step e' m' (String c t).
Proof.
  intros H1 H2. bits c; try reflexivity; congruence.
Qed.

Lemma default_length (c : ascii) (t : string) (v : JsVal) (r : string) :
  (if Ascii.eqb c JSON.dquote
   then match JSON.parse_chars t with
        | Some (str, r') => Some (JStr str, r')
        | None => None
        end
   else JSON.parse_number (String c t)) = Some (v, r) ->
  String.length r < String.length (String c t).
Proof.
  destruct (Ascii.eqb c JSON.dquote).
  - destruct (JSON.parse_chars t) as [[str r']|] eqn:E; [|discriminate].
    apply (parse_chars_length _ _ _ _ (le_n _)) in E.
    intros [= _ <-]. cbn. lia.
  - intros H. apply parse_number_length in H. lia.
Qed.

Ltac dflt :=
  match goal with
  | |- value_step _ _ (String ?c ?t) = Some (?v, ?r) -> _ =>
      exact (default_length c t v r)
  end.

Ltac lit t :=
  let c := fresh "c" in
  destruct t as [|c t]; [dflt|]; bits c; try dflt.

Lemma value_step_scalar_length
      (e : string -> option (list JsVal * string))
      (m : string -> option (list (string * JsVal) * string))
      (c : ascii) (t : string) (v : JsVal) (r : string) :
  c <> "["%char -> c <> "{"%char ->
  value_step e m (String c t) = Some (v, r) ->
  String.length r < String.length (String c t).
Proof.
  intros H1 H2. bits c; try congruence; try dflt;
    repeat (lit t); intros [= _ <-]; cbn; lia.
Qed.

Lemma parse_members_step (f : nat) (s : string) :
  JSON.parse_members (S f) s
  = match JSON.skip_ws s with
    | String c r =>
        if Ascii.eqb c JSON.dquote then
          match JSON.parse_chars r with
          | Some (k, r1) =>
              match JSON.skip_ws r1 with
              | String ":" r2 =>
                  match JSON.parse_value f r2 with
                  | Some (v, r3) =>
                      match JSON.skip_ws r3 with
                      | String "," r4 =>
                          match JSON.parse_members f r4 with
                          | Some (fs, r5) => Some ((k, v) :: fs, r5)
                          | None => None
                          end
                      | String "}" r4 => Some ([(k, v)], r4)
                      | _ => None
                      end
                  | None => None
                  end
              | _ => None
              end
          | None => None
          end
        else None
    | EmptyString => None
    end.
Proof. reflexivity. Qed.

Lemma parse_value_bounded (f : nat) :
  bounded JSON.parse_elems f -> bounded JSON.parse_members f ->
  bounded JSON.parse_value (S f).
Proof.
  intros He Hm s v r H. rewrite parse_value_step in H.
  pose proof (skip_ws_length s) as Hs.
  destruct (JSON.skip_ws s) as [|c t] eqn:E; [discriminate|].
  cbn [String.length] in Hs.
  destruct (Ascii.eqb_spec c "[") as [->|Hc1];
    [|destruct (Ascii.eqb_spec c "{") as [->|Hc2]].
  - cbn [value_step] in H.
    destruct (JSON.closes "]" t) as [r'|] eqn:Ec.
    + injection H as <- <-. apply closes_length in Ec as Hl.
      split; [lia|]. intros [|g] Hg; [lia|].
      rewrite parse_value_step, E. cbn [value_step]. now rewrite Ec.
    + destruct (JSON.parse_elems f t) as [[vs r']|] eqn:Ee; [|discriminate].
      injection H as <- <-. destruct (He _ _ _ Ee) as [Hl Hfuel].
      split; [lia|]. intros [|g] Hg; [lia|].
      rewrite parse_value_step, E. cbn [value_step]. rewrite Ec.
      rewrite Hfuel by lia. reflexivity.
  - cbn [value_step] in H.
    destruct (JSON.closes "}" t) as [r'|] eqn:Ec.
    + injection H as <- <-. apply closes_length in Ec as Hl.
      split; [lia|]. intros [|g] Hg; [lia|].
      rewrite parse_value_step, E. cbn [value_step]. now rewrite Ec.
    + destruct (JSON.parse_members f t) as [[fs r']|] eqn:Ee;
        [|discriminate].
      injection H as <- <-. destruct (Hm _ _ _ Ee) as [Hl Hfuel].
      split; [lia|]. intros [|g] Hg; [lia|].
      rewrite parse_value_step, E. cbn [value_step]. rewrite Ec.
      rewrite Hfuel by lia. reflexivity.
  - pose proof (value_step_scalar_length _ _ _ _ _ _ Hc1 Hc2 H) as Hl.
    cbn [String.length] in Hl.
    split; [lia|]. intros [|g] Hg; [lia|].
    rewrite parse_value_step, E. rewrite <- H.
    now apply value_step_scalar_same.
Qed.

Lemma parse_elems_bounded (f : nat) :
  bounded JSON.parse_value f -> bounded JSON.parse_elems f ->
  bounded JSON.parse_elems (S f).
Proof.
  intros Hv He s vs r H. rewrite parse_elems_S in H.
  destruct (JSON.parse_value f s) as [[v r1]|] eqn:E1; [|discriminate].
  destruct (Hv _ _ _ E1) as [Hl1 Hf1].
  pose proof (skip_ws_length r1) as Hs.
  destruct (JSON.skip_ws r1) as [|c t] eqn:E2; [discriminate|].
  cbn [String.length] in Hs.
  destruct (Ascii.eqb_spec c ",") as [->|Hc1];
    [|destruct (Ascii.eqb_spec c "]") as [->|Hc2]].
  - destruct (JSON.parse_elems f t) as [[vs' r']|] eqn:E3; [|discriminate].
    injection H as <- <-. destruct (He _ _ _ E3) as [Hl3 Hf3].
    split; [lia|]. intros [|g] Hg; [lia|].
    rewrite parse_elems_S, Hf1 by lia. rewrite E2.
    rewrite Hf3 by lia. reflexivity.
  - injection H as <- <-.
    split; [lia|]. intros [|g] Hg; [lia|].
    rewrite parse_elems_S, Hf1 by lia. now rewrite E2.
  - exfalso. revert H. bits c; try discriminate; congruence.
Qed.

Lemma parse_members_bounded (f : nat) :
  bounded JSON.parse_value f -> bounded JSON.parse_members f ->
  bounded JSON.parse_members (S f).
Proof.
  intros Hv Hm s fs r H. rewrite parse_members_step in H.
  pose proof (skip_ws_length s) as Hs0.
  destruct (JSON.skip_ws s) as [|q t0] eqn:E0; [discriminate|].
  cbn [String.length] in Hs0.
  destruct (Ascii.eqb q JSON.dquote) eqn:Eq; [|discriminate].
  destruct (JSON.parse_chars t0) as [[k r1]|] eqn:E1; [|discriminate].
  apply (parse_chars_length _ _ _ _ (le_n _)) in E1 as Hl1.
  pose proof (skip_ws_length r1) as Hs1.
  destruct (JSON.skip_ws r1) as [|c1 t1] eqn:E2; [discriminate|].
  cbn [String.length] in Hs1.
  destruct (Ascii.eqb_spec c1 ":") as [->|Hc];
    [|exfalso; revert H; bits c1; try discriminate; congruence].
  destruct (JSON.parse_value f t1) as [[v r3]|] eqn:E3; [|discriminate].
  destruct (Hv _ _ _ E3) as [Hl3 Hf3].
  pose proof (skip_ws_length r3) as Hs3.
  destruct (JSON.skip_ws r3) as [|c t] eqn:E4; [discriminate|].
  cbn [String.length] in Hs3.
  destruct (Ascii.eqb_spec c ",") as [->|Hc1];
    [|destruct (Ascii.eqb_spec c "}") as [->|Hc2]].
  - destruct (JSON.parse_members f t) as [[fs' r']|] eqn:E5;
      [|discriminate].
    injection H as <- <-. destruct (Hm _ _ _ E5) as [Hl5 Hf5].
    split; [lia|]. intros [|g] Hg; [lia|].
    rewrite parse_members_step, E0, Eq, E1, E2.
    rewrite Hf3 by lia. rewrite E4. rewrite Hf5 by lia. reflexivity.
  - injection H as <- <-.
    split; [lia|]. intros [|g] Hg; [lia|].
    rewrite parse_members_step, E0, Eq, E1, E2.
    rewrite Hf3 by lia. now rewrite E4.
  - exfalso. revert H. bits c; try discriminate; congruence.
Qed.

Lemma parse_bounded (f : nat) :
  bounded JSON.parse_value f /\ bounded JSON.parse_elems f
  /\ bounded JSON.parse_members f.
Proof.
  induction f as [|f (Hv & He & Hm)].
  - repeat split; discriminate.
  - split; [now apply parse_value_bounded|].
    split; [now apply parse_elems_bounded|now apply parse_members_bounded].
Qed.

(** The bound that [JSON.parse] gives its descent is never the reason
    for a refusal: a text that the descent reads as a value followed by
    white space under some bound is parsed. *)
Theorem parse_fuel (fuel : nat) (text : string) (v : JsVal) (rest : string) :
  JSON.parse_value fuel text = Some (v, rest) ->
  JSON.skip_ws rest = EmptyString ->
  JSON.parse text = Some (JSON.build v).
Proof.
  intros H Hrest. destruct (parse_bounded fuel) as [Hv _].
  destruct (Hv _ _ _ H) as [_ Hg]. unfold JSON.parse.
  rewrite Hg by lia. now rewrite Hrest.
Qed.

End ParseBound.

(* ------------------------------------------------------------------ *)
(** * Card totals *)
(* ------------------------------------------------------------------ *)

Lemma sum_ext_in {A : Type} (f g : A -> num) (l : list A) :
  (forall x, In x l -> f x = g x) -> sum l f = sum l g.
Proof.
  induction l as [|x l IH]; intros H; [reflexivity|].
  rewrite !sum_cons, (H x (or_introl eq_refl)), IH; [reflexivity|].
  intros y Hy. apply H. now right.
Qed.

Lemma add_swap (a b c : num) : add a (add b c) = add b (add a c).
Proof. now rewrite !add_assoc, (add_comm a b). Qed.

(** Adding [w] under one id of a list of distinct ids adds it once. *)
Lemma sum_bump (pid : string) (w : num) (f : Project.t -> num)
      (ps : list Project.t) :
  NoDup (map Project.id ps) -> In pid (map Project.id ps) ->
  sum ps (fun p => if String.eqb pid (Project.id p) then add w (f p)
                   else f p)
  = add w (sum ps f).
Proof.
  induction ps as [|p ps IH]; intros Hnd Hin; [destruct Hin|].
  inversion Hnd as [|? ? Hp Hps]; subst. rewrite !sum_cons.
  destruct (String.eqb_spec pid (Project.id p)) as [->|Hne].
  - rewrite (sum_ext_in _ f).
    + now rewrite add_assoc.
    + intros q Hq. destruct (String.eqb_spec (Project.id p) (Project.id q))
        as [E|_]; [|reflexivity].
      exfalso. apply Hp. rewrite E. now apply in_map.
  - destruct Hin as [E|Hin]; [congruence|].
    rewrite (IH Hps Hin). apply add_swap.
Qed.

Lemma existsb_of_project (ps : list Project.t) (s : Session.t) :
  existsb (fun p => of_project p s) ps = true
  <-> exists pid, Session.projectId s = Some pid
                  /\ In pid (map Project.id ps).
Proof.
  rewrite existsb_exists. unfold of_project. split.
  - intros (p & Hp & H). destruct (Session.projectId s) as [pid|];
      [|discriminate].
    apply String.eqb_eq in H. subst. exists (Project.id p).
    split; [reflexivity|now apply in_map].
  - intros (pid & -> & Hin). apply in_map_iff in Hin.
    destruct Hin as (p & <- & Hp). exists p. split; [exact Hp|].
    apply String.eqb_refl.
Qed.

(** X25.  The cards share out the total.  When the ids of the projects
    are distinct, the totals that the project cards are given, archived
    projects included, and the words of the sessions that belong to no
    stored project add up to the all-time total, NaN included: every
    logged session is counted on at most one card. *)
Theorem card_totals (ps : list Project.t) (ss : list Session.t) :
  NoDup (map Project.id ps) ->
  add (sum ps (card_totalWords ss)) (sum (unfiled ps ss) Session.words)
  = totalWords ss.
Proof.
  intros Hnd. unfold totalWords.
  induction ss as [|s ss IH].
  - unfold card_totalWords. cbn [filter unfiled].
    rewrite (sum_ext_in _ (fun _ => Int 0)) by reflexivity.
    clear Hnd. induction ps as [|p ps IHp]; [reflexivity|].
    rewrite sum_cons. rewrite add_0_l. exact IHp.
  - rewrite (sum_cons Session.words), <- IH.
    unfold unfiled. cbn [filter].
    destruct (existsb (fun p => of_project p s) ps) eqn:E; cbn [negb].
    + apply existsb_of_project in E. destruct E as (pid & Hpid & Hin).
      rewrite add_assoc. f_equal.
      rewrite <- (sum_bump pid _ _ ps Hnd Hin).
      apply sum_ext_in. intros p _. unfold card_totalWords.
      cbn [filter]. unfold of_project at 1. rewrite Hpid.
      destruct (String.eqb pid (Project.id p)); [|reflexivity].
      apply sum_cons.
    + rewrite (sum_cons Session.words), add_swap. f_equal. f_equal.
      apply sum_ext_in. intros p Hp. unfold card_totalWords.
      cbn [filter].
      destruct (of_project p s) eqn:Ep; [|reflexivity].
      assert (existsb (fun p => of_project p s) ps = true) as E'
        by (apply existsb_exists; now exists p).
      congruence.
Qed.

Lemma card_totals_witness :
  add (sum two_projects (card_totalWords three_sessions))
      (sum (unfiled two_projects three_sessions) Session.words)
  = totalWords three_sessions.
Proof.
  apply card_totals. cbn. repeat constructor; cbn; intuition discriminate.
Defined.
